(** * Kuramoto: oscillator ensemble, attention field, network generators, run metrics

    A shallow embedding of the simulation core of the Kuramoto visualiser:
    the network topology generators, the [KuramotoModel] engine, the
    [AttentionFieldModel] engine and the run metrics, followed by the
    properties proved about them.

    Numbers.  JavaScript numbers are modelled by the real numbers [R]
    (idealised arithmetic: no rounding, no NaN, no infinities), except in the
    topology generators, which only compare and floor the values returned by
    [Math.random()]: there a draw is a rational [Q], so that the generators
    compute.  The [n]-th call of [Math.random()] returns [rnd n]; a function
    that draws takes the cursor [c] of the next draw and returns the new one.

    The program computes in double precision and keeps phases, frequencies,
    stimulus and weights in [Float32Array]s.  The lemmas below are about the
    idealised arithmetic; the theorems they lead to are stated in a form that
    rounding does not change: a bound is between constants that a rounded
    value cannot cross ([Math.PI] is the double constant, below pi;
    [Float32PI] its single-precision neighbour, above pi), an equality relates
    two results of one and the same computation, and counts, lengths and
    orders of entries do not involve arithmetic at all.  What holds only up to
    rounding (a closed-form trajectory, an order parameter equal to 1) is not
    made a theorem. *)

From Stdlib Require Import Reals Machin QArith Qround Qreals Psatz ZArith Bool String.
From stdpp Require Import base list.

(** The values returned by successive calls of [Math.random()]. *)
Definition draws := nat -> Q.

(** [u < p] on draws, as a boolean. *)
Definition Qltb (x y : Q) : bool := negb (Qle_bool y x).

(** [Math.floor(u * n)] for a draw [u]. *)
Definition uniformIndex (u : Q) (n : nat) : nat :=
  Z.to_nat (Qfloor (u * inject_Z (Z.of_nat n))).

(* ================================================================= *)
(** ** Network topology generators *)

Module Topology.

(** An adjacency matrix is an array of rows, [Array(N)] of [Array(N)]. *)
Abbreviation matrix := (list (list nat)).

(** [Array(N).fill(null).map(() => Array(N).fill(0))] *)
Definition zeros (N : nat) : matrix := replicate N (replicate N 0%nat).

(** [adjacency[i][j]], read.  Out of range JavaScript yields [undefined],
    which is not [=== 1]; the model yields [0]. *)
Definition aget (a : matrix) (i j : nat) : nat :=
  match a !! i with
  | Some row => match row !! j with Some v => v | None => 0%nat end
  | None => 0%nat
  end.

(** [adjacency[i][j] = v], for indices in range. *)
Definition aset (a : matrix) (i j v : nat) : matrix :=
  alter (fun row => <[j := v]> row) i a.

(** [adjacency[i][j] = 1; adjacency[j][i] = 1] *)
Definition link (a : matrix) (i j : nat) : matrix := aset (aset a i j 1%nat) j i 1%nat.

(** [adjacency[i][j] = 0; adjacency[j][i] = 0] *)
Definition unlink (a : matrix) (i j : nat) : matrix := aset (aset a i j 0%nat) j i 0%nat.

(** The pairs [(i, j)] visited by
    [for (i = 0; i < N; i++) for (j = i + 1; j < N; j++)], in order. *)
Definition pairsAbove (N : nat) : list (nat * nat) :=
  i ← seq 0 N; j ← seq (S i) (N - S i); [(i, j)].

(** [getAllEdges(adjacency, N)] *)
Definition getAllEdges (a : matrix) (N : nat) : list (nat * nat) :=
  filter (fun e => aget a e.1 e.2 = 1%nat) (pairsAbove N).

Record Network := {
  adjacency : matrix;
  edges : list (nat * nat);
  type : string
}.

Definition network (a : matrix) (N : nat) (ty : string) : Network :=
  {| adjacency := a; edges := getAllEdges a N; type := ty |}.

(** [createAllToAll(N)] *)
Definition createAllToAll (N : nat) : Network :=
  let a :=
    foldl (fun a i =>
      foldl (fun a j => if decide (i ≠ j) then aset a i j 1%nat else a) a (seq 0 N))
      (zeros N) (seq 0 N) in
  network a N "all-to-all".

(** [createRandom(N, probability)]: one draw for every pair [i < j]. *)
Definition createRandom (rnd : draws) (N : nat) (probability : Q) (c : nat)
  : Network * nat :=
  let '(a, c') :=
    foldl (fun (st : matrix * nat) e =>
             if Qltb (rnd st.2) probability
             then (link st.1 e.1 e.2, S st.2)
             else (st.1, S st.2))
          (zeros N, c) (pairsAbove N) in
  (network a N "random", c').

(** Step 1 of [createSmallWorld]: the body of the inner loop.  [neighbor2] is
    computed with JavaScript's remainder, which is negative for a negative
    dividend; then [adjacency[neighbor2]] is [undefined] and the assignment
    [adjacency[neighbor2][i] = 1] throws ([None]). *)
Definition latticeBody (N : nat) (i : nat) (acc : option matrix) (j : nat)
  : option matrix :=
  a ← acc;
  let neighbor1 := ((i + j) mod N)%nat in
  let neighbor2 := Z.rem (Z.of_nat i - Z.of_nat j + Z.of_nat N) (Z.of_nat N) in
  let a := link a i neighbor1 in
  if decide (neighbor2 ≠ Z.of_nat neighbor1) then
    if (neighbor2 <? 0)%Z then None
    else Some (link a i (Z.to_nat neighbor2))
  else Some a.

(** Step 1 of [createSmallWorld]: the ring lattice; [j] runs over
    [1 <= j <= k / 2]. *)
Definition ringLattice (N k : nat) : option matrix :=
  foldl (fun acc i => foldl (latticeBody N i) acc (seq 1 (k / 2)))
        (Some (zeros N)) (seq 0 N).

(** The search for a new target:
    [while ((newTarget === i || adjacency[i][newTarget] === 1) && attempts < 100)].
    The loop runs at most 100 times, which is the [budget]. *)
Fixpoint retarget (rnd : draws) (a : matrix) (N i : nat) (budget : nat)
    (newTarget attempts c : nat) : nat * nat * nat :=
  match budget with
  | O => (newTarget, attempts, c)
  | S budget' =>
      if (bool_decide (newTarget = i) || bool_decide (aget a i newTarget = 1%nat))
           && (attempts <? 100)%nat
      then retarget rnd a N i budget' (uniformIndex (rnd c) N) (S attempts) (S c)
      else (newTarget, attempts, c)
  end.

(** The state of the rewiring loop: the matrix, the cursor of the random
    source, and a count of the edges removed without a replacement (not a
    variable of the source; kept to state the edge accounting). *)
Record Rewiring := {
  rw_adjacency : matrix;
  rw_cursor : nat;
  rw_dropped : nat
}.

(** Step 2 of [createSmallWorld]: the body of [for (const [i, j] of edges)]. *)
Definition rewireEdge (rnd : draws) (N : nat) (rewiringProb : Q)
    (st : Rewiring) (e : nat * nat) : Rewiring :=
  let c := rw_cursor st in
  if Qltb (rnd c) rewiringProb then
    let a := unlink (rw_adjacency st) e.1 e.2 in
    let '(newTarget, attempts, c') :=
      retarget rnd a N e.1 100 (uniformIndex (rnd (S c)) N) 0 (S (S c)) in
    if (attempts <? 100)%nat
    then {| rw_adjacency := link a e.1 newTarget; rw_cursor := c';
            rw_dropped := rw_dropped st |}
    else {| rw_adjacency := a; rw_cursor := c'; rw_dropped := S (rw_dropped st) |}
  else {| rw_adjacency := rw_adjacency st; rw_cursor := S c;
          rw_dropped := rw_dropped st |}.

(** Step 2 of [createSmallWorld], over the edges of the lattice. *)
Definition rewire (rnd : draws) (N : nat) (rewiringProb : Q) (a : matrix) (c : nat)
  : Rewiring :=
  foldl (rewireEdge rnd N rewiringProb)
        {| rw_adjacency := a; rw_cursor := c; rw_dropped := 0 |}
        (getAllEdges a N).

(** [createSmallWorld(N, k, rewiringProb)]; [None] when step 1 throws. *)
Definition createSmallWorld (rnd : draws) (N k : nat) (rewiringProb : Q) (c : nat)
  : option (Network * nat) :=
  a ← ringLattice N k;
  let st := rewire rnd N rewiringProb a c in
  Some (network (rw_adjacency st) N "small-world", rw_cursor st).

(** The defaults of [createSmallWorld(N, k = 4, rewiringProb = 0.1)] and of
    [createRing(N, k = 2)], [createScaleFree(N, m = 2)],
    [createRandom(N, probability = 0.1)]. *)
Definition smallWorld_k : nat := 4.
Definition smallWorld_rewiringProb : Q := 1 # 10.
Definition ring_k : nat := 2.
Definition scaleFree_m : nat := 2.
Definition random_probability : Q := 1 # 10.

(** [createRing(N, k)] *)
Definition createRing (N k : nat) : Network :=
  let a :=
    foldl (fun a i =>
      foldl (fun a j => link a i ((i + j) mod N)%nat) a (seq 1 k))
      (zeros N) (seq 0 N) in
  network a N "ring".

(** [createScaleFree]: the roulette pass
    [for (j = 0; j < i; j++) { sum += degrees[j]; if (sum >= rand && !targets.has(j)) {...; break} }].
    [targets] is the [Set], in insertion order. *)
Fixpoint roulette (degrees : list nat) (rand : Q) (targets : list nat)
    (js : list nat) (sum : nat) : list nat :=
  match js with
  | [] => targets
  | j :: js' =>
      let sum := (sum + nth j degrees 0)%nat in
      if Qle_bool rand (inject_Z (Z.of_nat sum)) && negb (bool_decide (j ∈ targets))
      then targets ++ [j]
      else roulette degrees rand targets js' sum
  end.

(** [targets.add(t)] *)
Definition setAdd (t : nat) (targets : list nat) : list nat :=
  if bool_decide (t ∈ targets) then targets else targets ++ [t].

(** [while (targets.size < Math.min(m, i))]: nothing bounds the number of
    iterations of this loop, so the model takes [fuel]; [None] when it runs
    out. *)
Fixpoint chooseTargets (fuel : nat) (rnd : draws) (degrees : list nat)
    (totalDegree m i : nat) (targets : list nat) (c : nat)
  : option (list nat * nat) :=
  if (length targets <? Nat.min m i)%nat then
    match fuel with
    | O => None
    | S fuel' =>
        let rand := (rnd c * inject_Z (Z.of_nat totalDegree))%Q in
        let targets := roulette degrees rand targets (seq 0 i) 0 in
        if (length targets <? Nat.min m i)%nat
        then chooseTargets fuel' rnd degrees totalDegree m i
               (setAdd (uniformIndex (rnd (S c)) i) targets) (S (S c))
        else chooseTargets fuel' rnd degrees totalDegree m i targets (S c)
    end
  else Some (targets, c).

(** [createScaleFree]: the body of [for (i = m0; i < N; i++)]. *)
Definition attachNode (fuel : nat) (rnd : draws) (m : nat)
    (acc : option (matrix * nat)) (i : nat) : option (matrix * nat) :=
  '(a, c) ← acc;
  let degrees :=
    map (fun j => foldl (fun d k => (d + aget a j k)%nat) 0%nat (seq 0 i)) (seq 0 i) in
  let totalDegree := foldl Nat.add 0%nat degrees in
  '(targets, c') ← chooseTargets fuel rnd degrees totalDegree m i [] c;
  Some (foldl (fun a target => link a i target) a targets, c').

(** [createScaleFree(N, m)]; [fuel] bounds each target selection. *)
Definition createScaleFree (fuel : nat) (rnd : draws) (N m : nat) (c : nat)
  : option (Network * nat) :=
  let m0 := Nat.min (m + 1) N in
  let seed := foldl (fun a e => link a e.1 e.2) (zeros N) (pairsAbove m0) in
  '(a, c') ← foldl (attachNode fuel rnd m) (Some (seed, c)) (seq m0 (N - m0));
  Some (network a N "scale-free", c').

(** The number of undirected edges: the pairs [i < j] with [adjacency[i][j] === 1]. *)
Definition edgeCount (a : matrix) (N : nat) : nat := length (getAllEdges a N).

(** [calculateNetworkStats(adjacency, N)] of the generators' file.
    [Math.max()] and [Math.min()] of no argument are infinite: [None]. *)
Record NetworkStats := {
  avgDegree : Q;
  maxDegree : option nat;
  minDegree : option nat;
  degrees : list nat
}.

(** [degrees[i]] after the inner loop: the sum of row [i]. *)
Definition rowSum (a : matrix) (N i : nat) : nat :=
  foldl (fun d j => (d + aget a i j)%nat) 0%nat (seq 0 N).

Definition calculateNetworkStats (a : matrix) (N : nat) : NetworkStats :=
  let degrees :=
    foldl (fun ds i => <[i := rowSum a N i]> ds) (replicate N 0%nat) (seq 0 N) in
  {| avgDegree := inject_Z (Z.of_nat (foldl Nat.add 0%nat degrees))
                  / inject_Z (Z.of_nat N);
     maxDegree := match degrees with
                  | [] => None
                  | d :: ds => Some (foldl Nat.max d ds)
                  end;
     minDegree := match degrees with
                  | [] => None
                  | d :: ds => Some (foldl Nat.min d ds)
                  end;
     degrees := degrees |}.

End Topology.


(* ================================================================= *)
(** ** Numeric helpers shared by the two engines *)

Section Numeric.
Local Open Scope R_scope.

(** [Math.PI]: not the real number pi but the double nearest to it,
    [0x1.921fb54442d18p+1], a little below pi. *)
Definition MathPI : R := 884279719003555 / 281474976710656.

(** [Math.fround(Math.PI)], the single-precision number nearest to [Math.PI];
    it lies above pi.  A [Float32Array] cell written with a value between
    [-Math.PI] and [Math.PI] holds a number between [-Float32PI] and
    [Float32PI]. *)
Definition Float32PI : R := 13176795 / 4194304.

#[global] Arguments MathPI : simpl never.
#[global] Arguments Float32PI : simpl never.

(** [randomNormal(mean, stdDev)], the Box-Muller transform; both engines
    define it with the same body.  It makes two draws.  (For a draw equal to
    0 JavaScript's logarithm is infinite; here [ln 0 = 0].) *)
Definition randomNormal (rnd : draws) (mean stdDev : R) (c : nat) : R * nat :=
  let u1 := Q2R (rnd c) in
  let u2 := Q2R (rnd (S c)) in
  let z0 := sqrt (-2 * ln u1) * cos (2 * MathPI * u2) in
  (z0 * stdDev + mean, S (S c)).

(** [while (x > Math.PI) x -= 2 * Math.PI], run for at most [fuel] rounds. *)
Fixpoint wrapDown (fuel : nat) (x : R) : R :=
  match fuel with
  | O => x
  | S fuel' => if Rgt_dec x MathPI then wrapDown fuel' (x - 2 * MathPI) else x
  end.

(** [while (x < -Math.PI) x += 2 * Math.PI], run for at most [fuel] rounds. *)
Fixpoint wrapUp (fuel : nat) (x : R) : R :=
  match fuel with
  | O => x
  | S fuel' => if Rlt_dec x (- MathPI) then wrapUp fuel' (x + 2 * MathPI) else x
  end.

(** A number of rounds after which either loop, started at [x], has left by
    its own test. *)
Definition wrapRounds (x : R) : nat := Z.to_nat (up (Rabs x / (2 * MathPI))).

(** The two wrapping loops at the end of [step()], one after the other. *)
Definition wrapPhase (x : R) : R :=
  let y := wrapDown (wrapRounds x) x in
  wrapUp (wrapRounds y) y.

(** [a[i]] on a numeric array, for [i] in range. *)
Definition rd (a : list R) (i : nat) : R := nth i a 0.

(** [v || d] on a number: the default replaces an absent value and 0. *)
Definition orElse (v : option R) (d : R) : R :=
  match v with
  | Some x => if Req_dec_T x 0 then d else x
  | None => d
  end.

(** [v || d] on a count. *)
Definition orElseNat (v : option nat) (d : nat) : nat :=
  match v with
  | Some 0%nat => d
  | Some x => x
  | None => d
  end.

(** One Runge-Kutta stage point: [t[i] = theta0[i] + h * k[i]] for [i < N],
    written into a fresh [Float32Array(N)] (the cell holds the value rounded
    to single precision; here, the value itself). *)
Definition stagePoint (N : nat) (theta0 : list R) (h : R) (k : list R) : list R :=
  foldl (fun t i => <[i := rd theta0 i + h * rd k i]> t) (replicate N 0) (seq 0 N).

(** The last loop of [step()]: the weighted combination, then the wrap, for
    every [i < N], written into [theta].  In the program [theta] is a
    [Float32Array]: each write rounds to single precision, and the wrap acts
    on the rounded cell; here the cell holds the value itself.  Either way the
    loops leave a cell that is neither above [Math.PI] nor below [-Math.PI]. *)
Definition combine (N : nat) (dt : R) (theta theta0 k1 k2 k3 k4 : list R) : list R :=
  foldl (fun t i =>
           <[i := wrapPhase (rd theta0 i
                   + (dt / 6) * (rd k1 i + 2 * rd k2 i + 2 * rd k3 i + rd k4 i))]> t)
        theta (seq 0 N).

End Numeric.

(* ================================================================= *)
(** ** The oscillator ensemble: [KuramotoModel] *)

Module Kuramoto.
Local Open Scope R_scope.

Record History := {
  h_time : list R;
  h_orderParameter : list R;
  h_phases : list (list R)
}.

Definition noHistory : History :=
  {| h_time := []; h_orderParameter := []; h_phases := [] |}.

Record KuramotoModel := {
  N : nat;
  K : R;
  dt : R;
  noiseLevel : R;
  phaseLag : R;
  theta : list R;
  omega : list R;
  adjacency : option (list (list R));
  time : R;
  history : History;
  maxHistoryLength : Z
}.

(** The [config] of the constructor and the [params] of [updateParameters]:
    every key may be absent. *)
Record Config := {
  cfg_N : option nat;
  cfg_K : option R;
  cfg_dt : option R;
  cfg_noiseLevel : option R;
  cfg_phaseLag : option R
}.

(** [initialize()].  [theta] and [omega] are [Float32Array]s: the program
    keeps each value rounded to single precision, here the value itself is
    kept. *)
Definition initialize (rnd : draws) (m : KuramotoModel) (c : nat)
  : KuramotoModel * nat :=
  let '(th, om, c') :=
    foldl (fun (st : list R * list R * nat) i =>
             let '(th, om, c) := st in
             let th := <[i := (Q2R (rnd c) * 2 - 1) * MathPI]> th in
             let '(z, c) := randomNormal rnd 0 1 (S c) in
             (th, <[i := z]> om, c))
          (theta m, omega m, c) (seq 0 (N m)) in
  ({| N := N m; K := K m; dt := dt m; noiseLevel := noiseLevel m;
      phaseLag := phaseLag m; theta := th; omega := om;
      adjacency := adjacency m; time := 0; history := noHistory;
      maxHistoryLength := maxHistoryLength m |}, c').

(** [new KuramotoModel(config)] *)
Definition create (rnd : draws) (config : Config) (c : nat) : KuramotoModel * nat :=
  let n := orElseNat (cfg_N config) 50 in
  initialize rnd
    {| N := n;
       K := orElse (cfg_K config) 2;
       dt := orElse (cfg_dt config) 0.05;
       noiseLevel := orElse (cfg_noiseLevel config) 0;
       phaseLag := orElse (cfg_phaseLag config) 0;
       theta := replicate n 0;
       omega := replicate n 0;
       adjacency := None;
       time := 0;
       history := noHistory;
       maxHistoryLength := 10000%Z |} c.

(** [this.adjacency ? this.adjacency[i][j] : 1.0].  On a matrix without row
    [i] the program throws, and a missing entry of a row is [undefined]; here
    both read 0, so what is proved about values assumes a square matrix. *)
Definition S_ij (m : KuramotoModel) (i j : nat) : R :=
  match adjacency m with
  | Some a => rd (nth i a []) j
  | None => 1
  end.

(** The coupling sum of oscillator [i] in [computeDerivatives]. *)
Definition couplingSum (m : KuramotoModel) (th : list R) (i : nat) : R :=
  foldl (fun coupling j =>
           if decide (i <> j)
           then coupling + S_ij m i j * sin (rd th j - rd th i - phaseLag m)
           else coupling)
        0 (seq 0 (N m)).

(** [computeDerivatives(theta)]; it draws only when [noiseLevel > 0]. *)
Definition computeDerivatives (rnd : draws) (m : KuramotoModel) (th : list R) (c : nat)
  : list R * nat :=
  foldl (fun (st : list R * nat) i =>
           let '(dtheta, c) := st in
           let d := rd (omega m) i in
           let '(d, c) :=
             if Rlt_dec 0 (noiseLevel m)
             then let '(z, c') := randomNormal rnd 0 0.1 c in (d + noiseLevel m * z, c')
             else (d, c) in
           (<[i := d + (K m / INR (N m)) * couplingSum m th i]> dtheta, c))
        (replicate (N m) 0, c) (seq 0 (N m)).

(** [calculateOrderParameter()], with the real cosine, sine and square
    root. *)
Definition calculateOrderParameter (m : KuramotoModel) : R :=
  let sumReal := foldl (fun s i => s + cos (rd (theta m) i)) 0 (seq 0 (N m)) in
  let sumImag := foldl (fun s i => s + sin (rd (theta m) i)) 0 (seq 0 (N m)) in
  let sumReal := sumReal / INR (N m) in
  let sumImag := sumImag / INR (N m) in
  sqrt (sumReal * sumReal + sumImag * sumImag).

(** [recordHistory()]: three pushes, and nothing else. *)
Definition recordHistory (m : KuramotoModel) : KuramotoModel :=
  let r := calculateOrderParameter m in
  {| N := N m; K := K m; dt := dt m; noiseLevel := noiseLevel m;
     phaseLag := phaseLag m; theta := theta m; omega := omega m;
     adjacency := adjacency m; time := time m;
     history :=
       {| h_time := h_time (history m) ++ [time m];
          h_orderParameter := h_orderParameter (history m) ++ [r];
          h_phases := h_phases (history m) ++ [theta m] |};
     maxHistoryLength := maxHistoryLength m |}.

(** [step()] *)
Definition step (rnd : draws) (m : KuramotoModel) (c : nat) : KuramotoModel * nat :=
  let theta0 := theta m in
  let '(k1, c) := computeDerivatives rnd m theta0 c in
  let theta1 := stagePoint (N m) theta0 (0.5 * dt m) k1 in
  let '(k2, c) := computeDerivatives rnd m theta1 c in
  let theta2 := stagePoint (N m) theta0 (0.5 * dt m) k2 in
  let '(k3, c) := computeDerivatives rnd m theta2 c in
  let theta3 := stagePoint (N m) theta0 (dt m) k3 in
  let '(k4, c) := computeDerivatives rnd m theta3 c in
  let th := combine (N m) (dt m) (theta m) theta0 k1 k2 k3 k4 in
  (recordHistory
     {| N := N m; K := K m; dt := dt m; noiseLevel := noiseLevel m;
        phaseLag := phaseLag m; theta := th; omega := omega m;
        adjacency := adjacency m; time := time m + dt m; history := history m;
        maxHistoryLength := maxHistoryLength m |}, c).

(** [n] calls of [step()]. *)
Fixpoint steps (rnd : draws) (n : nat) (m : KuramotoModel) (c : nat)
  : KuramotoModel * nat :=
  match n with
  | O => (m, c)
  | S n' => let '(m', c') := step rnd m c in steps rnd n' m' c'
  end.

(** [updateParameters(params)] *)
Definition updateParameters (rnd : draws) (params : Config) (m : KuramotoModel)
    (c : nat) : KuramotoModel * nat :=
  let m1 :=
    {| N := N m;
       K := match cfg_K params with Some v => v | None => K m end;
       dt := match cfg_dt params with Some v => v | None => dt m end;
       noiseLevel :=
         match cfg_noiseLevel params with Some v => v | None => noiseLevel m end;
       phaseLag := match cfg_phaseLag params with Some v => v | None => phaseLag m end;
       theta := theta m; omega := omega m; adjacency := adjacency m;
       time := time m; history := history m;
       maxHistoryLength := maxHistoryLength m |} in
  match cfg_N params with
  | Some n =>
      if decide (n <> N m) then
        initialize rnd
          {| N := n; K := K m1; dt := dt m1; noiseLevel := noiseLevel m1;
             phaseLag := phaseLag m1; theta := replicate n 0; omega := replicate n 0;
             adjacency := adjacency m1; time := time m1; history := history m1;
             maxHistoryLength := maxHistoryLength m1 |} c
      else (m1, c)
  | None => (m1, c)
  end.

(** [setNetwork(adjacencyMatrix)] *)
Definition setNetwork (adjacencyMatrix : option (list (list R))) (m : KuramotoModel)
  : KuramotoModel :=
  {| N := N m; K := K m; dt := dt m; noiseLevel := noiseLevel m;
     phaseLag := phaseLag m; theta := theta m; omega := omega m;
     adjacency := adjacencyMatrix; time := time m; history := history m;
     maxHistoryLength := maxHistoryLength m |}.

(** The snapshot returned by [getState()]. *)
Record State := {
  s_theta : list R;
  s_omega : list R;
  s_time : R;
  s_orderParameter : R;
  s_N : nat;
  s_K : R
}.

(** [getState()] *)
Definition getState (m : KuramotoModel) : State :=
  {| s_theta := theta m; s_omega := omega m; s_time := time m;
     s_orderParameter := calculateOrderParameter m; s_N := N m; s_K := K m |}.

End Kuramoto.

(* ================================================================= *)
(** ** The spatial attention field: [AttentionFieldModel] *)

Module AttentionField.
Local Open Scope R_scope.

(** The identity of a stimulus object: the [id] given by the caller, or
    [Math.random().toString(36)], kept as the draw it renders. *)
Inductive ObjId :=
  | GivenId (s : string)
  | RandomId (u : Q).

Record StimulusObject := {
  obj_id : ObjId;
  obj_x : R;
  obj_y : R;
  obj_vx : R;
  obj_vy : R;
  obj_radius : R;
  obj_intensity : R;
  obj_features : list R
}.

(** The argument of [addStimulusObject]: every key may be absent. *)
Record ObjectConfig := {
  in_id : option string;
  in_x : option R;
  in_y : option R;
  in_vx : option R;
  in_vy : option R;
  in_radius : option R;
  in_intensity : option R;
  in_features : option (list R)
}.

(** An entry of [detectTrackedObjects()]. *)
Record Tracked := {
  tr_id : ObjId;
  tr_attention : R;
  tr_position : R * R
}.

Record History := {
  h_time : list R;
  h_attentionMap : list (list R);
  h_trackedObjects : list (list Tracked)
}.

Definition noHistory : History :=
  {| h_time := []; h_attentionMap := []; h_trackedObjects := [] |}.

Record AttentionFieldModel := {
  gridSize : nat;
  N : nat;
  K : R;
  dt : R;
  noiseLevel : R;
  phaseLag : R;
  K_stim : R;
  K_feat : R;
  spatialRange : R;
  spatialDecay : R;
  networkType : string;
  networkParams : list (string * R);
  adjacency : option (list (list R));
  numFeatures : nat;
  theta : list R;
  omega : list R;
  stimulus : list R;
  features : list (list R);
  stimulusObjects : list StimulusObject;
  time : R;
  history : History;
  spatialWeights : list R
}.

(** Assignments to one field of [this]. *)
Definition set_K (v : R) (m : AttentionFieldModel) : AttentionFieldModel :=
  {| gridSize := gridSize m; N := N m; K := v; dt := dt m; noiseLevel := noiseLevel m;
     phaseLag := phaseLag m; K_stim := K_stim m; K_feat := K_feat m;
     spatialRange := spatialRange m; spatialDecay := spatialDecay m;
     networkType := networkType m; networkParams := networkParams m;
     adjacency := adjacency m; numFeatures := numFeatures m; theta := theta m;
     omega := omega m; stimulus := stimulus m; features := features m;
     stimulusObjects := stimulusObjects m; time := time m; history := history m;
     spatialWeights := spatialWeights m |}.

Definition set_dt (v : R) (m : AttentionFieldModel) : AttentionFieldModel :=
  {| gridSize := gridSize m; N := N m; K := K m; dt := v; noiseLevel := noiseLevel m;
     phaseLag := phaseLag m; K_stim := K_stim m; K_feat := K_feat m;
     spatialRange := spatialRange m; spatialDecay := spatialDecay m;
     networkType := networkType m; networkParams := networkParams m;
     adjacency := adjacency m; numFeatures := numFeatures m; theta := theta m;
     omega := omega m; stimulus := stimulus m; features := features m;
     stimulusObjects := stimulusObjects m; time := time m; history := history m;
     spatialWeights := spatialWeights m |}.

Definition set_noiseLevel (v : R) (m : AttentionFieldModel) : AttentionFieldModel :=
  {| gridSize := gridSize m; N := N m; K := K m; dt := dt m; noiseLevel := v;
     phaseLag := phaseLag m; K_stim := K_stim m; K_feat := K_feat m;
     spatialRange := spatialRange m; spatialDecay := spatialDecay m;
     networkType := networkType m; networkParams := networkParams m;
     adjacency := adjacency m; numFeatures := numFeatures m; theta := theta m;
     omega := omega m; stimulus := stimulus m; features := features m;
     stimulusObjects := stimulusObjects m; time := time m; history := history m;
     spatialWeights := spatialWeights m |}.

Definition set_phaseLag (v : R) (m : AttentionFieldModel) : AttentionFieldModel :=
  {| gridSize := gridSize m; N := N m; K := K m; dt := dt m;
     noiseLevel := noiseLevel m; phaseLag := v; K_stim := K_stim m; K_feat := K_feat m;
     spatialRange := spatialRange m; spatialDecay := spatialDecay m;
     networkType := networkType m; networkParams := networkParams m;
     adjacency := adjacency m; numFeatures := numFeatures m; theta := theta m;
     omega := omega m; stimulus := stimulus m; features := features m;
     stimulusObjects := stimulusObjects m; time := time m; history := history m;
     spatialWeights := spatialWeights m |}.

Definition set_K_stim (v : R) (m : AttentionFieldModel) : AttentionFieldModel :=
  {| gridSize := gridSize m; N := N m; K := K m; dt := dt m;
     noiseLevel := noiseLevel m; phaseLag := phaseLag m; K_stim := v;
     K_feat := K_feat m; spatialRange := spatialRange m;
     spatialDecay := spatialDecay m; networkType := networkType m;
     networkParams := networkParams m; adjacency := adjacency m;
     numFeatures := numFeatures m; theta := theta m; omega := omega m;
     stimulus := stimulus m; features := features m;
     stimulusObjects := stimulusObjects m; time := time m; history := history m;
     spatialWeights := spatialWeights m |}.

Definition set_K_feat (v : R) (m : AttentionFieldModel) : AttentionFieldModel :=
  {| gridSize := gridSize m; N := N m; K := K m; dt := dt m;
     noiseLevel := noiseLevel m; phaseLag := phaseLag m; K_stim := K_stim m;
     K_feat := v; spatialRange := spatialRange m; spatialDecay := spatialDecay m;
     networkType := networkType m; networkParams := networkParams m;
     adjacency := adjacency m; numFeatures := numFeatures m; theta := theta m;
     omega := omega m; stimulus := stimulus m; features := features m;
     stimulusObjects := stimulusObjects m; time := time m; history := history m;
     spatialWeights := spatialWeights m |}.

Definition set_spatialRange (v : R) (m : AttentionFieldModel) : AttentionFieldModel :=
  {| gridSize := gridSize m; N := N m; K := K m; dt := dt m;
     noiseLevel := noiseLevel m; phaseLag := phaseLag m; K_stim := K_stim m;
     K_feat := K_feat m; spatialRange := v; spatialDecay := spatialDecay m;
     networkType := networkType m; networkParams := networkParams m;
     adjacency := adjacency m; numFeatures := numFeatures m; theta := theta m;
     omega := omega m; stimulus := stimulus m; features := features m;
     stimulusObjects := stimulusObjects m; time := time m; history := history m;
     spatialWeights := spatialWeights m |}.

Definition set_networkType (v : string) (m : AttentionFieldModel) : AttentionFieldModel :=
  {| gridSize := gridSize m; N := N m; K := K m; dt := dt m;
     noiseLevel := noiseLevel m; phaseLag := phaseLag m; K_stim := K_stim m;
     K_feat := K_feat m; spatialRange := spatialRange m;
     spatialDecay := spatialDecay m; networkType := v;
     networkParams := networkParams m; adjacency := adjacency m;
     numFeatures := numFeatures m; theta := theta m; omega := omega m;
     stimulus := stimulus m; features := features m;
     stimulusObjects := stimulusObjects m; time := time m; history := history m;
     spatialWeights := spatialWeights m |}.

Definition set_networkParams (v : list (string * R)) (m : AttentionFieldModel) : AttentionFieldModel :=
  {| gridSize := gridSize m; N := N m; K := K m; dt := dt m;
     noiseLevel := noiseLevel m; phaseLag := phaseLag m; K_stim := K_stim m;
     K_feat := K_feat m; spatialRange := spatialRange m;
     spatialDecay := spatialDecay m; networkType := networkType m; networkParams := v;
     adjacency := adjacency m; numFeatures := numFeatures m; theta := theta m;
     omega := omega m; stimulus := stimulus m; features := features m;
     stimulusObjects := stimulusObjects m; time := time m; history := history m;
     spatialWeights := spatialWeights m |}.

Definition set_adjacency (v : option (list (list R))) (m : AttentionFieldModel) : AttentionFieldModel :=
  {| gridSize := gridSize m; N := N m; K := K m; dt := dt m;
     noiseLevel := noiseLevel m; phaseLag := phaseLag m; K_stim := K_stim m;
     K_feat := K_feat m; spatialRange := spatialRange m;
     spatialDecay := spatialDecay m; networkType := networkType m;
     networkParams := networkParams m; adjacency := v; numFeatures := numFeatures m;
     theta := theta m; omega := omega m; stimulus := stimulus m;
     features := features m; stimulusObjects := stimulusObjects m; time := time m;
     history := history m; spatialWeights := spatialWeights m |}.

Definition set_theta (v : list R) (m : AttentionFieldModel) : AttentionFieldModel :=
  {| gridSize := gridSize m; N := N m; K := K m; dt := dt m;
     noiseLevel := noiseLevel m; phaseLag := phaseLag m; K_stim := K_stim m;
     K_feat := K_feat m; spatialRange := spatialRange m;
     spatialDecay := spatialDecay m; networkType := networkType m;
     networkParams := networkParams m; adjacency := adjacency m;
     numFeatures := numFeatures m; theta := v; omega := omega m;
     stimulus := stimulus m; features := features m;
     stimulusObjects := stimulusObjects m; time := time m; history := history m;
     spatialWeights := spatialWeights m |}.

Definition set_omega (v : list R) (m : AttentionFieldModel) : AttentionFieldModel :=
  {| gridSize := gridSize m; N := N m; K := K m; dt := dt m;
     noiseLevel := noiseLevel m; phaseLag := phaseLag m; K_stim := K_stim m;
     K_feat := K_feat m; spatialRange := spatialRange m;
     spatialDecay := spatialDecay m; networkType := networkType m;
     networkParams := networkParams m; adjacency := adjacency m;
     numFeatures := numFeatures m; theta := theta m; omega := v;
     stimulus := stimulus m; features := features m;
     stimulusObjects := stimulusObjects m; time := time m; history := history m;
     spatialWeights := spatialWeights m |}.

Definition set_stimulus (v : list R) (m : AttentionFieldModel) : AttentionFieldModel :=
  {| gridSize := gridSize m; N := N m; K := K m; dt := dt m;
     noiseLevel := noiseLevel m; phaseLag := phaseLag m; K_stim := K_stim m;
     K_feat := K_feat m; spatialRange := spatialRange m;
     spatialDecay := spatialDecay m; networkType := networkType m;
     networkParams := networkParams m; adjacency := adjacency m;
     numFeatures := numFeatures m; theta := theta m; omega := omega m; stimulus := v;
     features := features m; stimulusObjects := stimulusObjects m; time := time m;
     history := history m; spatialWeights := spatialWeights m |}.

Definition set_features (v : list (list R)) (m : AttentionFieldModel) : AttentionFieldModel :=
  {| gridSize := gridSize m; N := N m; K := K m; dt := dt m;
     noiseLevel := noiseLevel m; phaseLag := phaseLag m; K_stim := K_stim m;
     K_feat := K_feat m; spatialRange := spatialRange m;
     spatialDecay := spatialDecay m; networkType := networkType m;
     networkParams := networkParams m; adjacency := adjacency m;
     numFeatures := numFeatures m; theta := theta m; omega := omega m;
     stimulus := stimulus m; features := v; stimulusObjects := stimulusObjects m;
     time := time m; history := history m; spatialWeights := spatialWeights m |}.

Definition set_stimulusObjects (v : list StimulusObject) (m : AttentionFieldModel) : AttentionFieldModel :=
  {| gridSize := gridSize m; N := N m; K := K m; dt := dt m;
     noiseLevel := noiseLevel m; phaseLag := phaseLag m; K_stim := K_stim m;
     K_feat := K_feat m; spatialRange := spatialRange m;
     spatialDecay := spatialDecay m; networkType := networkType m;
     networkParams := networkParams m; adjacency := adjacency m;
     numFeatures := numFeatures m; theta := theta m; omega := omega m;
     stimulus := stimulus m; features := features m; stimulusObjects := v;
     time := time m; history := history m; spatialWeights := spatialWeights m |}.

Definition set_time (v : R) (m : AttentionFieldModel) : AttentionFieldModel :=
  {| gridSize := gridSize m; N := N m; K := K m; dt := dt m;
     noiseLevel := noiseLevel m; phaseLag := phaseLag m; K_stim := K_stim m;
     K_feat := K_feat m; spatialRange := spatialRange m;
     spatialDecay := spatialDecay m; networkType := networkType m;
     networkParams := networkParams m; adjacency := adjacency m;
     numFeatures := numFeatures m; theta := theta m; omega := omega m;
     stimulus := stimulus m; features := features m;
     stimulusObjects := stimulusObjects m; time := v; history := history m;
     spatialWeights := spatialWeights m |}.

Definition set_history (v : History) (m : AttentionFieldModel) : AttentionFieldModel :=
  {| gridSize := gridSize m; N := N m; K := K m; dt := dt m;
     noiseLevel := noiseLevel m; phaseLag := phaseLag m; K_stim := K_stim m;
     K_feat := K_feat m; spatialRange := spatialRange m;
     spatialDecay := spatialDecay m; networkType := networkType m;
     networkParams := networkParams m; adjacency := adjacency m;
     numFeatures := numFeatures m; theta := theta m; omega := omega m;
     stimulus := stimulus m; features := features m;
     stimulusObjects := stimulusObjects m; time := time m; history := v;
     spatialWeights := spatialWeights m |}.

Definition set_spatialWeights (v : list R) (m : AttentionFieldModel) : AttentionFieldModel :=
  {| gridSize := gridSize m; N := N m; K := K m; dt := dt m;
     noiseLevel := noiseLevel m; phaseLag := phaseLag m; K_stim := K_stim m;
     K_feat := K_feat m; spatialRange := spatialRange m;
     spatialDecay := spatialDecay m; networkType := networkType m;
     networkParams := networkParams m; adjacency := adjacency m;
     numFeatures := numFeatures m; theta := theta m; omega := omega m;
     stimulus := stimulus m; features := features m;
     stimulusObjects := stimulusObjects m; time := time m; history := history m;
     spatialWeights := v |}.
(** The [config] of the constructor and the [params] of [updateParameters]. *)
Record Config := {
  cfg_gridSize : option nat;
  cfg_K : option R;
  cfg_dt : option R;
  cfg_noiseLevel : option R;
  cfg_phaseLag : option R;
  cfg_K_stim : option R;
  cfg_K_feat : option R;
  cfg_spatialRange : option R;
  cfg_spatialDecay : option R;
  cfg_networkType : option string;
  cfg_networkParams : option (list (string * R));
  cfg_numFeatures : option nat
}.

(** [initialize()].  [theta], [omega] and [stimulus] are [Float32Array]s: the
    program keeps each value rounded to single precision, here the value
    itself is kept. *)
Definition initialize (rnd : draws) (m : AttentionFieldModel) (c : nat)
  : AttentionFieldModel * nat :=
  let '(th, om, st, c') :=
    foldl (fun (acc : list R * list R * list R * nat) i =>
             let '(th, om, st, c) := acc in
             let th := <[i := (Q2R (rnd c) * 2 - 1) * MathPI]> th in
             let '(z, c) := randomNormal rnd 0 0.5 (S c) in
             (th, <[i := z]> om, <[i := 0]> st, c))
          (theta m, omega m, stimulus m, c) (seq 0 (N m)) in
  let feats :=
    foldl (fun fs i =>
             foldl (fun fs f => alter (fun row => <[f := 0.5]> row) i fs)
                   fs (seq 0 (numFeatures m)))
          (features m) (seq 0 (N m)) in
  (set_history noHistory
     (set_time 0 (set_features feats (set_stimulus st (set_omega om (set_theta th m))))),
   c').

(** [computeSpatialWeights()] *)
Definition computeSpatialWeights (m : AttentionFieldModel) : list R :=
  let gs := gridSize m in
  foldl (fun w i => foldl (fun w j =>
    let idx1 := (i * gs + j)%nat in
    foldl (fun w k => foldl (fun w l =>
      let idx2 := (k * gs + l)%nat in
      if decide (idx1 = idx2) then <[(idx1 * N m + idx2)%nat := 0]> w
      else
        let dx := INR i - INR k in
        let dy := INR j - INR l in
        let dist := sqrt (dx * dx + dy * dy) in
        if Rle_dec dist (spatialRange m)
        then <[(idx1 * N m + idx2)%nat := exp (- spatialDecay m * dist)]> w
        else <[(idx1 * N m + idx2)%nat := 0]> w)
      w (seq 0 gs)) w (seq 0 gs)) w (seq 0 gs))
    (replicate (N m * N m) 0) (seq 0 gs).

(** [new AttentionFieldModel(config)] *)
Definition create (rnd : draws) (config : Config) (c : nat)
  : AttentionFieldModel * nat :=
  let gs := orElseNat (cfg_gridSize config) 32 in
  let n := (gs * gs)%nat in
  let nf := orElseNat (cfg_numFeatures config) 3 in
  let m :=
    {| gridSize := gs; N := n;
       K := orElse (cfg_K config) 2;
       dt := orElse (cfg_dt config) 0.05;
       noiseLevel := orElse (cfg_noiseLevel config) 0;
       phaseLag := orElse (cfg_phaseLag config) 0;
       K_stim := orElse (cfg_K_stim config) 1.5;
       K_feat := orElse (cfg_K_feat config) 2;
       spatialRange := orElse (cfg_spatialRange config) 4;
       spatialDecay := orElse (cfg_spatialDecay config) 0.3;
       networkType :=
         match cfg_networkType config with
         | Some EmptyString | None => "spatial"%string
         | Some s => s
         end;
       networkParams :=
         match cfg_networkParams config with Some p => p | None => [] end;
       adjacency := None;
       numFeatures := nf;
       theta := replicate n 0; omega := replicate n 0; stimulus := replicate n 0;
       features := replicate n (replicate nf 0);
       stimulusObjects := [];
       time := 0; history := noHistory;
       spatialWeights := [] |} in
  initialize rnd (set_spatialWeights (computeSpatialWeights m) m) c.

(** [addStimulusObject(obj)]: every key goes through [||].  The [id] is drawn
    when the given one is absent or the empty string. *)
Definition addStimulusObject (rnd : draws) (obj : ObjectConfig)
    (m : AttentionFieldModel) (c : nat) : AttentionFieldModel * nat :=
  let '(i, c') :=
    match in_id obj with
    | Some EmptyString | None => (RandomId (rnd c), S c)
    | Some s => (GivenId s, c)
    end in
  let o :=
    {| obj_id := i;
       obj_x := orElse (in_x obj) (INR (gridSize m) / 2);
       obj_y := orElse (in_y obj) (INR (gridSize m) / 2);
       obj_vx := orElse (in_vx obj) 0;
       obj_vy := orElse (in_vy obj) 0;
       obj_radius := orElse (in_radius obj) 3;
       obj_intensity := orElse (in_intensity obj) 1;
       obj_features :=
         match in_features obj with
         | Some f => f
         | None => replicate (numFeatures m) 0.5
         end |} in
  (set_stimulusObjects (stimulusObjects m ++ [o]) m, c').

(** The bounce of one coordinate off the 2-cell padding zone. *)
Definition bounce (gs : nat) (pos vel : R) : R * R :=
  let padding := 2 in
  if Rlt_dec pos padding then (Rmax padding (Rmin (INR gs - padding) pos), vel * -0.95)
  else if Rge_dec pos (INR gs - padding)
       then (Rmax padding (Rmin (INR gs - padding) pos), vel * -0.95)
       else (pos, vel).

(** The position update of one object in [updateStimulusField()]. *)
Definition moveObject (m : AttentionFieldModel) (o : StimulusObject) : StimulusObject :=
  let x := obj_x o + obj_vx o * dt m in
  let y := obj_y o + obj_vy o * dt m in
  let '(x, vx) := bounce (gridSize m) x (obj_vx o) in
  let '(y, vy) := bounce (gridSize m) y (obj_vy o) in
  {| obj_id := obj_id o; obj_x := x; obj_y := y; obj_vx := vx; obj_vy := vy;
     obj_radius := obj_radius o; obj_intensity := obj_intensity o;
     obj_features := obj_features o |}.

(** The projection of one object onto the grid, with Gaussian falloff.  The
    write into [stimulus], a [Float32Array], rounds to single precision in the
    program; for a radius of 0 the quotient [dist / obj.radius] is not a number
    there, so what is proved about the stimulus assumes a radius. *)
Definition projectObject (m : AttentionFieldModel) (o : StimulusObject)
    (fields : list R * list (list R)) : list R * list (list R) :=
  let gs := gridSize m in
  foldl (fun fields i => foldl (fun (fields : list R * list (list R)) j =>
    let '(stim, feats) := fields in
    let dx := INR i - obj_x o in
    let dy := INR j - obj_y o in
    let dist := sqrt (dx * dx + dy * dy) in
    if Rle_dec dist (obj_radius o * 2) then
      let idx := (i * gs + j)%nat in
      let activation := obj_intensity o * exp (-0.5 * (dist / obj_radius o) ^ 2) in
      let stim := <[idx := Rmax (rd stim idx) activation]> stim in
      if Rgt_dec activation 0.1 then
        (stim,
         foldl (fun feats f =>
                  alter (fun row =>
                           <[f := rd row f * (1 - activation)
                                  + rd (obj_features o) f * activation]> row)
                        idx feats)
               feats (seq 0 (numFeatures m)))
      else (stim, feats)
    else (stim, feats))
    fields (seq 0 gs)) fields (seq 0 gs).

(** [updateStimulusField()] *)
Definition updateStimulusField (m : AttentionFieldModel) : AttentionFieldModel :=
  let stim0 := map (fun _ => 0) (stimulus m) in
  let feats0 :=
    foldl (fun fs i => alter (fun row => map (fun _ => 0.5) row) i fs)
          (features m) (seq 0 (N m)) in
  let '(objs, fields) :=
    foldl (fun (acc : list StimulusObject * (list R * list (list R))) o =>
             let o' := moveObject m o in
             (acc.1 ++ [o'], projectObject m o' acc.2))
          ([], (stim0, feats0)) (stimulusObjects m) in
  set_stimulusObjects objs (set_features fields.2 (set_stimulus fields.1 m)).

(** [computeFeatureSimilarity(idx1, idx2)], with the real square root and
    division. *)
Definition computeFeatureSimilarity (m : AttentionFieldModel) (idx1 idx2 : nat) : R :=
  let '(dotProduct, mag1, mag2) :=
    foldl (fun (acc : R * R * R) f =>
             let '(d, m1, m2) := acc in
             let f1 := rd (nth idx1 (features m) []) f in
             let f2 := rd (nth idx2 (features m) []) f in
             (d + f1 * f2, m1 + f1 * f1, m2 + f2 * f2))
          (0, 0, 0) (seq 0 (numFeatures m)) in
  if Req_dec_T mag1 0 then 0
  else if Req_dec_T mag2 0 then 0
  else dotProduct / (sqrt mag1 * sqrt mag2).

(** The coupling weight of [computeDerivatives]: the adjacency matrix when
    one is set, the spatial weights otherwise. *)
Definition weight (m : AttentionFieldModel) (idx jdx : nat) : R :=
  match adjacency m with
  | Some a =>
      let gs := gridSize m in
      let i := (idx / gs)%nat in
      let j := (idx mod gs)%nat in
      let k := (jdx / gs)%nat in
      let l := (jdx mod gs)%nat in
      rd (nth (i * gs + j)%nat a []) (k * gs + l)%nat
  | None => rd (spatialWeights m) (idx * N m + jdx)%nat
  end.

Definition stimulusCoupling (m : AttentionFieldModel) (th : list R) (idx : nat) : R :=
  foldl (fun s jdx =>
           if decide (idx = jdx) then s
           else
             let w := weight m idx jdx in
             if Rgt_dec w 0 then
               let stimFactor := (rd (stimulus m) idx + rd (stimulus m) jdx) / 2 in
               s + w * stimFactor * sin (rd th jdx - rd th idx - phaseLag m)
             else s)
        0 (seq 0 (N m)).

Definition featureCoupling (m : AttentionFieldModel) (th : list R) (idx : nat) : R :=
  foldl (fun s jdx =>
           if decide (idx = jdx) then s
           else
             let w := weight m idx jdx in
             if Rgt_dec w 0 then
               let featureSim := computeFeatureSimilarity m idx jdx in
               if Rgt_dec featureSim 0.5
               then s + w * featureSim * sin (rd th jdx - rd th idx - phaseLag m)
               else s
             else s)
        0 (seq 0 (N m)).

(** [computeDerivatives(theta)] *)
Definition computeDerivatives (rnd : draws) (m : AttentionFieldModel) (th : list R)
    (c : nat) : list R * nat :=
  foldl (fun (st : list R * nat) idx =>
           let '(dtheta, c) := st in
           let d := rd (omega m) idx in
           let '(d, c) :=
             if Rlt_dec 0 (noiseLevel m)
             then let '(z, c') := randomNormal rnd 0 0.1 c in (d + noiseLevel m * z, c')
             else (d, c) in
           (<[idx := d + (K m / INR (N m))
                         * (K_stim m * stimulusCoupling m th idx
                            + K_feat m * featureCoupling m th idx)]> dtheta, c))
        (replicate (N m) 0, c) (seq 0 (N m)).

(** [calculateAttentionMap()] *)
Definition calculateAttentionMap (m : AttentionFieldModel) : list R :=
  foldl (fun attentionMap idx =>
           let '(sumReal, sumImag, count) :=
             foldl (fun (acc : R * R * nat) jdx =>
                      let '(sr, si, n) := acc in
                      if Rgt_dec (rd (spatialWeights m) (idx * N m + jdx)%nat) 0
                      then (sr + cos (rd (theta m) jdx), si + sin (rd (theta m) jdx), S n)
                      else (sr, si, n))
                   (0, 0, 0%nat) (seq 0 (N m)) in
           if (0 <? count)%nat then
             let sumReal := sumReal / INR count in
             let sumImag := sumImag / INR count in
             <[idx := sqrt (sumReal * sumReal + sumImag * sumImag)]> attentionMap
           else attentionMap)
        (replicate (N m) 0) (seq 0 (N m)).

(** [attentionMap[idx]] where [idx] may fall outside the array; then
    JavaScript reads [undefined] and the running total is not a number
    ([None]). *)
Definition sample (attentionMap : list R) (idx : Z) : option R :=
  if (0 <=? idx)%Z then attentionMap !! Z.to_nat idx else None.

(** The sum of the attention map over the 3 by 3 cells around [(cx, cy)],
    with JavaScript's remainder, and the number of cells. *)
Definition neighbourhood (m : AttentionFieldModel) (attentionMap : list R) (cx cy : Z)
  : option R * nat :=
  let gs := Z.of_nat (gridSize m) in
  foldl (fun acc dx => foldl (fun (acc : option R * nat) dy =>
    let i := Z.rem (cx + dx + gs) gs in
    let j := Z.rem (cy + dy + gs) gs in
    let idx := (i * gs + j)%Z in
    (match acc.1, sample attentionMap idx with
     | Some t, Some v => Some (t + v)
     | _, _ => None
     end, S acc.2))
    acc [-1; 0; 1]%Z) (Some 0, 0%nat) [-1; 0; 1]%Z.

(** [detectTrackedObjects()]; a total that is not a number is not [> 0.6]. *)
Definition detectTrackedObjects (m : AttentionFieldModel) : list Tracked :=
  let attentionMap := calculateAttentionMap m in
  foldl (fun tracked o =>
           let cx := Int_part (obj_x o) in
           let cy := Int_part (obj_y o) in
           let '(totalAttention, count) := neighbourhood m attentionMap cx cy in
           match totalAttention with
           | Some total =>
               let avgAttention := total / INR count in
               if Rgt_dec avgAttention 0.6
               then tracked ++ [{| tr_id := obj_id o; tr_attention := avgAttention;
                                   tr_position := (obj_x o, obj_y o) |}]
               else tracked
           | None => tracked
           end)
        [] (stimulusObjects m).

(** [recordHistory()]: three pushes, then one shift of each sequence once
    more than 500 frames are kept. *)
Definition recordHistory (m : AttentionFieldModel) : AttentionFieldModel :=
  let attentionMap := calculateAttentionMap m in
  let tracked := detectTrackedObjects m in
  let h :=
    {| h_time := h_time (history m) ++ [time m];
       h_attentionMap := h_attentionMap (history m) ++ [attentionMap];
       h_trackedObjects := h_trackedObjects (history m) ++ [tracked] |} in
  if (500 <? length (h_time h))%nat
  then set_history {| h_time := drop 1 (h_time h);
                      h_attentionMap := drop 1 (h_attentionMap h);
                      h_trackedObjects := drop 1 (h_trackedObjects h) |} m
  else set_history h m.

(** [step()] *)
Definition step (rnd : draws) (m : AttentionFieldModel) (c : nat)
  : AttentionFieldModel * nat :=
  let m := updateStimulusField m in
  let theta0 := theta m in
  let '(k1, c) := computeDerivatives rnd m theta0 c in
  let theta1 := stagePoint (N m) theta0 (0.5 * dt m) k1 in
  let '(k2, c) := computeDerivatives rnd m theta1 c in
  let theta2 := stagePoint (N m) theta0 (0.5 * dt m) k2 in
  let '(k3, c) := computeDerivatives rnd m theta2 c in
  let theta3 := stagePoint (N m) theta0 (dt m) k3 in
  let '(k4, c) := computeDerivatives rnd m theta3 c in
  let th := combine (N m) (dt m) (theta m) theta0 k1 k2 k3 k4 in
  (recordHistory (set_time (time m + dt m) (set_theta th m)), c).

(** [n] calls of [step()]. *)
Fixpoint steps (rnd : draws) (n : nat) (m : AttentionFieldModel) (c : nat)
  : AttentionFieldModel * nat :=
  match n with
  | O => (m, c)
  | S n' => let '(m', c') := step rnd m c in steps rnd n' m' c'
  end.

(** [setNetwork(adjacencyMatrix, networkType = 'custom', networkParams = {})] *)
Definition setNetwork (adjacencyMatrix : option (list (list R)))
    (networkType : option string) (networkParams : option (list (string * R)))
    (m : AttentionFieldModel) : AttentionFieldModel :=
  set_networkParams (match networkParams with Some p => p | None => [] end)
    (set_networkType (match networkType with Some s => s | None => "custom"%string end)
       (set_adjacency adjacencyMatrix m)).

(** [updateParameters(params)] *)
Definition updateParameters (params : Config) (m : AttentionFieldModel)
  : AttentionFieldModel :=
  let m := match cfg_K params with Some v => set_K v m | None => m end in
  let m := match cfg_noiseLevel params with Some v => set_noiseLevel v m | None => m end in
  let m := match cfg_phaseLag params with Some v => set_phaseLag v m | None => m end in
  let m := match cfg_dt params with Some v => set_dt v m | None => m end in
  let m := match cfg_K_stim params with Some v => set_K_stim v m | None => m end in
  let m := match cfg_K_feat params with Some v => set_K_feat v m | None => m end in
  let m :=
    match cfg_spatialRange params with
    | Some v => let m := set_spatialRange v m in
                set_spatialWeights (computeSpatialWeights m) m
    | None => m
    end in
  match cfg_networkType params with Some v => set_networkType v m | None => m end.

(** The snapshot returned by [getState()]. *)
Record State := {
  s_theta : list R;
  s_stimulus : list R;
  s_attentionMap : list R;
  s_features : list (list R);
  s_objects : list StimulusObject;
  s_trackedObjects : list Tracked;
  s_time : R;
  s_gridSize : nat
}.

(** [getState()] *)
Definition getState (m : AttentionFieldModel) : State :=
  {| s_theta := theta m; s_stimulus := stimulus m;
     s_attentionMap := calculateAttentionMap m; s_features := features m;
     s_objects := stimulusObjects m; s_trackedObjects := detectTrackedObjects m;
     s_time := time m; s_gridSize := gridSize m |}.

End AttentionField.

(* ================================================================= *)
(** ** Run metrics *)

Module RunMetrics.
Local Open Scope R_scope.

(** The outcome of a call: a value, or a thrown [TypeError]. *)
Inductive Outcome (A : Type) :=
  | Returns (a : A)
  | Throws.
Arguments Returns {A} a.
Arguments Throws {A}.

(** The argument [history]; its keys may be absent. *)
Record HistoryArg := {
  ha_time : option (list R);
  ha_orderParameter : option (list R)
}.

Record Metrics := {
  finalR : R;
  meanR : R;
  stdR : R;
  minR : R;
  maxR : R;
  settlingTime : option R;
  converged : bool;
  oscillating : bool
}.

(** [parseFloat(x.toFixed(d))]: the nearest multiple of [10^-d], the larger
    one in magnitude on a tie. *)
Definition toFixed (d : nat) (x : R) : R :=
  let s := 10 ^ d in
  if Rlt_dec x 0
  then - (IZR (Int_part (- x * s + / 2)) / s)
  else IZR (Int_part (x * s + / 2)) / s.

(** [r.reduce((sum, val) => sum + val, 0)] *)
Definition sum (r : list R) : R := foldl Rplus 0 r.

(** [r.reduce((sum, val) => sum + Math.pow(val - mean, 2), 0)] *)
Definition sumSquares (mean : R) (r : list R) : R :=
  foldl (fun s val => s + (val - mean) ^ 2) 0 r.

(** [Math.min(...r)] and [Math.max(...r)] on a non-empty array.  The spread
    passes every sample as an argument of the call, which an engine refuses
    beyond its limit on arguments; the folds here have no such limit, so what
    is proved about a summary is about a summary that was returned. *)
Definition minOf (r : list R) : R := foldl Rmin (hd 0 r) (tl r).
Definition maxOf (r : list R) : R := foldl Rmax (hd 0 r) (tl r).

(** The inner loop of [calculateSettlingTime]: does [r] stay in the tolerance
    band from [i] for [sustainPeriod] samples? *)
Definition settled (r : list R) (finalR tolerance : R) (i sustainPeriod : nat) : bool :=
  forallb (fun j => if Rgt_dec (Rabs (rd r j - finalR)) tolerance then false else true)
          (seq i sustainPeriod).

(** The outer loop of [calculateSettlingTime], over the indices [idxs] still to
    visit; [time[i].toFixed(2)] throws when [time[i]] is [undefined]. *)
Fixpoint settleFrom (time r : list R) (finalR threshold tolerance : R)
    (sustainPeriod : nat) (idxs : list nat) : Outcome (option R) :=
  match idxs with
  | [] => Returns None
  | i :: idxs' =>
      if Rge_dec (rd r i) threshold then
        if settled r finalR tolerance i sustainPeriod then
          match time !! i with
          | Some t => Returns (Some (toFixed 2 t))
          | None => Throws
          end
        else settleFrom time r finalR threshold tolerance sustainPeriod idxs'
      else settleFrom time r finalR threshold tolerance sustainPeriod idxs'
  end.

(** [calculateSettlingTime(time, r, finalR)] *)
Definition calculateSettlingTime (time : option (list R)) (r : list R) (finalR : R)
  : Outcome (option R) :=
  match time with
  | None => Throws
  | Some [] => Returns None
  | Some time =>
      let threshold := 0.9 * finalR in
      let tolerance := 0.05 * finalR in
      let sustainPeriod := Nat.min 50 (length r / 10) in
      settleFrom time r finalR threshold tolerance sustainPeriod
                 (seq 0 (length r - sustainPeriod))
  end.

(** [checkConvergence(r, finalR, stdR)] *)
Definition checkConvergence (r : list R) (finalR stdR : R) : bool :=
  if (length r <? 100)%nat then false
  else
    let checkStart := (length r * 8 / 10)%nat in
    let recentR := drop checkStart r in
    let recentMean := sum recentR / INR (length recentR) in
    let recentVar := sumSquares recentMean recentR / INR (length recentR) in
    let recentStd := sqrt recentVar in
    if Rlt_dec recentStd 0.05 then true else false.

(** [detectOscillation(r)] *)
Definition detectOscillation (r : list R) : bool :=
  if (length r <? 100)%nat then false
  else
    let checkStart := (length r / 2)%nat in
    let recentR := drop checkStart r in
    let crossings :=
      foldl (fun crossings i =>
               let prev := rd recentR i - rd recentR (i - 1) in
               let next := rd recentR (i + 1) - rd recentR i in
               if Rlt_dec (prev * next) 0 then S crossings else crossings)
            0%nat (seq 1 (length recentR - 2)) in
    let crossingRate := INR crossings / INR (length recentR) in
    if Rgt_dec crossingRate 0.05 then true else false.

(** The summary returned for a missing or empty history. *)
Definition noMetrics : Metrics :=
  {| finalR := 0; meanR := 0; stdR := 0; minR := 0; maxR := 0;
     settlingTime := None; converged := false; oscillating := false |}.

(** [calculateRunMetrics(history)] *)
Definition calculateRunMetrics (history : option HistoryArg) : Outcome Metrics :=
  match history with
  | None => Returns noMetrics
  | Some h =>
      match ha_orderParameter h with
      | None | Some [] => Returns noMetrics
      | Some r =>
          let n := length r in
          let final := rd r (n - 1) in
          let mean := sum r / INR n in
          let variance := sumSquares mean r / INR n in
          let std := sqrt variance in
          match calculateSettlingTime (ha_time h) r final with
          | Throws => Throws
          | Returns settling =>
              Returns
                {| finalR := toFixed 4 final;
                   meanR := toFixed 4 mean;
                   stdR := toFixed 4 std;
                   minR := toFixed 4 (minOf r);
                   maxR := toFixed 4 (maxOf r);
                   settlingTime := settling;
                   converged := checkConvergence r final std;
                   oscillating := detectOscillation r |}
          end
      end
  end.

(** [calculateNetworkStats(adjacency, N)] of the metrics file: a degree
    counts the non-zero entries of a row off the diagonal. *)
Record NetworkStats := {
  avgDegree : R;
  maxDegree : option nat;
  minDegree : option nat;
  degrees : list nat
}.

(** [adjacency[i][j] !== 0]; [adjacency[i]] out of range is [undefined], and
    indexing it throws; an entry out of range is [undefined], which is not 0. *)
Definition nonZero (a : list (list nat)) (i j : nat) : Outcome bool :=
  match a !! i with
  | None => Throws
  | Some row =>
      match row !! j with
      | Some v => Returns (negb (v =? 0)%nat)
      | None => Returns true
      end
  end.

(** The two loops that fill [degrees]; a throw ends them. *)
Definition countDegrees (a : list (list nat)) (N : nat) : Outcome (list nat) :=
  foldl (fun acc i =>
           foldl (fun acc j =>
                    match acc with
                    | Throws => Throws
                    | Returns ds =>
                        match nonZero a i j with
                        | Throws => Throws
                        | Returns nz =>
                            if nz && negb (i =? j)%nat
                            then Returns (<[i := S (nth i ds 0%nat)]> ds)
                            else Returns ds
                        end
                    end)
                 acc (seq 0 N))
        (Returns (replicate N 0%nat)) (seq 0 N).

Definition calculateNetworkStats (adjacency : option (list (list nat))) (N : nat)
  : Outcome NetworkStats :=
  match adjacency with
  | None | Some [] =>
      Returns {| avgDegree := 0; maxDegree := Some 0%nat; minDegree := Some 0%nat;
                 degrees := [] |}
  | Some a =>
      match countDegrees a N with
      | Throws => Throws
      | Returns ds =>
          Returns
            {| avgDegree := toFixed 2 (INR (foldl Nat.add 0%nat ds) / INR N);
               maxDegree := match ds with
                            | [] => None
                            | d :: ds' => Some (foldl Nat.max d ds')
                            end;
               minDegree := match ds with
                            | [] => None
                            | d :: ds' => Some (foldl Nat.min d ds')
                            end;
               degrees := ds |}
      end
  end.

(** [estimateCriticalCoupling(networkType)] *)
Definition estimateCriticalCoupling (networkType : string) : R :=
  if String.eqb networkType "all-to-all" then 0.64
  else if String.eqb networkType "ring" then 2.0
  else if String.eqb networkType "small-world" then 1.0
  else if String.eqb networkType "scale-free" then 0.8
  else if String.eqb networkType "random" then 1.2
  else 0.64.

(** [classifySyncState(finalR)] *)
Definition classifySyncState (finalR : R) : string :=
  if Rlt_dec finalR 0.2 then "incoherent"
  else if Rlt_dec finalR 0.5 then "weakly synchronized"
  else if Rlt_dec finalR 0.8 then "partially synchronized"
  else if Rlt_dec finalR 0.95 then "strongly synchronized"
  else "fully synchronized".

(** [classifyRegime(K, networkType)] *)
Definition classifyRegime (K : R) (networkType : string) : string :=
  let Kc := estimateCriticalCoupling networkType in
  let ratio := K / Kc in
  if Rlt_dec ratio 0.85 then "subcritical"
  else if Rlt_dec ratio 1.15 then "critical"
  else "supercritical".

(** The metrics of [handleSaveRun()]:
    [calculateRunMetrics(modelRef.current.history)]. *)
Definition saveRunMetrics (m : Kuramoto.KuramotoModel) : Outcome Metrics :=
  calculateRunMetrics
    (Some {| ha_time := Some (Kuramoto.h_time (Kuramoto.history m));
             ha_orderParameter :=
               Some (Kuramoto.h_orderParameter (Kuramoto.history m)) |}).

End RunMetrics.

(* ================================================================= *)
(** ** Predicates on adjacency matrices *)

Section MatrixPredicates.
Import Topology.

(** A matrix is [N] by [N]. *)
Definition square (N : nat) (a : matrix) : Prop :=
  length a = N /\ Forall (fun row => length row = N) a.

(** [adjacency[i][j] = adjacency[j][i]] *)
Definition symmetric (N : nat) (a : matrix) : Prop :=
  forall i j, (i < N)%nat -> (j < N)%nat -> aget a i j = aget a j i.

(** Only 0/1 entries. *)
Definition binary (N : nat) (a : matrix) : Prop :=
  forall i j, (i < N)%nat -> (j < N)%nat -> aget a i j = 0%nat \/ aget a i j = 1%nat.

(** No self-loops. *)
Definition zeroDiagonal (N : nat) (a : matrix) : Prop :=
  forall i, (i < N)%nat -> aget a i i = 0%nat.

Definition undirected (N : nat) (a : matrix) : Prop :=
  square N a /\ symmetric N a /\ binary N a.

(** The indicator of a decidable proposition. *)
Definition indicator (P : Prop) `{Decision P} : nat := if decide P then 1%nat else 0%nat.

End MatrixPredicates.

(* ================================================================= *)
(** ** Predicates on the engines *)

Section EnginePredicates.
Local Open Scope R_scope.

(** An ensemble whose coupling term vanishes: no coupling strength, or a
    single oscillator. *)
Definition uncoupled (m : Kuramoto.KuramotoModel) : Prop :=
  forall th i, (i < Kuramoto.N m)%nat ->
    (Kuramoto.K m / INR (Kuramoto.N m)) * Kuramoto.couplingSum m th i = 0.



(** The three history sequences of the attention field advance together and
    hold at most 500 frames. *)
Definition histBounded (h : AttentionField.History) : Prop :=
  length (AttentionField.h_attentionMap h) = length (AttentionField.h_time h) /\
  length (AttentionField.h_trackedObjects h) = length (AttentionField.h_time h) /\
  (length (AttentionField.h_time h) <= 500)%nat.

(** A stimulus object after some motion: the same object, not faster along
    either axis. *)
Definition sameObject (o o' : AttentionField.StimulusObject) : Prop :=
  AttentionField.obj_id o' = AttentionField.obj_id o /\
  AttentionField.obj_radius o' = AttentionField.obj_radius o /\
  AttentionField.obj_intensity o' = AttentionField.obj_intensity o /\
  AttentionField.obj_features o' = AttentionField.obj_features o /\
  Rabs (AttentionField.obj_vx o') <= Rabs (AttentionField.obj_vx o) /\
  Rabs (AttentionField.obj_vy o') <= Rabs (AttentionField.obj_vy o).

(** The centre of an object lies inside the 2-cell padding of the grid. *)
Definition inField (gs : nat) (o : AttentionField.StimulusObject) : Prop :=
  2 <= AttentionField.obj_x o <= INR gs - 2 /\
  2 <= AttentionField.obj_y o <= INR gs - 2.

(** The cached spatial weights are those the current parameters give. *)
Definition coherent (m : AttentionField.AttentionFieldModel) : Prop :=
  AttentionField.spatialWeights m = AttentionField.computeSpatialWeights m.

End EnginePredicates.

(* ================================================================= *)
(** ** Concrete inputs used by the examples below *)

Section Inputs.
Local Open Scope R_scope.
Local Open Scope string_scope.

(** A source whose every draw is one half. *)
Definition halves : draws := fun _ => (1 # 2)%Q.

(** A source whose every draw is zero. *)
Definition zeroDraws : draws := fun _ => 0%Q.

(** The draws 0, 1/2, 1/4, then 1/2 for ever. *)
Definition boundaryDraws : draws :=
  fun n => match n with
           | 0%nat => 0%Q
           | 1%nat => (1 # 2)%Q
           | 2%nat => (1 # 4)%Q
           | _ => (1 # 2)%Q
           end.

(** [{}] *)
Definition emptyConfig : Kuramoto.Config :=
  {| Kuramoto.cfg_N := None; Kuramoto.cfg_K := None; Kuramoto.cfg_dt := None;
     Kuramoto.cfg_noiseLevel := None; Kuramoto.cfg_phaseLag := None |}.

(** An ensemble of one oscillator at rest, without coupling. *)
Definition restingModel : Kuramoto.KuramotoModel :=
  {| Kuramoto.N := 1; Kuramoto.K := 0; Kuramoto.dt := 0.05;
     Kuramoto.noiseLevel := 0; Kuramoto.phaseLag := 0;
     Kuramoto.theta := [0]; Kuramoto.omega := [0];
     Kuramoto.adjacency := None; Kuramoto.time := 0;
     Kuramoto.history := Kuramoto.noHistory;
     Kuramoto.maxHistoryLength := 10000%Z |}.



(** Two coupled oscillators with different phases and frequencies. *)
Definition pairModel : Kuramoto.KuramotoModel :=
  {| Kuramoto.N := 2; Kuramoto.K := 2; Kuramoto.dt := 0.05;
     Kuramoto.noiseLevel := 0; Kuramoto.phaseLag := 0;
     Kuramoto.theta := [1; 2]; Kuramoto.omega := [3; -1];
     Kuramoto.adjacency := None; Kuramoto.time := 0;
     Kuramoto.history := Kuramoto.noHistory;
     Kuramoto.maxHistoryLength := 10000%Z |}.

(** A field of one cell, without objects. *)
Definition tinyField : AttentionField.AttentionFieldModel :=
  {| AttentionField.gridSize := 1; AttentionField.N := 1;
     AttentionField.K := 2; AttentionField.dt := 0.05;
     AttentionField.noiseLevel := 0; AttentionField.phaseLag := 0;
     AttentionField.K_stim := 1.5; AttentionField.K_feat := 2;
     AttentionField.spatialRange := 4; AttentionField.spatialDecay := 0.3;
     AttentionField.networkType := "spatial"; AttentionField.networkParams := [];
     AttentionField.adjacency := None; AttentionField.numFeatures := 3;
     AttentionField.theta := [0]; AttentionField.omega := [0];
     AttentionField.stimulus := [0]; AttentionField.features := [[0.5; 0.5; 0.5]];
     AttentionField.stimulusObjects := []; AttentionField.time := 0;
     AttentionField.history := AttentionField.noHistory;
     AttentionField.spatialWeights := [0] |}.

(** A field of 6 by 6 cells with one object that is about to leave through
    the upper right corner; the first cell carries a feature, the second none,
    the others are neutral. *)
Definition smallField : AttentionField.AttentionFieldModel :=
  {| AttentionField.gridSize := 6; AttentionField.N := 36;
     AttentionField.K := 2; AttentionField.dt := 0.05;
     AttentionField.noiseLevel := 0; AttentionField.phaseLag := 0;
     AttentionField.K_stim := 1.5; AttentionField.K_feat := 2;
     AttentionField.spatialRange := 4; AttentionField.spatialDecay := 0.3;
     AttentionField.networkType := "spatial"; AttentionField.networkParams := [];
     AttentionField.adjacency := None; AttentionField.numFeatures := 2;
     AttentionField.theta := replicate 36 0; AttentionField.omega := replicate 36 0;
     AttentionField.stimulus := replicate 36 0;
     AttentionField.features := [1; 0] :: [0; 0] :: replicate 34 [0.5; 0.5];
     AttentionField.stimulusObjects :=
       [{| AttentionField.obj_id := AttentionField.GivenId "a";
           AttentionField.obj_x := 4; AttentionField.obj_y := 4;
           AttentionField.obj_vx := 100; AttentionField.obj_vy := 100;
           AttentionField.obj_radius := 3; AttentionField.obj_intensity := 1;
           AttentionField.obj_features := [1; 0] |}];
     AttentionField.time := 0;
     AttentionField.history := AttentionField.noHistory;
     AttentionField.spatialWeights := replicate 1296 0 |}.

(** [{x: 0, y: 0, intensity: 0}] *)
Definition zeroObject : AttentionField.ObjectConfig :=
  {| AttentionField.in_id := None;
     AttentionField.in_x := Some 0; AttentionField.in_y := Some 0;
     AttentionField.in_vx := None; AttentionField.in_vy := None;
     AttentionField.in_radius := None; AttentionField.in_intensity := Some 0;
     AttentionField.in_features := None |}.

(** [{}] for the attention field. *)
Definition emptyFieldConfig : AttentionField.Config :=
  {| AttentionField.cfg_gridSize := None; AttentionField.cfg_K := None;
     AttentionField.cfg_dt := None; AttentionField.cfg_noiseLevel := None;
     AttentionField.cfg_phaseLag := None; AttentionField.cfg_K_stim := None;
     AttentionField.cfg_K_feat := None; AttentionField.cfg_spatialRange := None;
     AttentionField.cfg_spatialDecay := None; AttentionField.cfg_networkType := None;
     AttentionField.cfg_networkParams := None; AttentionField.cfg_numFeatures := None |}.

(** A history of three samples with an empty clock. *)
Definition shortHistory : RunMetrics.HistoryArg :=
  {| RunMetrics.ha_time := Some [];
     RunMetrics.ha_orderParameter := Some [0.2; 0.5; 0.4] |}.

End Inputs.

(* ================================================================= *)
(** ** Reading and writing matrix cells *)

Section MatrixCells.
Import Topology.

Lemma square_zeros N : square N (zeros N).
Proof.
  split; [apply length_replicate|].
  apply Forall_replicate, length_replicate.
Qed.

Lemma square_aset N a i j v : square N a -> square N (aset a i j v).
Proof.
  intros [Hl Hr]; split; unfold aset.
  - by rewrite length_alter.
  - apply Forall_alter; [done|]. intros row _ Hrow.
    by rewrite length_insert.
Qed.

Lemma aget_zeros N i j : aget (zeros N) i j = 0%nat.
Proof.
  unfold aget, zeros.
  destruct (replicate N (replicate N 0%nat) !! i) as [row|] eqn:Hrow; [|done].
  apply lookup_replicate in Hrow as [-> _].
  destruct (replicate N 0%nat !! j) as [v|] eqn:Hv; [|done].
  by apply lookup_replicate in Hv as [-> _].
Qed.

Lemma aget_aset_eq N a i j v :
  square N a -> (i < N)%nat -> (j < N)%nat -> aget (aset a i j v) i j = v.
Proof.
  intros [Hl Hr] Hi Hj. unfold aget, aset.
  rewrite list_lookup_alter. destruct (decide (i = i)) as [_|]; [|done].
  destruct (lookup_lt_is_Some_2 a i) as [row Hrow]; [lia|].
  rewrite Hrow; simpl.
  rewrite Forall_lookup in Hr. specialize (Hr _ _ Hrow).
  rewrite list_lookup_insert_eq; [done|lia].
Qed.

Lemma aget_aset_ne a i j v i' j' :
  (i, j) <> (i', j') -> aget (aset a i j v) i' j' = aget a i' j'.
Proof.
  intros Hne. unfold aget, aset.
  rewrite list_lookup_alter. destruct (decide (i = i')) as [->|]; [|done].
  destruct (a !! i') as [row|]; simpl; [|done].
  rewrite list_lookup_insert_ne; [done|]. intros ->. by apply Hne.
Qed.

(** Writing the same value at [(i, j)] and at [(j, i)]: what [link] and
    [unlink] do. *)
Lemma aget_aset_pair N a i j v x y :
  square N a -> (i < N)%nat -> (j < N)%nat ->
  aget (aset (aset a i j v) j i v) x y =
    if decide ((x, y) = (i, j) \/ (x, y) = (j, i)) then v else aget a x y.
Proof.
  intros Hsq Hi Hj.
  destruct (decide ((j, i) = (x, y))) as [Heq|Hne1].
  - inversion Heq; subst.
    rewrite (aget_aset_eq N); [|by apply square_aset|done..].
    destruct (decide _) as [|Hn]; [done|]. exfalso; apply Hn; by right.
  - rewrite aget_aset_ne; [|done].
    destruct (decide ((i, j) = (x, y))) as [Heq|Hne2].
    + inversion Heq; subst. rewrite (aget_aset_eq N); [|done..].
      destruct (decide _) as [|Hn]; [done|]. exfalso; apply Hn; by left.
    + rewrite aget_aset_ne; [|done].
      destruct (decide _) as [[?|?]|]; [congruence..|done].
Qed.

Lemma undirected_zeros N : undirected N (zeros N).
Proof.
  split; [apply square_zeros|]. split.
  - intros i j _ _. by rewrite !aget_zeros.
  - intros i j _ _. left. apply aget_zeros.
Qed.

Lemma undirected_aset_pair N a i j v :
  undirected N a -> (i < N)%nat -> (j < N)%nat -> (v = 0 \/ v = 1)%nat ->
  undirected N (aset (aset a i j v) j i v).
Proof.
  intros (Hsq & Hsym & Hbin) Hi Hj Hv. split; [by do 2 apply square_aset|]. split.
  - intros x y Hx Hy. rewrite !(aget_aset_pair N); [|done..].
    destruct (decide ((x, y) = (i, j) ∨ (x, y) = (j, i))) as [H1|H1];
      destruct (decide ((y, x) = (i, j) ∨ (y, x) = (j, i))) as [H2|H2];
      try done; [exfalso; apply H2|exfalso; apply H1|by apply Hsym];
      destruct H1 as [H1|H1] || destruct H2 as [H2|H2];
      inversion_clear H1 || inversion_clear H2; auto.
  - intros x y Hx Hy. rewrite (aget_aset_pair N); [|done..].
    destruct (decide _); [done|by apply Hbin].
Qed.

(** Writing off the diagonal keeps the diagonal. *)
Lemma zeroDiagonal_aset_pair N a i j v :
  square N a -> (i < N)%nat -> (j < N)%nat -> i <> j ->
  zeroDiagonal N a -> zeroDiagonal N (aset (aset a i j v) j i v).
Proof.
  intros Hsq Hi Hj Hne Hz x Hx. rewrite (aget_aset_pair N); [|done..].
  destruct (decide _) as [[Heq|Heq]|]; [inversion Heq; lia..|by apply Hz].
Qed.

Lemma zeroDiagonal_zeros N : zeroDiagonal N (zeros N).
Proof. intros i _. apply aget_zeros. Qed.

Lemma undirected_link N a i j :
  undirected N a -> (i < N)%nat -> (j < N)%nat -> undirected N (link a i j).
Proof. intros. apply undirected_aset_pair; auto. Qed.

Lemma undirected_unlink N a i j :
  undirected N a -> (i < N)%nat -> (j < N)%nat -> undirected N (unlink a i j).
Proof. intros. apply undirected_aset_pair; auto. Qed.

End MatrixCells.

(* ================================================================= *)
(** ** Counting edges *)

Section EdgeCounting.
Import Topology.

Lemma elem_of_pairsAbove N i j :
  (i, j) ∈ pairsAbove N <-> (i < j < N)%nat.
Proof.
  unfold pairsAbove. rewrite list_elem_of_bind. split.
  - intros (i' & Hin & Hi'). apply list_elem_of_bind in Hin as (j' & Hin & Hj').
    apply list_elem_of_singleton in Hin. inversion Hin; subst.
    apply elem_of_seq in Hi', Hj'. lia.
  - intros Hij. exists i. split; [|apply elem_of_seq; lia].
    apply list_elem_of_bind. exists j. split; [by apply list_elem_of_singleton|].
    apply elem_of_seq; lia.
Qed.

Lemma NoDup_pairsAbove N : NoDup (pairsAbove N).
Proof.
  unfold pairsAbove. apply NoDup_bind; [| |apply NoDup_seq].
  - intros i1 i2 [x y] _ _ H1 H2.
    apply list_elem_of_bind in H1 as (j1 & H1 & _), H2 as (j2 & H2 & _).
    apply list_elem_of_singleton in H1, H2. congruence.
  - intros i _. apply NoDup_bind; [| |apply NoDup_seq].
    + intros j1 j2 [x y] _ _ H1 H2.
      apply list_elem_of_singleton in H1, H2. congruence.
    + intros j _. apply NoDup_singleton.
Qed.

Context {A : Type}.
Implicit Types P Q : A -> Prop.

Lemma filter_length_agree P Q `{!forall x, Decision (P x)} `{!forall x, Decision (Q x)}
    (l : list A) :
  (forall y, y ∈ l -> (P y <-> Q y)) ->
  length (filter P l) = length (filter Q l).
Proof.
  induction l as [|z l IH]; intros Hag; [done|].
  rewrite !filter_cons.
  assert (Hl : length (filter P l) = length (filter Q l)).
  { apply IH. intros y Hy. apply Hag. by right. }
  specialize (Hag z (list_elem_of_here _ _)).
  destruct (decide (P z)), (decide (Q z)); simpl; tauto || lia.
Qed.

(** Two predicates that agree on a duplicate-free list except at one of its
    elements select as many elements, up to that one. *)
Lemma filter_length_point P Q `{!forall x, Decision (P x)} `{!forall x, Decision (Q x)}
    (l : list A) (x : A) :
  NoDup l -> x ∈ l ->
  (forall y, y ∈ l -> y <> x -> (P y <-> Q y)) ->
  (length (filter P l) + indicator (Q x) = length (filter Q l) + indicator (P x))%nat.
Proof.
  induction l as [|z l IH]; intros Hnd Hin Hag; [by apply elem_of_nil in Hin|].
  apply NoDup_cons in Hnd as [Hz Hnd]. rewrite !filter_cons.
  apply elem_of_cons in Hin as [->|Hin].
  - assert (Hl : length (filter P l) = length (filter Q l)).
    { apply filter_length_agree. intros y Hy. apply Hag; [by right|].
      intros ->. done. }
    unfold indicator. destruct (decide (P z)), (decide (Q z)); simpl; lia.
  - assert (Hzx : z <> x) by (intros ->; done).
    assert (IH' := IH Hnd Hin (fun y Hy => Hag y (list_elem_of_further _ _ _ Hy))).
    assert (Hz' := Hag z (list_elem_of_here _ _) Hzx).
    destruct (decide (P z)), (decide (Q z)); simpl; tauto || lia.
Qed.

End EdgeCounting.

Section EdgeCountChanges.
Import Topology.

(** A matrix [b] that differs from [a] above the diagonal at most in the cell
    [(x, y)] has the edges of [a], up to that one. *)
Lemma edgeCount_point N (a b : matrix) x y :
  (x < y < N)%nat ->
  (forall i j, (i < j)%nat -> (i, j) <> (x, y) -> aget b i j = aget a i j) ->
  (edgeCount b N + indicator (aget a x y = 1%nat)
   = edgeCount a N + indicator (aget b x y = 1%nat))%nat.
Proof.
  intros Hxy Hag. unfold edgeCount, getAllEdges.
  refine (filter_length_point
           (fun e : nat * nat => aget b e.1 e.2 = 1%nat)
           (fun e : nat * nat => aget a e.1 e.2 = 1%nat) (pairsAbove N) (x, y) _ _ _).
  - apply NoDup_pairsAbove.
  - by apply elem_of_pairsAbove.
  - intros [i j] Hin Hne; simpl. apply elem_of_pairsAbove in Hin.
    rewrite Hag; [done|lia|done].
Qed.

Lemma edgeCount_unlink N a i j :
  undirected N a -> (i < j < N)%nat -> aget a i j = 1%nat ->
  (edgeCount (unlink a i j) N + 1 = edgeCount a N)%nat.
Proof.
  intros (Hsq & _) Hij H1.
  pose proof (edgeCount_point N a (unlink a i j) i j Hij) as Hp.
  unfold unlink in *. rewrite (aget_aset_pair N) in Hp; [|done||lia..].
  destruct (decide _) as [_|Hn]; [|exfalso; apply Hn; by left].
  unfold indicator in Hp. rewrite H1 in Hp. simpl in Hp.
  rewrite Hp; [lia|]. intros x y Hlt Hne.
  rewrite (aget_aset_pair N); [|done||lia..].
  destruct (decide _) as [[Heq|Heq]|]; [done| |done].
  inversion Heq; subst. lia.
Qed.

Lemma edgeCount_link N a i t :
  undirected N a -> (i < N)%nat -> (t < N)%nat -> i <> t -> aget a i t <> 1%nat ->
  (edgeCount (link a i t) N = edgeCount a N + 1)%nat.
Proof.
  intros (Hsq & Hsym & _) Hi Ht Hit H1.
  assert (Hcell : forall x y, (x = i /\ y = t) \/ (x = t /\ y = i) ->
                    aget (link a i t) x y = 1%nat).
  { intros x y Hc. unfold link. rewrite (aget_aset_pair N); [|done..].
    destruct (decide _) as [|Hn]; [done|]. exfalso; apply Hn.
    destruct Hc as [[-> ->]|[-> ->]]; auto. }
  assert (Hother : forall x y, (x, y) <> (i, t) -> (x, y) <> (t, i) ->
                    aget (link a i t) x y = aget a x y).
  { intros x y Hn1 Hn2. unfold link. rewrite (aget_aset_pair N); [|done..].
    destruct (decide _) as [[?|?]|]; done. }
  destruct (decide (i < t)%nat) as [Hlt|Hge].
  - pose proof (edgeCount_point N a (link a i t) i t (conj Hlt Ht)) as Hp.
    rewrite Hcell in Hp; [|auto]. unfold indicator in Hp.
    destruct (decide (aget a i t = 1%nat)); [done|]. simpl in Hp.
    rewrite <- Hp; [lia|]. intros x y Hxy Hne. apply Hother; [done|].
    intros Heq; inversion Heq; subst; lia.
  - assert (Hlt : (t < i)%nat) by lia.
    pose proof (edgeCount_point N a (link a i t) t i (conj Hlt Hi)) as Hp.
    rewrite Hcell in Hp; [|auto]. unfold indicator in Hp.
    rewrite (Hsym t i Ht Hi) in Hp.
    destruct (decide (aget a i t = 1%nat)); [done|]. simpl in Hp.
    rewrite <- Hp; [lia|]. intros x y Hxy Hne. apply Hother; [|done].
    intros Heq; inversion Heq; subst; lia.
Qed.

End EdgeCountChanges.

(* ================================================================= *)
(** ** The small-world generator *)

Section SmallWorld.
Import Topology.

Lemma uniformIndex_lt u N :
  (0 <= u)%Q -> (u < 1)%Q -> (0 < N)%nat -> (uniformIndex u N < N)%nat.
Proof.
  intros H0 H1 HN. unfold uniformIndex.
  set (q := (u * inject_Z (Z.of_nat N))%Q).
  assert (HNq : (0 < inject_Z (Z.of_nat N))%Q).
  { change 0%Q with (inject_Z 0). rewrite <- Zlt_Qlt. lia. }
  assert (Hq0 : (0 <= q)%Q) by (apply Qmult_le_0_compat; [done|by apply Qlt_le_weak]).
  assert (Hq1 : (q < inject_Z (Z.of_nat N))%Q).
  { unfold q. rewrite <- (Qmult_1_l (inject_Z (Z.of_nat N))) at 2.
    by apply Qmult_lt_compat_r. }
  assert (Hf0 : (0 <= Qfloor q)%Z).
  { change 0%Z with (Qfloor 0). by apply Qfloor_resp_le. }
  assert (Hf1 : (Qfloor q < Z.of_nat N)%Z).
  { rewrite Zlt_Qlt. eapply Qle_lt_trans; [apply Qfloor_le|done]. }
  lia.
Qed.

Lemma latticeBody_undirected N i j acc :
  (i < N)%nat ->
  (forall a, acc = Some a -> undirected N a) ->
  forall a, latticeBody N i acc j = Some a -> undirected N a.
Proof.
  intros Hi Hacc a. unfold latticeBody. destruct acc as [a0|]; simpl; [|done].
  specialize (Hacc a0 eq_refl).
  assert (Hn1 : ((i + j) mod N < N)%nat) by (apply Nat.mod_upper_bound; lia).
  assert (H1 : undirected N (link a0 i ((i + j) mod N))) by by apply undirected_link.
  set (n2 := Z.rem _ _).
  destruct (decide (n2 ≠ _)) as [_|_]; [|by intros [= <-]].
  destruct (n2 <? 0)%Z eqn:Hneg; [done|]. intros [= <-].
  apply Z.ltb_ge in Hneg.
  apply undirected_link; [done..|].
  pose proof (Z.rem_bound_abs (Z.of_nat i - Z.of_nat j + Z.of_nat N) (Z.of_nat N)).
  fold n2 in H. lia.
Qed.

Lemma ringLattice_undirected N k a :
  ringLattice N k = Some a -> undirected N a.
Proof.
  unfold ringLattice.
  assert (Hin : forall i, i ∈ seq 0 N -> (i < N)%nat).
  { intros i Hi. apply elem_of_seq in Hi. lia. }
  assert (Hacc : forall a, Some (zeros N) = Some a -> undirected N a).
  { intros ? [= <-]. apply undirected_zeros. }
  revert Hin Hacc. generalize (Some (zeros N)) (seq 0 N) (seq 1 (k / 2)).
  intros acc rows cols.
  revert acc a. induction rows as [|i rows IH]; intros acc a Hin Hacc; simpl.
  - apply Hacc.
  - apply IH; [intros; apply Hin; by right|].
    assert (Hi : (i < N)%nat) by (apply Hin; by left).
    clear -Hi Hacc. revert acc Hacc.
    induction cols as [|j cols IH]; intros acc Hacc; simpl; [exact Hacc|].
    apply IH. by apply latticeBody_undirected.
Qed.

Variable rnd : draws.
Hypothesis rnd_range : forall n, (0 <= rnd n)%Q /\ (rnd n < 1)%Q.

(** The search for a target ends on a node in range, and when it ends before
    the 100th attempt the node is neither [i] nor a neighbour of [i]. *)
Lemma retarget_spec a N i budget :
  (0 < N)%nat ->
  forall t att c t' att' c',
    (t < N)%nat -> (100 <= att + budget)%nat ->
    retarget rnd a N i budget t att c = (t', att', c') ->
    (t' < N)%nat /\ ((att' < 100)%nat -> t' <> i /\ aget a i t' <> 1%nat).
Proof.
  intros HN. induction budget as [|b IH]; intros t att c t' att' c' Ht Hb; simpl.
  - intros [= <- <- <-]. split; [done|lia].
  - destruct (_ && _) eqn:Hcond.
    + apply IH; [|lia]. apply uniformIndex_lt; [apply rnd_range..|done].
    + intros [= <- <- <-]. split; [done|]. intros Hatt.
      apply andb_false_iff in Hcond as [Hcond|Hcond].
      * apply orb_false_iff in Hcond as [H1 H2].
        apply bool_decide_eq_false in H1, H2. done.
      * apply Nat.ltb_ge in Hcond. lia.
Qed.

(** What one pass of the rewiring loop keeps: the matrix stays undirected,
    the edges still to be visited stay in place, and every edge is either
    kept, moved, or counted as dropped. *)
Lemma rewireEdge_step N p st e (rest : list (nat * nat)) :
  undirected N (rw_adjacency st) ->
  e ∈ pairsAbove N -> aget (rw_adjacency st) e.1 e.2 = 1%nat ->
  e ∉ rest ->
  (forall e', e' ∈ rest -> e' ∈ pairsAbove N /\ aget (rw_adjacency st) e'.1 e'.2 = 1%nat) ->
  let st' := rewireEdge rnd N p st e in
  undirected N (rw_adjacency st') /\
  (forall e', e' ∈ rest -> aget (rw_adjacency st') e'.1 e'.2 = 1%nat) /\
  (edgeCount (rw_adjacency st') N + rw_dropped st'
   = edgeCount (rw_adjacency st) N + rw_dropped st)%nat /\
  (zeroDiagonal N (rw_adjacency st) -> zeroDiagonal N (rw_adjacency st')).
Proof.
  destruct e as [i j]. intros Hun Hin H1 Hnot Hrest; simpl in *.
  apply elem_of_pairsAbove in Hin.
  unfold rewireEdge; cbn [fst snd].
  destruct (Qltb _ _); cbn [rw_adjacency rw_dropped];
    [|by split; [|split; [intros; by apply Hrest|]]].
  assert (Hza : zeroDiagonal N (rw_adjacency st) ->
                zeroDiagonal N (unlink (rw_adjacency st) i j)).
  { intros Hz. apply zeroDiagonal_aset_pair; [apply Hun|lia..|done]. }
  set (a := unlink (rw_adjacency st) i j).
  assert (Hua : undirected N a) by (apply undirected_unlink; [done|lia..]).
  assert (Hca : (edgeCount a N + 1 = edgeCount (rw_adjacency st) N)%nat)
    by by apply edgeCount_unlink.
  assert (Hra : forall e', e' ∈ rest -> aget a e'.1 e'.2 = 1%nat).
  { intros [x y] He'. destruct (Hrest _ He') as [Hp Hv]; simpl in *.
    apply elem_of_pairsAbove in Hp. unfold a, unlink.
    rewrite (aget_aset_pair N); [|apply Hun|lia..].
    destruct (decide _) as [[Heq|Heq]|]; [| |done].
    - congruence.
    - inversion Heq; subst; lia. }
  destruct (retarget _ _ _ _ _ _ _ _) as [[t att] c'] eqn:Hre.
  apply retarget_spec in Hre as [Ht Hfree];
    [|lia|apply uniformIndex_lt; [apply rnd_range..|lia]|lia].
  destruct (att <? 100)%nat eqn:Hatt; cbn [rw_adjacency rw_dropped].
  - apply Nat.ltb_lt in Hatt. destruct (Hfree Hatt) as [Hti Hfr].
    split; [apply undirected_link; [done|lia|done]|]. split.
    + intros [x y] He'; simpl. unfold link.
      rewrite (aget_aset_pair N); [|apply Hua|lia..].
      destruct (decide _); [done|]. by apply (Hra (x, y)).
    + split; [rewrite (edgeCount_link N a i t); [lia|done|lia|done|done|done]|].
      intros Hz. apply zeroDiagonal_aset_pair; [apply Hua|lia|done|done|by apply Hza].
  - split; [done|]. split; [done|]. split; [lia|done].
Qed.

Lemma rewire_fold N p (l : list (nat * nat)) st :
  NoDup l ->
  undirected N (rw_adjacency st) ->
  (forall e, e ∈ l -> e ∈ pairsAbove N /\ aget (rw_adjacency st) e.1 e.2 = 1%nat) ->
  let st' := foldl (rewireEdge rnd N p) st l in
  undirected N (rw_adjacency st') /\
  (edgeCount (rw_adjacency st') N + rw_dropped st'
   = edgeCount (rw_adjacency st) N + rw_dropped st)%nat /\
  (zeroDiagonal N (rw_adjacency st) -> zeroDiagonal N (rw_adjacency st')).
Proof.
  revert st. induction l as [|e l IH]; intros st Hnd Hun Hl; simpl; [done|].
  apply NoDup_cons in Hnd as [He Hnd].
  destruct (Hl e (list_elem_of_here _ _)) as [Hp H1].
  destruct (rewireEdge_step N p st e l Hun Hp H1 He) as (Hun' & Hl' & Hc' & Hz').
  { intros e' He'. apply Hl. by right. }
  destruct (IH (rewireEdge rnd N p st e) Hnd Hun') as (Hun'' & Hc'' & Hz'').
  { intros e' He'. split; [|by apply Hl']. apply Hl. by right. }
  split; [done|]. simpl in *. split; [lia|auto].
Qed.

Lemma rewire_accounting N p a c :
  undirected N a ->
  let st := rewire rnd N p a c in
  undirected N (rw_adjacency st) /\
  (edgeCount (rw_adjacency st) N + rw_dropped st = edgeCount a N)%nat /\
  (zeroDiagonal N a -> zeroDiagonal N (rw_adjacency st)).
Proof.
  intros Hun. unfold rewire.
  destruct (rewire_fold N p (getAllEdges a N)
              {| rw_adjacency := a; rw_cursor := c; rw_dropped := 0 |})
    as (H1 & H2 & H3).
  - apply NoDup_filter, NoDup_pairsAbove.
  - done.
  - intros e He. unfold getAllEdges in He.
    apply list_elem_of_filter in He as [Hv Hp]. done.
  - simpl in *. split; [done|]. split; [lia|done].
Qed.

End SmallWorld.

(* ================================================================= *)
(** ** The phase wrap *)

Section PhaseWrap.
Local Open Scope R_scope.

Lemma MathPI_pos : MathPI > 0.
Proof. unfold MathPI. lra. Qed.


Lemma MathPI_lt_Float32PI : MathPI < Float32PI.
Proof. unfold MathPI, Float32PI. lra. Qed.

Lemma wrapDown_spec fuel : forall x,
  exists k : nat,
    wrapDown fuel x = x - 2 * MathPI * INR k /\
    (k = 0%nat \/ - MathPI < wrapDown fuel x) /\
    (x - 2 * MathPI * INR fuel <= MathPI -> wrapDown fuel x <= MathPI).
Proof.
  pose proof MathPI_pos as Hpi.
  induction fuel as [|f IH]; intros x.
  - exists 0%nat. simpl. repeat split; [lra|by left|lra].
  - cbn [wrapDown]. destruct (Rgt_dec x MathPI) as [Hgt|Hle].
    + destruct (IH (x - 2 * MathPI)) as (k & Hk & Hlo & Hhi).
      exists (S k). rewrite S_INR. repeat split.
      * rewrite Hk. lra.
      * right. destruct Hlo as [->|Hlo]; [|done]. rewrite Hk. simpl. lra.
      * intros Hb. apply Hhi. rewrite S_INR in Hb. lra.
    + exists 0%nat. simpl. repeat split; [lra|by left|lra].
Qed.

Lemma wrapUp_spec fuel : forall x,
  exists k : nat,
    wrapUp fuel x = x + 2 * MathPI * INR k /\
    (k = 0%nat \/ wrapUp fuel x < MathPI) /\
    (- MathPI <= x + 2 * MathPI * INR fuel -> - MathPI <= wrapUp fuel x).
Proof.
  pose proof MathPI_pos as Hpi.
  induction fuel as [|f IH]; intros x.
  - exists 0%nat. simpl. repeat split; [lra|by left|lra].
  - cbn [wrapUp]. destruct (Rlt_dec x (- MathPI)) as [Hlt|Hge].
    + destruct (IH (x + 2 * MathPI)) as (k & Hk & Hlo & Hhi).
      exists (S k). rewrite S_INR. repeat split.
      * rewrite Hk. lra.
      * right. destruct Hlo as [->|Hlo]; [|done]. rewrite Hk. simpl. lra.
      * intros Hb. apply Hhi. rewrite S_INR in Hb. lra.
    + exists 0%nat. simpl. repeat split; [lra|by left|lra].
Qed.

(** The number of rounds granted to a loop exceeds what it needs. *)
Lemma wrapRounds_enough x : Rabs x < 2 * MathPI * INR (wrapRounds x).
Proof.
  pose proof MathPI_pos as Hpi. unfold wrapRounds.
  destruct (archimed (Rabs x / (2 * MathPI))) as [Hup _].
  assert (H0 : 0 <= Rabs x / (2 * MathPI)).
  { apply Rmult_le_pos; [apply Rabs_pos|]. left. apply Rinv_0_lt_compat. lra. }
  assert (Hz : (0 <= up (Rabs x / (2 * MathPI)))%Z).
  { apply le_IZR. lra. }
  rewrite INR_IZR_INZ, Z2Nat.id; [|done].
  apply Rmult_lt_reg_r with (/ (2 * MathPI)); [apply Rinv_0_lt_compat; lra|].
  replace (2 * MathPI * IZR (up (Rabs x / (2 * MathPI))) * / (2 * MathPI))
    with (IZR (up (Rabs x / (2 * MathPI)))) by (field; lra).
  exact Hup.
Qed.

(** Both loops of the wrap leave by their own tests: the result is in the
    closed interval from [-Math.PI] to [Math.PI]. *)
Lemma wrapPhase_range x : - MathPI <= wrapPhase x <= MathPI.
Proof.
  pose proof MathPI_pos as Hpi. unfold wrapPhase.
  set (y := wrapDown (wrapRounds x) x).
  assert (Hy : y <= MathPI).
  { destruct (wrapDown_spec (wrapRounds x) x) as (k & _ & _ & Hhi). apply Hhi.
    pose proof (wrapRounds_enough x). pose proof (Rle_abs x). lra. }
  destruct (wrapUp_spec (wrapRounds y) y) as (k & Hk & Hlo & Hhi). split.
  - apply Hhi. pose proof (wrapRounds_enough y).
    pose proof (Rle_abs (- y)). rewrite Rabs_Ropp in *. lra.
  - destruct Hlo as [->|Hlo]; [|lra]. rewrite Hk. simpl. lra.
Qed.

Lemma wrapDown_id fuel x : x <= MathPI -> wrapDown fuel x = x.
Proof.
  intros Hx. destruct fuel; simpl; [done|].
  destruct (Rgt_dec x MathPI); [lra|done].
Qed.

Lemma wrapUp_id fuel x : - MathPI <= x -> wrapUp fuel x = x.
Proof.
  intros Hx. destruct fuel; simpl; [done|].
  destruct (Rlt_dec x (- MathPI)); [lra|done].
Qed.

(** A phase already in the closed interval is left alone. *)
Lemma wrapPhase_id x : - MathPI <= x <= MathPI -> wrapPhase x = x.
Proof.
  intros [Hlo Hhi]. unfold wrapPhase.
  rewrite (wrapDown_id _ x Hhi). by apply wrapUp_id.
Qed.

(** The wrap moves a phase by a whole number of turns. *)
Lemma wrapPhase_turns x : exists k : Z, wrapPhase x = x + 2 * MathPI * IZR k.
Proof.
  unfold wrapPhase.
  destruct (wrapDown_spec (wrapRounds x) x) as (k1 & Hk1 & _).
  set (y := wrapDown (wrapRounds x) x) in *.
  destruct (wrapUp_spec (wrapRounds y) y) as (k2 & Hk2 & _).
  exists (Z.of_nat k2 - Z.of_nat k1)%Z.
  rewrite Hk2, Hk1, minus_IZR, <- !INR_IZR_INZ. lra.
Qed.

(** Coming from above [-Math.PI], the wrap ends in the interval open at [-Math.PI]. *)
Lemma wrapPhase_from_above x : - MathPI < x -> - MathPI < wrapPhase x <= MathPI.
Proof.
  intros Hx. split; [|apply wrapPhase_range].
  unfold wrapPhase.
  destruct (wrapDown_spec (wrapRounds x) x) as (k & Hk & Hlo & _).
  set (y := wrapDown (wrapRounds x) x) in *.
  assert (Hy : - MathPI < y).
  { destruct Hlo as [->|Hlo]; [|done]. rewrite Hk. simpl. lra. }
  rewrite wrapUp_id; lra.
Qed.

(** Coming from below [Math.PI], the wrap ends in the interval open at [Math.PI]. *)
Lemma wrapPhase_from_below x : x < MathPI -> - MathPI <= wrapPhase x < MathPI.
Proof.
  intros Hx. split; [apply wrapPhase_range|].
  unfold wrapPhase. rewrite (wrapDown_id _ x); [|lra].
  destruct (wrapUp_spec (wrapRounds x) x) as (k & Hk & Hlo & _).
  destruct Hlo as [->|Hlo]; [|done]. rewrite Hk. simpl. lra.
Qed.

(** Two phases less than a turn apart that differ by whole turns are equal. *)
Lemma turns_unique a b (k : Z) :
  a = b + 2 * MathPI * IZR k -> - (2 * MathPI) < a - b < 2 * MathPI -> a = b.
Proof.
  pose proof MathPI_pos as Hpi. intros Hab Hd.
  assert (Hk : -1 < IZR k < 1) by (split; nra).
  assert (k = 0)%Z.
  { destruct Hk as [H1 H2]. apply lt_IZR in H1, H2. lia. }
  subst k. lra.
Qed.

(** Wrapping, advancing forwards, and wrapping again is advancing and
    wrapping once. *)
Lemma wrapPhase_add_nonneg x c :
  - MathPI <= x -> 0 <= c -> wrapPhase (wrapPhase x + c) = wrapPhase (x + c).
Proof.
  pose proof MathPI_pos as Hpi. intros Hx Hc.
  destruct (Req_dec_T x (- MathPI)) as [->|Hne].
  { rewrite (wrapPhase_id (- MathPI)); [done|lra]. }
  destruct (Req_dec_T c 0) as [->|Hc0].
  { rewrite !Rplus_0_r. apply wrapPhase_id, wrapPhase_range. }
  assert (Hx' : - MathPI < x) by lra.
  pose proof (wrapPhase_from_above x Hx') as Hw.
  pose proof (wrapPhase_from_above (wrapPhase x + c)) as Hl.
  pose proof (wrapPhase_from_above (x + c)) as Hr.
  destruct (wrapPhase_turns x) as [k1 Hk1].
  destruct (wrapPhase_turns (wrapPhase x + c)) as [k2 Hk2].
  destruct (wrapPhase_turns (x + c)) as [k3 Hk3].
  apply (turns_unique _ _ (k1 + k2 - k3)); [|lra].
  rewrite minus_IZR, plus_IZR. lra.
Qed.

(** The same, advancing backwards. *)
Lemma wrapPhase_add_nonpos x c :
  x <= MathPI -> c <= 0 -> wrapPhase (wrapPhase x + c) = wrapPhase (x + c).
Proof.
  pose proof MathPI_pos as Hpi. intros Hx Hc.
  destruct (Req_dec_T x MathPI) as [->|Hne].
  { rewrite (wrapPhase_id MathPI); [done|lra]. }
  destruct (Req_dec_T c 0) as [->|Hc0].
  { rewrite !Rplus_0_r. apply wrapPhase_id, wrapPhase_range. }
  assert (Hx' : x < MathPI) by lra.
  pose proof (wrapPhase_from_below x Hx') as Hw.
  pose proof (wrapPhase_from_below (wrapPhase x + c)) as Hl.
  pose proof (wrapPhase_from_below (x + c)) as Hr.
  destruct (wrapPhase_turns x) as [k1 Hk1].
  destruct (wrapPhase_turns (wrapPhase x + c)) as [k2 Hk2].
  destruct (wrapPhase_turns (x + c)) as [k3 Hk3].
  apply (turns_unique _ _ (k1 + k2 - k3)); [|lra].
  rewrite minus_IZR, plus_IZR. lra.
Qed.

End PhaseWrap.

(* ================================================================= *)
(** ** Loops that fill an array *)

Section ArrayLoops.
Local Open Scope R_scope.

Lemma rd_insert (t : list R) i j v :
  rd (<[i := v]> t) j = if decide (i = j /\ (i < length t)%nat) then v else rd t j.
Proof.
  unfold rd. rewrite !nth_lookup.
  destruct (decide (i = j /\ (i < length t)%nat)) as [[-> Hlt]|Hn].
  - by rewrite list_lookup_insert_eq.
  - destruct (decide (i = j)) as [->|Hne].
    + rewrite list_insert_ge; [done|]. lia.
    + by rewrite list_lookup_insert_ne.
Qed.

(** [for (i = 0; i < n; i++) t[i] = f(i)] *)
Lemma fill_spec (f : nat -> R) (n : nat) (t0 : list R) :
  let t := foldl (fun t i => <[i := f i]> t) t0 (seq 0 n) in
  length t = length t0 /\
  forall i, rd t i = if decide ((i < n)%nat /\ (i < length t0)%nat) then f i else rd t0 i.
Proof.
  induction n as [|n [IHl IHr]]; cbn zeta in *.
  - split; [done|]. intros i. case_decide as Hd; [lia|done].
  - rewrite seq_S, foldl_app. cbn [foldl]. split; [by rewrite length_insert|].
    intros i. rewrite rd_insert, IHl, IHr. cbn [plus].
    repeat case_decide; try done; try lia; try (exfalso; intuition lia).
    by intuition subst.
Qed.


Lemma combine_length N dt theta theta0 k1 k2 k3 k4 :
  length (combine N dt theta theta0 k1 k2 k3 k4) = length theta.
Proof.
  unfold combine.
  by destruct (fill_spec
    (fun i => wrapPhase (rd theta0 i
                + (dt / 6) * (rd k1 i + 2 * rd k2 i + 2 * rd k3 i + rd k4 i)))
    N theta) as [Hl _].
Qed.

Lemma combine_spec N dt theta theta0 k1 k2 k3 k4 i :
  (i < N)%nat -> length theta = N ->
  rd (combine N dt theta theta0 k1 k2 k3 k4) i
  = wrapPhase (rd theta0 i + (dt / 6) * (rd k1 i + 2 * rd k2 i + 2 * rd k3 i + rd k4 i)).
Proof.
  intros Hi Hl. unfold combine.
  destruct (fill_spec
    (fun i => wrapPhase (rd theta0 i
                + (dt / 6) * (rd k1 i + 2 * rd k2 i + 2 * rd k3 i + rd k4 i)))
    N theta) as [_ Hf].
  rewrite Hf. destruct (decide _) as [|Hn]; [done|lia].
Qed.

End ArrayLoops.

(* ================================================================= *)
(** ** The oscillator ensemble: one step *)

Section KuramotoStep.
Import Kuramoto.
Local Open Scope R_scope.

Variable rnd : draws.

(** [step()] writes the phases by its last loop and leaves every parameter,
    the frequencies and the network alone. *)
Lemma step_shape m c :
  exists k1 k2 k3 k4,
    let m' := (step rnd m c).1 in
    theta m' = combine (N m) (dt m) (theta m) (theta m) k1 k2 k3 k4 /\
    N m' = N m /\ K m' = K m /\ dt m' = dt m /\ noiseLevel m' = noiseLevel m /\
    phaseLag m' = phaseLag m /\ omega m' = omega m /\ adjacency m' = adjacency m /\
    time m' = time m + dt m /\
    maxHistoryLength m' = maxHistoryLength m /\
    h_time (history m') = h_time (history m) ++ [time m + dt m] /\
    h_orderParameter (history m')
      = h_orderParameter (history m) ++ [calculateOrderParameter m'] /\
    h_phases (history m') = h_phases (history m) ++ [theta m'].
Proof.
  unfold step.
  destruct (computeDerivatives rnd m (theta m) c) as [k1 c1].
  destruct (computeDerivatives rnd m _ c1) as [k2 c2].
  destruct (computeDerivatives rnd m _ c2) as [k3 c3].
  destruct (computeDerivatives rnd m _ c3) as [k4 c4].
  exists k1, k2, k3, k4. simpl. repeat split; done.
Qed.

Lemma step_length_theta m c :
  length (theta (step rnd m c).1) = length (theta m).
Proof.
  destruct (step_shape m c) as (k1 & k2 & k3 & k4 & Hth & _).
  simpl in Hth. rewrite Hth. apply combine_length.
Qed.

(** Without noise [computeDerivatives] draws nothing. *)
Lemma computeDerivatives_noiseless m th c :
  ~ 0 < noiseLevel m ->
  computeDerivatives rnd m th c
  = (foldl (fun t i => <[i := rd (omega m) i + (K m / INR (N m)) * couplingSum m th i]> t)
           (replicate (N m) 0) (seq 0 (N m)), c).
Proof.
  intros Hn. unfold computeDerivatives.
  generalize (replicate (N m) 0) (seq 0 (N m)). intros t l. revert t.
  induction l as [|i l IH]; intros t; simpl; [done|].
  destruct (Rlt_dec 0 (noiseLevel m)); [done|]. apply IH.
Qed.

Lemma computeDerivatives_noiseless_rd m th c i :
  ~ 0 < noiseLevel m -> (i < N m)%nat ->
  rd (computeDerivatives rnd m th c).1 i
  = rd (omega m) i + (K m / INR (N m)) * couplingSum m th i.
Proof.
  intros Hn Hi. rewrite computeDerivatives_noiseless; [|done]. simpl.
  destruct (fill_spec
    (fun i => rd (omega m) i + (K m / INR (N m)) * couplingSum m th i)
    (N m) (replicate (N m) 0)) as [_ Hf].
  rewrite Hf, length_replicate. destruct (decide _) as [|Hd]; [done|lia].
Qed.

Lemma uncoupled_K0 m : K m = 0 -> uncoupled m.
Proof. intros HK th i _. rewrite HK. lra. Qed.

Lemma uncoupled_single m : N m = 1%nat -> uncoupled m.
Proof.
  intros HN th i Hi. unfold couplingSum. rewrite HN in *.
  assert (i = 0)%nat as -> by lia. simpl.
  destruct (decide (0%nat <> 0%nat)); [done|lra].
Qed.

(** Without noise and coupling the four stage derivatives are the natural
    frequency, and a step advances each phase by [omega[i] * dt] before the
    wrap. *)
Lemma step_uncoupled m c i :
  ~ 0 < noiseLevel m -> uncoupled m -> length (theta m) = N m -> (i < N m)%nat ->
  rd (theta (step rnd m c).1) i = wrapPhase (rd (theta m) i + rd (omega m) i * dt m).
Proof.
  intros Hn Hu Hl Hi. unfold step.
  pose proof (computeDerivatives_noiseless_rd m) as Hk.
  rewrite (computeDerivatives_noiseless m (theta m) c Hn) in *.
  set (k1 := foldl _ _ _).
  rewrite (computeDerivatives_noiseless m (stagePoint _ _ _ k1) c Hn).
  set (k2 := foldl _ _ _).
  rewrite (computeDerivatives_noiseless m (stagePoint _ _ _ k2) c Hn).
  set (k3 := foldl _ _ _).
  rewrite (computeDerivatives_noiseless m (stagePoint _ _ _ k3) c Hn).
  set (k4 := foldl _ _ _).
  simpl. rewrite combine_spec; [|done..]. f_equal.
  assert (H1 : rd k1 i = rd (omega m) i).
  { specialize (Hk (theta m) c i Hn Hi).
    rewrite computeDerivatives_noiseless in Hk; [|done]. simpl in Hk.
    unfold k1. rewrite Hk, Hu; [lra|done]. }
  assert (H2 : rd k2 i = rd (omega m) i).
  { specialize (Hk (stagePoint (N m) (theta m) (0.5 * dt m) k1) c i Hn Hi).
    rewrite computeDerivatives_noiseless in Hk; [|done]. simpl in Hk.
    unfold k2. rewrite Hk, Hu; [lra|done]. }
  assert (H3 : rd k3 i = rd (omega m) i).
  { specialize (Hk (stagePoint (N m) (theta m) (0.5 * dt m) k2) c i Hn Hi).
    rewrite computeDerivatives_noiseless in Hk; [|done]. simpl in Hk.
    unfold k3. rewrite Hk, Hu; [lra|done]. }
  assert (H4 : rd k4 i = rd (omega m) i).
  { specialize (Hk (stagePoint (N m) (theta m) (dt m) k3) c i Hn Hi).
    rewrite computeDerivatives_noiseless in Hk; [|done]. simpl in Hk.
    unfold k4. rewrite Hk, Hu; [lra|done]. }
  rewrite H1, H2, H3, H4. lra.
Qed.


Lemma steps_S n m c :
  steps rnd (S n) m c = steps rnd n (step rnd m c).1 (step rnd m c).2.
Proof. simpl. by destruct (step rnd m c). Qed.

(** What [n] steps leave alone, and how far the history has grown. *)
Lemma steps_shape n : forall m c,
  let m' := (steps rnd n m c).1 in
  N m' = N m /\ K m' = K m /\ dt m' = dt m /\ noiseLevel m' = noiseLevel m /\
  omega m' = omega m /\ length (theta m') = length (theta m) /\
  maxHistoryLength m' = maxHistoryLength m /\
  (exists ts, h_time (history m') = h_time (history m) ++ ts /\ length ts = n) /\
  (exists rs, h_orderParameter (history m') = h_orderParameter (history m) ++ rs
              /\ length rs = n) /\
  (exists ps, h_phases (history m') = h_phases (history m) ++ ps /\ length ps = n).
Proof.
  induction n as [|n IH]; intros m c.
  - simpl. repeat split; try done; exists []; by rewrite app_nil_r.
  - rewrite steps_S.
    destruct (step_shape m c)
      as (k1 & k2 & k3 & k4 & _ & HN & HK & Hdt & Hno & _ & Hom & _ & _ & Hmax
          & Ht & Hr & Hp).
    pose proof (step_length_theta m c) as Hlen.
    destruct (IH (step rnd m c).1 (step rnd m c).2)
      as (HN' & HK' & Hdt' & Hno' & Hom' & Hlen' & Hmax' & (ts & Hts & Hlts)
          & (rs & Hrs & Hlrs) & (ps & Hps & Hlps)).
    cbn zeta in *.
    repeat split; try congruence.
    + eexists. rewrite Hts, Ht, <- app_assoc. split; [done|]. simpl. by rewrite Hlts.
    + eexists. rewrite Hrs, Hr, <- app_assoc. split; [done|]. simpl. by rewrite Hlrs.
    + eexists. rewrite Hps, Hp, <- app_assoc. split; [done|]. simpl. by rewrite Hlps.
Qed.

(** The constructor starts from an empty history and sets the cap field. *)
Lemma create_shape config c :
  let m := (create rnd config c).1 in
  history m = noHistory /\ maxHistoryLength m = 10000%Z /\
  N m = orElseNat (cfg_N config) 50 /\ length (theta m) = N m.
Proof.
  unfold create, initialize. cbn [N theta omega].
  set (n := orElseNat (cfg_N config) 50).
  match goal with |- context [foldl ?f ?a ?l] =>
    assert (Hlen : length (foldl f a l).1.1 = n) end.
  { assert (Hl0 : length (replicate n 0, replicate n 0, c).1.1 = n)
      by apply length_replicate.
    revert Hl0. generalize (replicate n 0, replicate n 0, c) (seq 0 n).
    intros st l. revert st. induction l as [|i l IH]; intros [[th om] c0] Hl; [done|].
    cbn [foldl]. apply IH. simpl. by rewrite length_insert. }
  destruct (foldl _ _ _) as [[th om] c']. simpl in *. done.
Qed.

End KuramotoStep.

(* ================================================================= *)
(** ** Sums of unit phasors *)

Section Phasors.
Local Open Scope R_scope.

Variable angle : nat -> R.

Local Abbreviation sumCos l a := (foldl (fun s i => s + cos (angle i)) a l).
Local Abbreviation sumSin l b := (foldl (fun s i => s + sin (angle i)) b l).

Lemma unit_phasor t : cos t * cos t + sin t * sin t = 1.
Proof. pose proof (sin2_cos2 t) as H. unfold Rsqr in H. lra. Qed.

(** The projection of a vector of length at most [n] on a unit vector is at
    most [n]. *)
Lemma projection_le a b n t :
  0 <= n -> a * a + b * b <= n * n -> a * cos t + b * sin t <= n.
Proof.
  intros Hn Hab. pose proof (unit_phasor t) as Hu.
  set (c := cos t) in *. set (s := sin t) in *.
  assert (Hsq : (a * c + b * s) * (a * c + b * s) <= n * n).
  { assert (Hid : (a * c + b * s) * (a * c + b * s) + (a * s - b * c) * (a * s - b * c)
                  = (a * a + b * b) * (c * c + s * s)) by ring.
    pose proof (Rle_0_sqr (a * s - b * c)) as Hp. unfold Rsqr in Hp.
    rewrite Hu in Hid. lra. }
  destruct (Rle_dec (a * c + b * s) n) as [|Hgt]; [done|]. exfalso.
  assert (n < a * c + b * s) by lra. nra.
Qed.

Lemma phasor_sum_bound l : forall a b n,
  0 <= n -> a * a + b * b <= n * n ->
  sumCos l a * sumCos l a + sumSin l b * sumSin l b
  <= (n + INR (length l)) * (n + INR (length l)).
Proof.
  induction l as [|i l IH]; intros a b n Hn Hab.
  - simpl. rewrite Rplus_0_r. done.
  - cbn [foldl length]. rewrite S_INR.
    replace (n + (INR (length l) + 1)) with ((n + 1) + INR (length l)) by lra.
    apply IH; [lra|].
    pose proof (projection_le a b n (angle i) Hn Hab).
    pose proof (unit_phasor (angle i)). nra.
Qed.

(** A sum of non-negative terms is at least where it started. *)
Lemma nonneg_sum_ge (g : nat -> R) l : forall g0,
  (forall i, i ∈ l -> 0 <= g i) -> g0 <= foldl (fun s i => s + g i) g0 l.
Proof.
  induction l as [|i l IH]; intros g0 Hg; simpl; [lra|].
  assert (0 <= g i) by (apply Hg; by left).
  etrans; [|apply IH; intros; apply Hg; by right]. lra.
Qed.

(** A sum of non-negative terms that vanishes has only vanishing terms. *)
Lemma nonneg_sum_zero (g : nat -> R) l : forall g0,
  (forall i, i ∈ l -> 0 <= g i) -> 0 <= g0 ->
  foldl (fun s i => s + g i) g0 l = 0 -> forall i, i ∈ l -> g i = 0.
Proof.
  induction l as [|j l IH]; intros g0 Hg Hg0 Hsum i Hi; [by apply elem_of_nil in Hi|].
  simpl in Hsum.
  assert (Hj : 0 <= g j) by (apply Hg; by left).
  assert (Hl : forall i, i ∈ l -> 0 <= g i) by (intros; apply Hg; by right).
  pose proof (nonneg_sum_ge g l (g0 + g j) Hl) as Hge.
  apply elem_of_cons in Hi as [->|Hi].
  - lra.
  - apply (IH (g0 + g j)); [done|lra|done|done].
Qed.

Lemma projection_sum (A B n : R) l : forall a b g0,
  foldl (fun s i => s + (n - (A * cos (angle i) + B * sin (angle i)))) g0 l
  = g0 + n * INR (length l) - A * (sumCos l a - a) - B * (sumSin l b - b).
Proof.
  induction l as [|i l IH]; intros a b g0.
  - simpl. lra.
  - cbn [foldl length]. rewrite S_INR.
    rewrite (IH (a + cos (angle i)) (b + sin (angle i))). lra.
Qed.

(** When the sum of [n] unit phasors has length [n], every one of them is
    the [n]-th part of the sum. *)
Lemma phasors_aligned l A B n :
  A = sumCos l 0 -> B = sumSin l 0 -> n = INR (length l) -> 0 < n ->
  A * A + B * B = n * n ->
  forall i, i ∈ l -> A = n * cos (angle i) /\ B = n * sin (angle i).
Proof.
  intros HA HB Hlen Hn Heq i Hi.
  set (g := fun i => n - (A * cos (angle i) + B * sin (angle i))).
  assert (Hg : forall i, i ∈ l -> 0 <= g i).
  { intros j _. unfold g.
    pose proof (projection_le A B n (angle j)). lra. }
  assert (Hsum : foldl (fun s i => s + g i) 0 l = 0).
  { unfold g. rewrite (projection_sum A B n l 0 0 0), <- HA, <- HB, <- Hlen. lra. }
  pose proof (nonneg_sum_zero g l 0 Hg (Rle_refl 0) Hsum i Hi) as Hgi.
  unfold g in Hgi. pose proof (unit_phasor (angle i)) as Hu.
  set (c := cos (angle i)) in *. set (s := sin (angle i)) in *.
  assert (Hz : (A - n * c) * (A - n * c) + (B - n * s) * (B - n * s) = 0).
  { replace ((A - n * c) * (A - n * c) + (B - n * s) * (B - n * s))
      with ((A * A + B * B) - 2 * n * (A * c + B * s) + n * n * (c * c + s * s)) by ring.
    rewrite Hu, Heq. replace (A * c + B * s) with n by lra. ring. }
  pose proof (Rle_0_sqr (A - n * c)) as H1. pose proof (Rle_0_sqr (B - n * s)) as H2.
  unfold Rsqr in *. split; nra.
Qed.

End Phasors.

Section PhasorAngles.
Local Open Scope R_scope.

(** Two phases with the same phasor in the interval open at [-PI] are equal. *)
Lemma phasor_inj a b :
  cos a = cos b -> sin a = sin b ->
  - PI < a <= PI -> - PI < b <= PI -> a = b.
Proof.
  pose proof PI_RGT_0 as Hpi. intros Hc Hs Ha Hb.
  assert (Hcd : cos (a - b) = 1).
  { rewrite cos_minus, Hc, Hs. apply unit_phasor. }
  assert (Hsd : sin ((a - b) / 2) = 0).
  { replace (a - b) with (2 * ((a - b) / 2)) in Hcd by lra.
    rewrite cos_2a_sin in Hcd. nra. }
  destruct (Rle_dec 0 ((a - b) / 2)) as [Hpos|Hneg].
  - destruct (sin_eq_O_2PI_0 ((a - b) / 2)) as [H|[H|H]]; [done|lra|done|lra..].
  - assert (Hsn : sin (- ((a - b) / 2)) = 0) by (rewrite sin_neg; lra).
    destruct (sin_eq_O_2PI_0 (- ((a - b) / 2))) as [H|[H|H]]; [lra|lra|done|lra..].
Qed.

End PhasorAngles.

(* ================================================================= *)
(** ** The attention field: one step *)

Section AttentionStep.
Import AttentionField.
Local Open Scope R_scope.

Variable rnd : draws.

Lemma updateStimulusField_frame m :
  let m' := updateStimulusField m in
  theta m' = theta m /\ N m' = N m /\ dt m' = dt m /\ time m' = time m /\
  history m' = history m.
Proof.
  unfold updateStimulusField. destruct (foldl _ _ (stimulusObjects m)) as [objs fields].
  done.
Qed.


(** [step()] ends with [recordHistory()] on the state whose phases were
    written by the last loop. *)
Lemma attention_step_shape m c :
  exists mm k1 k2 k3 k4,
    (step rnd m c).1 = recordHistory mm /\
    history mm = history m /\ N mm = N m /\
    theta mm = combine (N m) (dt m) (theta m) (theta m) k1 k2 k3 k4.
Proof.
  unfold step.
  destruct (updateStimulusField_frame m) as (Hth & HN & Hdt & Hti & Hh).
  set (m1 := updateStimulusField m) in *.
  destruct (computeDerivatives rnd m1 (theta m1) c) as [k1 c1].
  destruct (computeDerivatives rnd m1 _ c1) as [k2 c2].
  destruct (computeDerivatives rnd m1 _ c2) as [k3 c3].
  destruct (computeDerivatives rnd m1 _ c3) as [k4 c4].
  eexists _, k1, k2, k3, k4. cbn [fst]. split; [reflexivity|].
  cbn [history N theta set_time set_theta]. rewrite Hh, HN, Hth, Hdt. done.
Qed.


(** What [recordHistory()] does to the three sequences: below 500 frames it
    appends; at 500 it appends and drops the oldest frame of each. *)
Lemma recordHistory_sequences m :
  histBounded (history m) ->
  let h := history m in
  let h' := history (recordHistory m) in
  let k := if decide (length (h_time h) = 500%nat) then 1%nat else 0%nat in
  h_time h' = drop k (h_time h) ++ [time m] /\
  h_attentionMap h' = drop k (h_attentionMap h) ++ [calculateAttentionMap m] /\
  h_trackedObjects h' = drop k (h_trackedObjects h) ++ [detectTrackedObjects m].
Proof.
  intros (Ha & Htr & Hle). unfold recordHistory.
  cbn [h_time h_attentionMap h_trackedObjects].
  rewrite length_app. cbn [length].
  destruct (Nat.ltb_spec 500 (length (h_time (history m)) + 1)) as [Hlt|Hge];
    cbn [history set_history h_time h_attentionMap h_trackedObjects];
    case_decide as Hd; try lia.
  - rewrite !drop_app_le; [done|lia..].
  - by rewrite !drop_0.
Qed.

Lemma recordHistory_bounded m :
  histBounded (history m) -> histBounded (history (recordHistory m)).
Proof.
  intros Hb. destruct (recordHistory_sequences m Hb) as (Ht & Ha & Htr).
  destruct Hb as (Hla & Hltr & Hle). cbn zeta in *.
  unfold histBounded. rewrite Ht, Ha, Htr, !length_app, !length_drop. cbn [length].
  case_decide; lia.
Qed.

Lemma attention_step_bounded m c :
  histBounded (history m) -> histBounded (history (step rnd m c).1).
Proof.
  intros Hb.
  destruct (attention_step_shape m c) as (mm & k1 & k2 & k3 & k4 & -> & Hh & _).
  apply recordHistory_bounded. by rewrite Hh.
Qed.

Lemma attention_steps_S n m c :
  steps rnd (S n) m c = steps rnd n (step rnd m c).1 (step rnd m c).2.
Proof. simpl. by destruct (step rnd m c). Qed.

Lemma attention_steps_bounded n : forall m c,
  histBounded (history m) -> histBounded (history (steps rnd n m c).1).
Proof.
  induction n as [|n IH]; intros m c Hb; [done|].
  rewrite attention_steps_S. by apply IH, attention_step_bounded.
Qed.



Lemma attention_create_history config c :
  history (create rnd config c).1 = noHistory.
Proof.
  unfold create, initialize. by destruct (foldl _ _ _) as [[[th om] st] c'].
Qed.

End AttentionStep.

(* ================================================================= *)
(** ** What every generator returns *)

Section Generators.
Import Topology.

Lemma foldl_invariant {A B : Type} (P : A -> Prop) (f : A -> B -> A) (l : list B) :
  forall a, P a -> (forall a x, x ∈ l -> P a -> P (f a x)) -> P (foldl f a l).
Proof.
  induction l as [|x l IH]; intros a Ha Hf; simpl; [done|].
  apply IH; [apply Hf; [by left|done]|].
  intros a' y Hy. apply Hf. by right.
Qed.

(** Nested loops visit the cells of the flattened list of pairs. *)
Lemma foldl_nested {A : Type} (g : nat -> A -> nat -> A) (h : nat -> list nat)
    (l : list nat) : forall a,
  foldl (fun a i => foldl (g i) a (h i)) a l
  = foldl (fun a (p : nat * nat) => g p.1 a p.2) a (i ← l; (fun j => (i, j)) <$> h i).
Proof.
  induction l as [|i l IH]; intros a; simpl; [done|].
  rewrite foldl_app, <- IH. f_equal.
  generalize (h i). intros js. revert a.
  induction js as [|j js IHj]; intros a; simpl; [done|]. apply IHj.
Qed.

Lemma mod_shift_ne N i j : (i < N)%nat -> (1 <= j < N)%nat -> ((i + j) mod N)%nat <> i.
Proof.
  intros Hi Hj.
  pose proof (Nat.div_mod_eq (i + j) N) as Hd.
  pose proof (Nat.mod_upper_bound (i + j) N) as Hu.
  intros Heq. rewrite Heq in Hd.
  destruct ((i + j) / N)%nat as [|q]; [lia|nia].
Qed.

Lemma rem_shift N i j :
  (i < N)%nat -> (1 <= j <= N)%nat ->
  (0 <= Z.rem (Z.of_nat i - Z.of_nat j + Z.of_nat N) (Z.of_nat N) < Z.of_nat N)%Z.
Proof.
  intros Hi Hj. rewrite Z.rem_mod_nonneg; [|lia..]. apply Z.mod_pos_bound. lia.
Qed.

Lemma rem_shift_ne N i j :
  (i < N)%nat -> (1 <= j < N)%nat ->
  Z.to_nat (Z.rem (Z.of_nat i - Z.of_nat j + Z.of_nat N) (Z.of_nat N)) <> i.
Proof.
  intros Hi Hj. rewrite Z.rem_mod_nonneg; [|lia..].
  set (x := (Z.of_nat i - Z.of_nat j + Z.of_nat N)%Z).
  pose proof (Z.div_mod x (Z.of_nat N)) as Hd.
  pose proof (Z.mod_pos_bound x (Z.of_nat N)) as Hu.
  intros Heq. assert (Hm : (x mod Z.of_nat N = Z.of_nat i)%Z) by lia.
  rewrite Hm in Hd. set (q := (x / Z.of_nat N)%Z) in *. unfold x in Hd.
  assert (Hq : (q <= 0 \/ 1 <= q)%Z) by lia.
  assert (HN : (0 < Z.of_nat N)%Z) by lia.
  destruct Hq as [Hq|Hq].
  - assert (Z.of_nat N * q <= 0)%Z by nia. lia.
  - assert (Z.of_nat N <= Z.of_nat N * q)%Z by nia. lia.
Qed.

(** The lattice phase of [createSmallWorld] returns when [k / 2 <= N], and
    without self-loops when [k / 2 < N]. *)
Lemma latticeBody_returns N i j a :
  (i < N)%nat -> (1 <= j <= N)%nat -> is_Some (latticeBody N i (Some a) j).
Proof.
  intros Hi Hj. unfold latticeBody. simpl.
  destruct (decide _); [|done].
  destruct (Z.ltb_spec (Z.rem (Z.of_nat i - Z.of_nat j + Z.of_nat N) (Z.of_nat N)) 0);
    [|done].
  pose proof (rem_shift N i j Hi Hj). lia.
Qed.

Lemma latticeBody_zeroDiagonal N i j a a' :
  (i < N)%nat -> (1 <= j < N)%nat -> undirected N a -> zeroDiagonal N a ->
  latticeBody N i (Some a) j = Some a' -> zeroDiagonal N a'.
Proof.
  intros Hi Hj Hun Hz. unfold latticeBody. simpl.
  assert (Hn1 : ((i + j) mod N < N)%nat) by (apply Nat.mod_upper_bound; lia).
  assert (Hz1 : zeroDiagonal N (link a i ((i + j) mod N))).
  { apply zeroDiagonal_aset_pair; [apply Hun|done..| |done].
    intros Heq. by apply (mod_shift_ne N i j). }
  destruct (decide _); [|by intros [= <-]].
  destruct (_ <? _)%Z; [done|]. intros [= <-].
  pose proof (rem_shift N i j Hi) as Hr.
  apply zeroDiagonal_aset_pair; [|done| | |done].
  - by apply undirected_link.
  - lia.
  - intros Heq. by apply (rem_shift_ne N i j).
Qed.

Lemma ringLattice_returns N k :
  (k / 2 <= N)%nat -> is_Some (ringLattice N k).
Proof.
  intros Hk. unfold ringLattice.
  apply (foldl_invariant (fun acc => is_Some acc)); [done|].
  intros acc i Hi Hacc. apply elem_of_seq in Hi.
  apply (foldl_invariant (fun acc => is_Some acc)); [done|].
  intros acc' j Hj [a ->]. apply elem_of_seq in Hj.
  apply latticeBody_returns; lia.
Qed.

Lemma ringLattice_zeroDiagonal N k a :
  (k / 2 < N)%nat -> ringLattice N k = Some a -> zeroDiagonal N a.
Proof.
  intros Hk. unfold ringLattice.
  set (P := fun acc : option matrix =>
              forall a, acc = Some a -> undirected N a /\ zeroDiagonal N a).
  assert (HP : P (foldl (fun acc i => foldl (latticeBody N i) acc (seq 1 (k / 2)))
                        (Some (zeros N)) (seq 0 N))).
  { apply (foldl_invariant P).
    - intros ? [= <-]. split; [apply undirected_zeros|apply zeroDiagonal_zeros].
    - intros acc i Hi Hacc. apply elem_of_seq in Hi.
      apply (foldl_invariant P); [done|].
      intros acc' j Hj Hacc' a' Ha'. apply elem_of_seq in Hj.
      destruct acc' as [a0|]; [|done]. destruct (Hacc' a0 eq_refl) as [Hun Hz].
      split.
      + eapply (latticeBody_undirected N i j (Some a0)); [lia| |done].
        by intros ? [= <-].
      + eapply latticeBody_zeroDiagonal; [| | | |done]; [lia|lia|done|done]. }
  intros Ha. by apply HP.
Qed.

(** [createRing]: always undirected; without self-loops when [k < N]. *)
Lemma createRing_undirected N k : undirected N (adjacency (createRing N k)).
Proof.
  unfold createRing. cbn [adjacency network].
  apply (foldl_invariant (undirected N)); [apply undirected_zeros|].
  intros a i Hi Ha. apply elem_of_seq in Hi.
  apply (foldl_invariant (undirected N)); [done|].
  intros a' j _ Ha'. apply undirected_link; [done|lia|].
  apply Nat.mod_upper_bound. lia.
Qed.

Lemma createRing_zeroDiagonal N k :
  (k < N)%nat -> zeroDiagonal N (adjacency (createRing N k)).
Proof.
  intros Hk. unfold createRing. cbn [adjacency network].
  set (P := fun a => undirected N a /\ zeroDiagonal N a).
  assert (HP : P (foldl (fun a i => foldl (fun a j => link a i ((i + j) mod N)%nat)
                                          a (seq 1 k)) (zeros N) (seq 0 N))).
  { apply (foldl_invariant P); [split; [apply undirected_zeros|apply zeroDiagonal_zeros]|].
    intros a i Hi Ha. apply elem_of_seq in Hi.
    apply (foldl_invariant P); [done|].
    intros a' j Hj [Hun Hz]. apply elem_of_seq in Hj.
    assert (Hm : ((i + j) mod N < N)%nat) by (apply Nat.mod_upper_bound; lia).
    split; [apply undirected_link; [done|lia|done]|].
    apply zeroDiagonal_aset_pair; [apply Hun|lia|done| |done].
    intros Heq. apply (mod_shift_ne N i j); [lia|lia|done]. }
  apply HP.
Qed.

(** [createRandom]: undirected and without self-loops, whatever the draws. *)
Lemma createRandom_sound rnd N p c :
  undirected N (adjacency (createRandom rnd N p c).1) /\
  zeroDiagonal N (adjacency (createRandom rnd N p c).1).
Proof.
  unfold createRandom.
  set (P := fun st : matrix * nat => undirected N st.1 /\ zeroDiagonal N st.1).
  match goal with |- context [foldl ?f ?a ?l] => assert (HP : P (foldl f a l)) end.
  { apply (foldl_invariant P);
      [split; [apply undirected_zeros|apply zeroDiagonal_zeros]|].
    intros [a c0] [i j] Hin [Hun Hz]. apply elem_of_pairsAbove in Hin.
    cbn [fst snd] in *. destruct (Qltb _ _); cbn [fst]; [|done].
    split; [apply undirected_link; [done|lia..]|].
    apply zeroDiagonal_aset_pair; [apply Hun|lia..|done]. }
  destruct (foldl _ _ _) as [a c']. exact HP.
Qed.

(** [createSmallWorld]: undirected whenever it returns, for draws in [0, 1);
    without self-loops when [k / 2 < N]. *)
Lemma createSmallWorld_sound rnd N k p c net c' :
  (forall n, (0 <= rnd n)%Q /\ (rnd n < 1)%Q) ->
  createSmallWorld rnd N k p c = Some (net, c') ->
  undirected N (adjacency net) /\
  ((k / 2 < N)%nat -> zeroDiagonal N (adjacency net)).
Proof.
  intros Hrnd. unfold createSmallWorld.
  destruct (ringLattice N k) as [lattice|] eqn:Hl; simpl; [|done].
  intros [= <- <-]. cbn [adjacency network].
  destruct (rewire_accounting rnd Hrnd N p lattice c) as (Hun & _ & Hz).
  { by eapply ringLattice_undirected. }
  split; [done|]. intros Hk. apply Hz. by eapply ringLattice_zeroDiagonal.
Qed.

Lemma createSmallWorld_returns rnd N k p c :
  (k / 2 <= N)%nat -> is_Some (createSmallWorld rnd N k p c).
Proof.
  intros Hk. unfold createSmallWorld.
  destruct (ringLattice_returns N k Hk) as [a ->]. done.
Qed.

(** [createAllToAll]: 1 exactly off the diagonal. *)
Lemma writeOnes_spec N (cells : list (nat * nat)) : forall a x y,
  square N a ->
  (forall e, e ∈ cells -> (e.1 < N)%nat /\ (e.2 < N)%nat) ->
  let a' := foldl (fun a (p : nat * nat) =>
                     if decide (p.1 <> p.2) then aset a p.1 p.2 1%nat else a) a cells in
  square N a' /\
  aget a' x y = if decide ((x, y) ∈ cells /\ x <> y) then 1%nat else aget a x y.
Proof.
  induction cells as [|[i j] cells IH]; intros a x y Hsq Hin; cbn zeta.
  - cbn [foldl]. split; [done|].
    destruct (decide ((x, y) ∈ [] /\ x <> y)) as [[Hd _]|_]; [|done].
    by apply elem_of_nil in Hd.
  - cbn [foldl fst snd].
    destruct (Hin (i, j) (list_elem_of_here _ _)) as [Hi Hj]. cbn [fst snd] in *.
    assert (Hin' : forall e, e ∈ cells -> (e.1 < N)%nat /\ (e.2 < N)%nat).
    { intros e He. apply Hin. by right. }
    set (a1 := if decide (i <> j) then aset a i j 1%nat else a).
    assert (Hsq1 : square N a1).
    { unfold a1. destruct (decide _); [by apply square_aset|done]. }
    destruct (IH a1 x y Hsq1 Hin') as [Hsq' Hget]. cbn zeta in *.
    split; [done|]. rewrite Hget.
    assert (H1 : aget a1 x y = if decide ((x, y) = (i, j) /\ x <> y)
                               then 1%nat else aget a x y).
    { unfold a1. destruct (decide (i <> j)) as [Hne|Heq].
      - destruct (decide ((i, j) = (x, y))) as [Hc|Hc].
        + inversion Hc; subst. rewrite (aget_aset_eq N); [|done..].
          destruct (decide ((x, y) = (x, y) /\ x <> y)) as [|Hd]; [done|].
          exfalso. by apply Hd.
        + rewrite aget_aset_ne; [|done].
          destruct (decide ((x, y) = (i, j) /\ x <> y)) as [[Hd _]|]; [|done].
          congruence.
      - destruct (decide ((x, y) = (i, j) /\ x <> y)) as [[Hd Hxy]|]; [|done].
        inversion Hd; subst. exfalso. by apply Heq. }
    rewrite H1.
    destruct (decide ((x, y) ∈ cells /\ x <> y)) as [[Hm Hxy]|Hm];
      destruct (decide ((x, y) ∈ (i, j) :: cells /\ x <> y)) as [[Hm' Hxy']|Hm'];
      try done.
    + exfalso. apply Hm'. split; [by right|done].
    + destruct (decide ((x, y) = (i, j) /\ x <> y)) as [|Hc]; [done|].
      exfalso. apply elem_of_cons in Hm' as [Hm'|Hm']; [by apply Hc|by apply Hm].
    + destruct (decide ((x, y) = (i, j) /\ x <> y)) as [[Hc Hxy]|]; [|done].
      exfalso. apply Hm'. split; [rewrite Hc; by left|done].
Qed.

Lemma createAllToAll_cells N x y :
  (x < N)%nat -> (y < N)%nat ->
  aget (adjacency (createAllToAll N)) x y = if decide (x <> y) then 1%nat else 0%nat.
Proof.
  intros Hx Hy. unfold createAllToAll. cbn [adjacency network].
  rewrite (foldl_nested
             (fun i a j => if decide (i <> j) then aset a i j 1%nat else a)
             (fun _ => seq 0 N)).
  destruct (writeOnes_spec N (i ← seq 0 N; (fun j => (i, j)) <$> seq 0 N)
              (zeros N) x y) as [_ Hget].
  - apply square_zeros.
  - intros [i j] He. apply list_elem_of_bind in He as (i' & He & Hi').
    apply list_elem_of_fmap in He as (j' & Heq & Hj'). inversion Heq; subst.
    apply elem_of_seq in Hi', Hj'. simpl. lia.
  - cbn zeta in Hget. rewrite Hget, aget_zeros.
    assert (Hin : (x, y) ∈ (i ← seq 0 N; (fun j => (i, j)) <$> seq 0 N)).
    { apply list_elem_of_bind. exists x. split; [|apply elem_of_seq; lia].
      apply list_elem_of_fmap. exists y. split; [done|apply elem_of_seq; lia]. }
    destruct (decide ((x, y) ∈ (i ← seq 0 N; (fun j => (i, j)) <$> seq 0 N) /\ x <> y))
      as [[_ Hxy]|Hn]; destruct (decide (x <> y)) as [Hxy'|Hxy']; try done.
    exfalso. by apply Hn.
Qed.

Lemma createAllToAll_sound N :
  symmetric N (adjacency (createAllToAll N)) /\
  binary N (adjacency (createAllToAll N)) /\
  zeroDiagonal N (adjacency (createAllToAll N)).
Proof.
  split; [|split].
  - intros x y Hx Hy. rewrite !createAllToAll_cells; [|done..].
    repeat case_decide; congruence.
  - intros x y Hx Hy. rewrite createAllToAll_cells; [|done..].
    case_decide; auto.
  - intros x Hx. rewrite createAllToAll_cells; [|done..].
    case_decide; congruence.
Qed.

(** [createScaleFree]: every chosen target is an older node. *)
Lemma roulette_bound i degrees rand : forall js targets sum,
  (forall t, t ∈ targets -> (t < i)%nat) -> (forall j, j ∈ js -> (j < i)%nat) ->
  forall t, t ∈ roulette degrees rand targets js sum -> (t < i)%nat.
Proof.
  induction js as [|j js IH]; intros targets sum Ht Hjs t; simpl; [apply Ht|].
  destruct (_ && _).
  - intros Hin. apply elem_of_app in Hin as [Hin|Hin]; [by apply Ht|].
    apply list_elem_of_singleton in Hin as ->. apply Hjs. by left.
  - apply IH; [done|]. intros j' Hj'. apply Hjs. by right.
Qed.

Lemma setAdd_bound i t targets :
  (t < i)%nat -> (forall x, x ∈ targets -> (x < i)%nat) ->
  forall x, x ∈ setAdd t targets -> (x < i)%nat.
Proof.
  intros Ht Hts x. unfold setAdd. destruct (bool_decide _); [apply Hts|].
  intros Hin. apply elem_of_app in Hin as [Hin|Hin]; [by apply Hts|].
  by apply list_elem_of_singleton in Hin as ->.
Qed.

Lemma chooseTargets_bound rnd degrees total m i fuel :
  (forall n, (0 <= rnd n)%Q /\ (rnd n < 1)%Q) ->
  forall targets c targets' c',
    (forall t, t ∈ targets -> (t < i)%nat) ->
    chooseTargets fuel rnd degrees total m i targets c = Some (targets', c') ->
    forall t, t ∈ targets' -> (t < i)%nat.
Proof.
  intros Hrnd. induction fuel as [|fuel IH]; intros targets c targets' c' Ht; simpl.
  - destruct (_ <? _)%nat; [done|]. by intros [= <- <-].
  - destruct (Nat.ltb_spec (length targets) (Nat.min m i)) as [Hlt|_];
      [|by intros [= <- <-]].
    set (ts := roulette _ _ _ _ _).
    assert (Hts : forall t, t ∈ ts -> (t < i)%nat).
    { apply roulette_bound; [done|]. intros j Hj. apply elem_of_seq in Hj. lia. }
    destruct (_ <? _)%nat; apply IH; [|done].
    apply setAdd_bound; [|done]. apply uniformIndex_lt; [apply Hrnd..|lia].
Qed.

Lemma attachNode_sound fuel rnd m N acc i :
  (forall n, (0 <= rnd n)%Q /\ (rnd n < 1)%Q) -> (i < N)%nat ->
  (forall a c, acc = Some (a, c) -> undirected N a /\ zeroDiagonal N a) ->
  forall a c, attachNode fuel rnd m acc i = Some (a, c) ->
    undirected N a /\ zeroDiagonal N a.
Proof.
  intros Hrnd Hi Hacc a c. unfold attachNode.
  destruct acc as [[a0 c0]|]; simpl; [|done].
  destruct (Hacc a0 c0 eq_refl) as [Hun Hz].
  destruct (chooseTargets _ _ _ _ _ _ _ _) as [[targets c1]|] eqn:Hch; simpl; [|done].
  intros [= <- <-].
  assert (Hts : forall t, t ∈ targets -> (t < i)%nat).
  { eapply chooseTargets_bound; [done| |done]. intros t Ht. by apply elem_of_nil in Ht. }
  apply (foldl_invariant (fun a => undirected N a /\ zeroDiagonal N a)); [done|].
  intros a' t Ht [Hun' Hz']. specialize (Hts t Ht).
  split; [apply undirected_link; [done|lia..]|].
  apply zeroDiagonal_aset_pair; [apply Hun'|lia..|done].
Qed.

(** [createScaleFree]: undirected and without self-loops whenever it
    returns, for draws in [0, 1). *)
Lemma createScaleFree_sound fuel rnd N m c net c' :
  (forall n, (0 <= rnd n)%Q /\ (rnd n < 1)%Q) ->
  createScaleFree fuel rnd N m c = Some (net, c') ->
  undirected N (adjacency net) /\ zeroDiagonal N (adjacency net).
Proof.
  intros Hrnd. unfold createScaleFree.
  set (m0 := Nat.min (m + 1) N).
  set (seed := foldl _ (zeros N) (pairsAbove m0)).
  assert (Hseed : undirected N seed /\ zeroDiagonal N seed).
  { apply (foldl_invariant (fun a => undirected N a /\ zeroDiagonal N a));
      [split; [apply undirected_zeros|apply zeroDiagonal_zeros]|].
    intros a [i j] Hin [Hun Hz]. apply elem_of_pairsAbove in Hin. cbn [fst snd].
    split; [apply undirected_link; [done|lia..]|].
    apply zeroDiagonal_aset_pair; [apply Hun|lia..|done]. }
  set (P := fun acc : option (matrix * nat) =>
              forall a c, acc = Some (a, c) -> undirected N a /\ zeroDiagonal N a).
  assert (HP : P (foldl (attachNode fuel rnd m) (Some (seed, c)) (seq m0 (N - m0)))).
  { apply (foldl_invariant P); [by intros ? ? [= <- <-]|].
    intros acc i Hi Hacc a c0. apply elem_of_seq in Hi.
    apply attachNode_sound; [done|lia|done]. }
  destruct (foldl (attachNode fuel rnd m) _ _) as [[a c1]|]; simpl; [|done].
  intros [= <- <-]. cbn [adjacency network]. by apply (HP a c1).
Qed.

End Generators.

(* ================================================================= *)
(** ** The oscillator ensemble: history, phases, order parameter *)

Section KuramotoClaims.
Import Kuramoto.
Local Open Scope R_scope.

(** C1 (as amended).  [recordHistory] only pushes: after [n] calls of
    [step()] each of [history.time], [history.orderParameter] and
    [history.phases] consists of its former entries followed by exactly [n]
    new ones.  Nothing is evicted and [maxHistoryLength] keeps its value
    without being consulted. *)
Theorem kuramoto_history_grows (rnd : draws) (n : nat) (m : KuramotoModel) (c : nat) :
  let m' := (steps rnd n m c).1 in
  (exists ts, h_time (history m') = h_time (history m) ++ ts /\ length ts = n) /\
  (exists rs, h_orderParameter (history m') = h_orderParameter (history m) ++ rs
              /\ length rs = n) /\
  (exists ps, h_phases (history m') = h_phases (history m) ++ ps /\ length ps = n) /\
  maxHistoryLength m' = maxHistoryLength m.
Proof.
  destruct (steps_shape rnd n m c) as (_ & _ & _ & _ & _ & _ & Hmax & Ht & Hr & Hp).
  repeat split; done.
Qed.

(** C1, counterexample.  A freshly constructed ensemble stepped 10001 times
    holds 10001 history entries, more than the cap of 10000. *)
Lemma kuramoto_history_exceeds_cap :
  let m0 := (create halves emptyConfig 0).1 in
  let m' := (steps halves (Z.to_nat 10001) m0 0).1 in
  maxHistoryLength m' = 10000%Z /\
  (Z.of_nat (length (h_time (history m'))) > 10000)%Z /\
  (Z.of_nat (length (h_orderParameter (history m'))) > 10000)%Z /\
  (Z.of_nat (length (h_phases (history m'))) > 10000)%Z.
Proof.
  intros m0 m'.
  destruct (create_shape halves emptyConfig 0) as (Hh & Hmax & _).
  destruct (steps_shape halves (Z.to_nat 10001) m0 0)
    as (_ & _ & _ & _ & _ & _ & Hmax' & (ts & Ht & Hlt) & (rs & Hr & Hlr)
        & (ps & Hp & Hlp)).
  fold m0 in Hh, Hmax. fold m' in Hmax', Ht, Hr, Hp.
  rewrite Ht, Hr, Hp, Hh, Hmax'. cbn [noHistory h_time h_orderParameter h_phases app].
  rewrite Hlt, Hlr, Hlp. repeat split; lia.
Qed.


(** C9.  [setNetwork] replaces the adjacency field only, and
    [updateParameters] with any of the keys K, noiseLevel, phaseLag, dt and no
    change of [N] assigns those scalars only: the phases, the frequencies, the
    clock and the history are left as they were (and nothing is drawn). *)
Theorem setNetwork_updateParameters_frame (rnd : draws)
    (adjacencyMatrix : option (list (list R))) (params : Config)
    (m : KuramotoModel) (c : nat) :
  cfg_N params = None \/ cfg_N params = Some (N m) ->
  let m1 := setNetwork adjacencyMatrix m in
  let m2 := (updateParameters rnd params m c).1 in
  (adjacency m1 = adjacencyMatrix /\ theta m1 = theta m /\ omega m1 = omega m /\
   time m1 = time m /\ history m1 = history m) /\
  (theta m2 = theta m /\ omega m2 = omega m /\ time m2 = time m /\
   history m2 = history m /\ N m2 = N m /\ adjacency m2 = adjacency m /\
   (updateParameters rnd params m c).2 = c).
Proof.
  intros HN. split; [done|]. unfold updateParameters.
  destruct HN as [->| ->]; [done|].
  destruct (decide (N m <> N m)); done.
Qed.

(** C9, witness: new values for all four scalars, the same [N]. *)
Lemma setNetwork_updateParameters_frame_witness :
  let params := {| cfg_N := Some 1%nat; cfg_K := Some 3; cfg_dt := Some 0.01;
                   cfg_noiseLevel := Some 0.5; cfg_phaseLag := Some 1 |} in
  let m2 := (updateParameters halves params restingModel 0).1 in
  theta m2 = [0] /\ omega m2 = [0] /\ time m2 = 0 /\ history m2 = noHistory /\
  K m2 = 3.
Proof.
  intros params m2.
  destruct (setNetwork_updateParameters_frame halves None params restingModel 0)
    as [_ (Hth & Hom & Hti & Hh & _)].
  - right. reflexivity.
  - fold m2 in Hth, Hom, Hti, Hh. repeat split; done.
Defined.

End KuramotoClaims.

(* ================================================================= *)
(** ** Both engines: the phase wrap *)

Section PhaseWrapClaims.
Local Open Scope R_scope.



End PhaseWrapClaims.

(* ================================================================= *)
(** ** The attention field: history and stimulus objects *)

Section AttentionClaims.
Import AttentionField.
Local Open Scope R_scope.

(** C6.  The constructor starts from three empty sequences; from sequences
    of equal length at most 500, any number of [step()] calls leaves them of
    equal length at most 500; and [recordHistory()] appends one frame to each
    of the three, dropping the oldest frame of all three together exactly when
    500 frames were already held. *)
Theorem attention_history_bound (rnd : draws) (config : Config) (n : nat)
    (m : AttentionFieldModel) (c c0 : nat) :
  histBounded (history m) ->
  histBounded (history (create rnd config c0).1) /\
  histBounded (history (recordHistory m)) /\
  histBounded (history (steps rnd n m c).1) /\
  (let k := if decide (length (h_time (history m)) = 500%nat) then 1%nat else 0%nat in
   h_time (history (recordHistory m)) = drop k (h_time (history m)) ++ [time m] /\
   h_attentionMap (history (recordHistory m))
     = drop k (h_attentionMap (history m)) ++ [calculateAttentionMap m] /\
   h_trackedObjects (history (recordHistory m))
     = drop k (h_trackedObjects (history m)) ++ [detectTrackedObjects m]).
Proof.
  intros Hb. split; [|split; [|split]].
  - rewrite attention_create_history. unfold histBounded, noHistory.
    cbn [h_time h_attentionMap h_trackedObjects length]. lia.
  - by apply recordHistory_bounded.
  - by apply attention_steps_bounded.
  - by apply recordHistory_sequences.
Qed.

(** C6, witness: the one-cell field, stepped 3 times. *)
Lemma attention_history_bound_witness :
  histBounded (history (steps halves 3 tinyField 0).1) /\
  histBounded (history (recordHistory tinyField)).
Proof.
  assert (Hb : histBounded (history tinyField)).
  { unfold histBounded. cbn [tinyField history noHistory h_time h_attentionMap
                             h_trackedObjects length]. lia. }
  destruct (attention_history_bound halves emptyFieldConfig 3 tinyField 0 0 Hb)
    as (_ & Hr & Hs & _).
  split; assumption.
Defined.

(** C10.  [addStimulusObject] appends one object, and every numeric key goes
    through [||]: an explicit [x = 0] or [y = 0] is stored as [gridSize / 2]
    and an explicit [intensity = 0] as 1.  Hence the stored intensity is never
    0, and on a grid of non-zero size neither stored coordinate is 0. *)
Theorem addStimulusObject_zero_defaults (rnd : draws) (obj : ObjectConfig)
    (m : AttentionFieldModel) (c : nat) :
  exists o,
    stimulusObjects (addStimulusObject rnd obj m c).1 = stimulusObjects m ++ [o] /\
    (in_x obj = Some 0 -> obj_x o = INR (gridSize m) / 2) /\
    (in_y obj = Some 0 -> obj_y o = INR (gridSize m) / 2) /\
    (in_intensity obj = Some 0 -> obj_intensity o = 1) /\
    (gridSize m <> 0%nat -> obj_x o <> 0 /\ obj_y o <> 0) /\
    obj_intensity o <> 0.
Proof.
  unfold addStimulusObject.
  destruct (match in_id obj with
            | Some EmptyString | None => (RandomId (rnd c), S c)
            | Some s => (GivenId s, c)
            end) as [i c'].
  eexists. cbn [fst stimulusObjects set_stimulusObjects]. split; [reflexivity|].
  cbn [obj_x obj_y obj_intensity].
  assert (Hor : forall v d, d <> 0 -> orElse v d <> 0).
  { intros v d Hd. unfold orElse. destruct v as [x|]; [|done].
    by destruct (Req_dec_T x 0). }
  assert (Hz : forall v d, v = Some 0 -> orElse v d = d).
  { intros v d ->. unfold orElse. destruct (Req_dec_T 0 0); [done|lra]. }
  repeat split; try (by apply Hz).
  - apply Hor. apply not_0_INR in H. lra.
  - apply Hor. apply not_0_INR in H. lra.
  - apply Hor. lra.
Qed.

(** C10, witness: [{x: 0, y: 0, intensity: 0}] on the one-cell field is
    stored at [(1/2, 1/2)] with intensity 1. *)
Lemma addStimulusObject_zero_defaults_witness :
  exists o,
    stimulusObjects (addStimulusObject halves zeroObject tinyField 0).1 = [o] /\
    obj_x o = 1 / 2 /\ obj_y o = 1 / 2 /\ obj_intensity o = 1.
Proof.
  destruct (addStimulusObject_zero_defaults halves zeroObject tinyField 0)
    as (o & Hs & Hx & Hy & Hi & _).
  exists o. split; [exact Hs|].
  split; [exact (Hx eq_refl)|]. split; [exact (Hy eq_refl)|exact (Hi eq_refl)].
Defined.

End AttentionClaims.

(* ================================================================= *)
(** ** Run metrics *)

Section RunMetricsClaims.
Import RunMetrics.
Local Open Scope R_scope.

(** C7.  On a missing history, a history without [orderParameter], or an
    empty [orderParameter], [calculateRunMetrics] returns the all-zero summary
    without throwing; and on a series of fewer than 100 points
    [checkConvergence] and [detectOscillation] are false, so that every summary
    [calculateRunMetrics] returns for such a series has [converged] and
    [oscillating] false. *)
Theorem runMetrics_short_series (h : HistoryArg) (r : list R) (final std : R) :
  (length r < 100)%nat ->
  let zero := {| finalR := 0; meanR := 0; stdR := 0; minR := 0; maxR := 0;
                 settlingTime := None; converged := false; oscillating := false |} in
  calculateRunMetrics None = Returns zero /\
  (ha_orderParameter h = None \/ ha_orderParameter h = Some [] ->
   calculateRunMetrics (Some h) = Returns zero) /\
  checkConvergence r final std = false /\
  detectOscillation r = false /\
  (ha_orderParameter h = Some r ->
   match calculateRunMetrics (Some h) with
   | Returns mt => converged mt = false /\ oscillating mt = false
   | Throws => True
   end).
Proof.
  intros Hlen zero.
  assert (Hc : forall a b, checkConvergence r a b = false).
  { intros a b. unfold checkConvergence.
    destruct (Nat.ltb_spec (length r) 100); [done|lia]. }
  assert (Ho : detectOscillation r = false).
  { unfold detectOscillation.
    destruct (Nat.ltb_spec (length r) 100); [done|lia]. }
  split; [done|]. split; [|split; [apply Hc|split; [done|]]].
  - intros [Hn|Hn]; unfold calculateRunMetrics; by rewrite Hn.
  - intros Hr. unfold calculateRunMetrics. rewrite Hr.
    destruct r as [|x r']; [done|].
    destruct (calculateSettlingTime _ _ _); [|done].
    cbn [converged oscillating]. split; [apply Hc|apply Ho].
Qed.

(** C7, witness: a series of three samples. *)
Lemma runMetrics_short_series_witness :
  checkConvergence [0.2; 0.5; 0.4] 0.4 0.1 = false /\
  detectOscillation [0.2; 0.5; 0.4] = false /\
  match calculateRunMetrics (Some shortHistory) with
  | Returns mt => converged mt = false /\ oscillating mt = false
  | Throws => True
  end.
Proof.
  destruct (runMetrics_short_series shortHistory [0.2; 0.5; 0.4] 0.4 0.1)
    as (_ & _ & Hc & Ho & Hm).
  - simpl. lia.
  - split; [exact Hc|]. split; [exact Ho|]. exact (Hm eq_refl).
Defined.

End RunMetricsClaims.

(* ================================================================= *)
(** ** The topology generators: edges and self-loops *)

Section TopologyClaims.
Import Topology.

(** C2 (as amended).  For draws in [0, 1), whenever [createSmallWorld]
    returns, its matrix is that of the rewiring phase run on the ring lattice,
    and the edges of the result together with the edges that the rewiring
    removed without finding a replacement within its 100 tries are exactly the
    edges of the lattice: the rewiring never adds to the edge count, and keeps
    it when no rewired edge runs out of tries. *)
Theorem smallWorld_edge_accounting (rnd : draws) (N k : nat) (rewiringProb : Q)
    (c : nat) (net : Network) (c' : nat) :
  (forall n, (0 <= rnd n)%Q /\ (rnd n < 1)%Q) ->
  createSmallWorld rnd N k rewiringProb c = Some (net, c') ->
  exists lattice,
    ringLattice N k = Some lattice /\
    let st := rewire rnd N rewiringProb lattice c in
    adjacency net = rw_adjacency st /\
    length (edges net) = edgeCount (adjacency net) N /\
    (edgeCount (adjacency net) N + rw_dropped st = edgeCount lattice N)%nat /\
    (edgeCount (adjacency net) N <= edgeCount lattice N)%nat /\
    (rw_dropped st = 0%nat -> edgeCount (adjacency net) N = edgeCount lattice N).
Proof.
  intros Hrnd. unfold createSmallWorld.
  destruct (ringLattice N k) as [lattice|] eqn:Hl; simpl; [|done].
  intros [= <- <-]. exists lattice. split; [done|].
  destruct (rewire_accounting rnd Hrnd N rewiringProb lattice c) as (_ & Hacc & _).
  { by eapply ringLattice_undirected. }
  cbn zeta in *. cbn [adjacency edges network].
  repeat split; [lia..].
Qed.

(** C2, witness: six nodes, two neighbours each, every edge rewired, every
    draw one half. *)
Lemma smallWorld_edge_accounting_witness :
  exists net c' lattice,
    createSmallWorld halves 6 2 1 0 = Some (net, c') /\
    ringLattice 6 2 = Some lattice /\
    (edgeCount (adjacency net) 6
     + rw_dropped (rewire halves 6 1 lattice 0) = edgeCount lattice 6)%nat.
Proof.
  destruct (createSmallWorld halves 6 2 1 0) as [[net c']|] eqn:Hc;
    [|vm_compute in Hc; discriminate].
  destruct (smallWorld_edge_accounting halves 6 2 1 0 net c')
    as (lattice & Hl & _ & _ & Hacc & _).
  - intros n. split; [vm_compute; discriminate|vm_compute; reflexivity].
  - exact Hc.
  - exists net, c', lattice. split; [reflexivity|]. split; [exact Hl|exact Hacc].
Defined.

(** C2, counterexample.  Three nodes in a ring, every edge rewired, every draw
    0: the lattice has 3 edges and the result has 1.  Node 0 only ever draws
    itself as a target, so both of its edges are removed for good. *)
Lemma smallWorld_loses_edges :
  exists lattice net c',
    ringLattice 3 2 = Some lattice /\
    createSmallWorld zeroDraws 3 2 1 0 = Some (net, c') /\
    edgeCount lattice 3 = 3%nat /\
    edgeCount (adjacency net) 3 = 1%nat /\
    adjacency net = [[0; 1; 0]; [1; 0; 0]; [0; 0; 0]]%nat.
Proof.
  eexists _, _, _. split; [vm_compute; reflexivity|].
  split; [vm_compute; reflexivity|]. split; [|split]; vm_compute; reflexivity.
Qed.

(** C8, at the failing input.  [createRing(2)] with its default [k = 2], and
    [createSmallWorld(2)] with its defaults [k = 4], [rewiringProb = 0.1] on
    draws that rewire nothing, return matrices with 1 on the diagonal; so do
    [createRing(1)] and [createSmallWorld(1)]. *)
Theorem ring_generators_self_loop :
  adjacency (createRing 2 ring_k) = [[1; 1]; [1; 1]]%nat /\
  ~ zeroDiagonal 2 (adjacency (createRing 2 ring_k)) /\
  adjacency (createRing 1 ring_k) = [[1%nat]] /\
  (exists net c',
     createSmallWorld halves 2 smallWorld_k smallWorld_rewiringProb 0 = Some (net, c')
     /\ adjacency net = [[1; 1]; [1; 1]]%nat
     /\ ~ zeroDiagonal 2 (adjacency net)) /\
  ringLattice 1 smallWorld_k = Some [[1%nat]].
Proof.
  split; [vm_compute; reflexivity|]. split.
  { intros Hz. specialize (Hz 0%nat). vm_compute in Hz.
    assert (H : (0 < 2)%nat) by lia. specialize (Hz H). discriminate. }
  split; [vm_compute; reflexivity|]. split; [|vm_compute; reflexivity].
  eexists _, _. split; [vm_compute; reflexivity|]. split; [reflexivity|].
  intros Hz. specialize (Hz 0%nat). vm_compute in Hz.
  assert (H : (0 < 2)%nat) by lia. specialize (Hz H). discriminate.
Qed.

End TopologyClaims.

(* ================================================================= *)
(** ** More on the generators: which cells are set *)

Section GeneratorCells.
Import Topology.

Lemma filter_all {A : Type} (P : A -> Prop) `{!forall x, Decision (P x)} (l : list A) :
  (forall x, x ∈ l -> P x) -> filter P l = l.
Proof.
  induction l as [|x l IH]; intros Hall; [done|].
  rewrite filter_cons_True; [|apply Hall; by left].
  f_equal. apply IH. intros y Hy. apply Hall. by right.
Qed.

Lemma filter_none {A : Type} (P : A -> Prop) `{!forall x, Decision (P x)} (l : list A) :
  (forall x, x ∈ l -> ~ P x) -> filter P l = [].
Proof.
  induction l as [|x l IH]; intros Hall; [done|].
  rewrite filter_cons_False; [|apply Hall; by left].
  apply IH. intros y Hy. apply Hall. by right.
Qed.

Lemma length_row (i : nat) (js : list nat) :
  length (j ← js; [(i, j)]) = length js.
Proof.
  induction js as [|j js IH]; [done|].
  rewrite bind_cons, length_app, IH. done.
Qed.

Lemma length_pairs_prefix N n :
  (n <= N)%nat ->
  (2 * length (i ← seq 0 n; j ← seq (S i) (N - S i); [(i, j)]) + n * (n + 1)
   = 2 * n * N)%nat.
Proof.
  induction n as [|n IH]; intros Hn; [done|].
  rewrite seq_S, bind_app, length_app. cbn [plus].
  rewrite bind_cons. change ([] ≫= _) with (@nil (nat * nat)).
  rewrite app_nil_r, length_row, length_seq.
  specialize (IH ltac:(lia)). nia.
Qed.

(** There are [N (N - 1) / 2] pairs [i < j < N]. *)
Lemma length_pairsAbove N : (2 * length (pairsAbove N) = N * (N - 1))%nat.
Proof.
  pose proof (length_pairs_prefix N N (Nat.le_refl N)) as H.
  unfold pairsAbove. destruct N; [done|]. nia.
Qed.

(** What a run of [link]s sets: the listed cells and their mirror images. *)
Lemma linkAll_spec N (cells : list (nat * nat)) : forall a x y,
  square N a ->
  (forall e, e ∈ cells -> (e.1 < N)%nat /\ (e.2 < N)%nat) ->
  let a' := foldl (fun a (e : nat * nat) => link a e.1 e.2) a cells in
  square N a' /\
  aget a' x y = if decide ((x, y) ∈ cells \/ (y, x) ∈ cells) then 1%nat else aget a x y.
Proof.
  induction cells as [|[i j] cells IH]; intros a x y Hsq Hin; cbn zeta.
  - cbn [foldl]. split; [done|].
    destruct (decide ((x, y) ∈ [] \/ (y, x) ∈ [])) as [[Hd|Hd]|_]; [| |done];
      by apply elem_of_nil in Hd.
  - cbn [foldl fst snd].
    destruct (Hin (i, j) (list_elem_of_here _ _)) as [Hi Hj]. cbn [fst snd] in *.
    assert (Hin' : forall e, e ∈ cells -> (e.1 < N)%nat /\ (e.2 < N)%nat).
    { intros e He. apply Hin. by right. }
    assert (Hsq1 : square N (link a i j)) by by do 2 apply square_aset.
    destruct (IH (link a i j) x y Hsq1 Hin') as [Hsq' Hget]. cbn zeta in *.
    split; [done|]. rewrite Hget. unfold link.
    rewrite (aget_aset_pair N); [|done..].
    destruct (decide ((x, y) ∈ cells \/ (y, x) ∈ cells)) as [Hm|Hm];
      destruct (decide ((x, y) ∈ (i, j) :: cells \/ (y, x) ∈ (i, j) :: cells))
        as [Hm'|Hm']; try done.
    + exfalso. apply Hm'. destruct Hm; [left|right]; by right.
    + destruct (decide ((x, y) = (i, j) \/ (x, y) = (j, i))) as [|Hc]; [done|].
      exfalso. destruct Hm' as [Hm'|Hm'];
        apply elem_of_cons in Hm' as [Hm'|Hm'].
      * apply Hc. by left.
      * apply Hm. by left.
      * apply Hc. right. by inversion Hm'.
      * apply Hm. by right.
    + destruct (decide ((x, y) = (i, j) \/ (x, y) = (j, i))) as [[Hc|Hc]|]; [| |done];
        exfalso; apply Hm'.
      * left. rewrite Hc. by left.
      * right. inversion Hc; subst. by left.
Qed.

(** [createRandom]: the fold over the pairs, cell by cell. *)
Lemma randomFold_spec (rnd : draws) (p : Q) N (l : list (nat * nat)) : forall a c,
  square N a -> NoDup l ->
  (forall e, e ∈ l -> (e.1 < e.2 < N)%nat) ->
  let st := foldl (fun (st : matrix * nat) e =>
                     if Qltb (rnd st.2) p
                     then (link st.1 e.1 e.2, S st.2)
                     else (st.1, S st.2)) (a, c) l in
  square N st.1 /\ st.2 = (c + length l)%nat /\
  (forall x y, (x, y) ∉ l -> (y, x) ∉ l -> aget st.1 x y = aget a x y) /\
  (forall idx e, l !! idx = Some e ->
     aget st.1 e.1 e.2 = (if Qltb (rnd (c + idx)%nat) p then 1%nat else aget a e.1 e.2) /\
     aget st.1 e.2 e.1 = (if Qltb (rnd (c + idx)%nat) p then 1%nat else aget a e.2 e.1)).
Proof.
  induction l as [|[i j] l IH]; intros a c Hsq Hnd Hin; cbn zeta.
  - cbn [foldl fst snd length]. split; [done|]. split; [lia|]. split; [done|].
    intros idx e He. by rewrite lookup_nil in He.
  - apply NoDup_cons in Hnd as [Hnot Hnd].
    assert (Hij : (i < j < N)%nat) by (apply (Hin (i, j)); by left).
    assert (Hin' : forall e, e ∈ l -> (e.1 < e.2 < N)%nat).
    { intros e He. apply Hin. by right. }
    assert (Hswap : (j, i) ∉ l).
    { intros Hm. apply Hin' in Hm. simpl in Hm. lia. }
    cbn [foldl fst snd].
    set (a1 := if Qltb (rnd c) p then link a i j else a).
    assert (Hst : (if Qltb (rnd c) p then (link a i j, S c) else (a, S c)) = (a1, S c)).
    { unfold a1. by destruct (Qltb _ _). }
    rewrite Hst.
    assert (Hsq1 : square N a1).
    { unfold a1. destruct (Qltb _ _); [by do 2 apply square_aset|done]. }
    assert (Ha1 : forall x y, aget a1 x y
              = if decide ((x, y) = (i, j) \/ (x, y) = (j, i))
                then (if Qltb (rnd c) p then 1%nat else aget a x y) else aget a x y).
    { intros x y. unfold a1. destruct (Qltb _ _).
      - unfold link. rewrite (aget_aset_pair N); [|done|lia..]. done.
      - by destruct (decide _). }
    destruct (IH a1 (S c) Hsq1 Hnd Hin') as (Hsq' & Hc' & Hout & Hidx).
    cbn zeta in *. split; [done|]. split; [cbn [length]; lia|]. split.
    + intros x y Hxy Hyx. rewrite Hout.
      * rewrite Ha1. destruct (decide _) as [[Hc|Hc]|]; [| |done].
        -- exfalso. apply Hxy. rewrite Hc. by left.
        -- exfalso. apply Hyx. inversion Hc; subst. by left.
      * intros Hm. apply Hxy. by right.
      * intros Hm. apply Hyx. by right.
    + intros [|idx] e He.
      * cbn in He. inversion He; subst e. cbn [fst snd].
        rewrite Nat.add_0_r, !Hout; [|done..].
        rewrite !Ha1.
        destruct (decide ((i, j) = (i, j) \/ (i, j) = (j, i))) as [_|Hn];
          [|exfalso; apply Hn; by left].
        destruct (decide ((j, i) = (i, j) \/ (j, i) = (j, i))) as [_|Hn];
          [|exfalso; apply Hn; by right].
        done.
      * cbn in He. destruct (Hidx idx e He) as [H1 H2].
        replace (c + S idx)%nat with (S c + idx)%nat by lia.
        rewrite H1, H2, !Ha1.
        assert (Hel : e ∈ l) by (eapply list_elem_of_lookup_2; exact He).
        pose proof (Hin' e Hel) as Hlt.
        destruct e as [x y]. cbn [fst snd] in *.
        destruct (decide ((x, y) = (i, j) \/ (x, y) = (j, i))) as [[Hc|Hc]|_].
        -- exfalso. apply Hnot. by rewrite <- Hc.
        -- inversion Hc; subst. lia.
        -- destruct (decide ((y, x) = (i, j) \/ (y, x) = (j, i))) as [[Hc|Hc]|_];
             [inversion Hc; subst; lia| |done].
           exfalso. apply Hnot. inversion Hc; subst. done.
Qed.

End GeneratorCells.

(* ================================================================= *)
(** ** The generators, one by one *)

Section GeneratorTheorems.
Import Topology.

(** X1.  [createAllToAll(N)] returns the complete graph: the matrix is
    symmetric with 0/1 entries and a zero diagonal, every two distinct nodes
    are linked, the edge list is the list of all pairs [i < j < N], and
    it has [N (N - 1) / 2] entries. *)
Theorem createAllToAll_complete (N : nat) :
  let net := createAllToAll N in
  symmetric N (adjacency net) /\ binary N (adjacency net) /\
  zeroDiagonal N (adjacency net) /\
  (forall x y, (x < N)%nat -> (y < N)%nat -> x <> y -> aget (adjacency net) x y = 1%nat) /\
  edges net = pairsAbove N /\
  (2 * length (edges net) = N * (N - 1))%nat.
Proof.
  cbn zeta. destruct (createAllToAll_sound N) as (Hs & Hb & Hz).
  assert (Hc : forall x y, (x < N)%nat -> (y < N)%nat -> x <> y ->
                 aget (adjacency (createAllToAll N)) x y = 1%nat).
  { intros x y Hx Hy Hxy. rewrite createAllToAll_cells; [|done..].
    by destruct (decide (x <> y)). }
  assert (He : edges (createAllToAll N) = pairsAbove N).
  { change (edges (createAllToAll N))
      with (getAllEdges (adjacency (createAllToAll N)) N).
    unfold getAllEdges. apply filter_all. intros [i j] Hin.
    apply elem_of_pairsAbove in Hin. cbn [fst snd]. apply Hc; lia. }
  repeat split; try done. rewrite He. apply length_pairsAbove.
Qed.

(** X1, witness: four nodes, six edges. *)
Lemma createAllToAll_complete_witness :
  aget (adjacency (createAllToAll 4)) 1 3 = 1%nat /\
  length (edges (createAllToAll 4)) = 6%nat.
Proof.
  destruct (createAllToAll_complete 4) as (_ & _ & _ & Hc & _ & Hl).
  split; [apply Hc; lia|]. cbn zeta in Hl. lia.
Defined.

(** X2.  [createRandom(N, p)] makes exactly one draw for each pair
    [i < j < N], in loop order, and links the pair, in both directions, exactly
    when its own draw is below [p]; whatever the draws, the matrix is
    symmetric with 0/1 entries and a zero diagonal. *)
Theorem createRandom_each_pair (rnd : draws) (N : nat) (p : Q) (c : nat) :
  let r := createRandom rnd N p c in
  undirected N (adjacency r.1) /\ zeroDiagonal N (adjacency r.1) /\
  r.2 = (c + length (pairsAbove N))%nat /\
  forall idx i j, pairsAbove N !! idx = Some (i, j) ->
    aget (adjacency r.1) i j = (if Qltb (rnd (c + idx)%nat) p then 1%nat else 0%nat) /\
    aget (adjacency r.1) j i = (if Qltb (rnd (c + idx)%nat) p then 1%nat else 0%nat).
Proof.
  cbn zeta. destruct (createRandom_sound rnd N p c) as [Hun Hz].
  split; [done|]. split; [done|]. unfold createRandom.
  destruct (randomFold_spec rnd p N (pairsAbove N) (zeros N) c)
    as (_ & Hc & _ & Hidx).
  - apply square_zeros.
  - apply NoDup_pairsAbove.
  - intros [i j] He. by apply elem_of_pairsAbove in He.
  - cbn zeta in *. destruct (foldl _ _ _) as [a c']. cbn [fst snd adjacency network] in *.
    split; [done|]. intros idx i j He.
    destruct (Hidx idx (i, j) He) as [H1 H2]. cbn [fst snd] in *.
    by rewrite H1, H2, !aget_zeros.
Qed.

(** X2, witness: on three nodes the second pair is [(0, 2)]; its draw, the
    second one, is 1/2, below [p = 3/4]. *)
Lemma createRandom_each_pair_witness :
  aget (adjacency (createRandom boundaryDraws 3 (3 # 4) 0).1) 0 2 = 1%nat /\
  aget (adjacency (createRandom boundaryDraws 3 (3 # 4) 0).1) 2 0 = 1%nat.
Proof.
  destruct (createRandom_each_pair boundaryDraws 3 (3 # 4) 0) as (_ & _ & _ & H).
  exact (H 1%nat 0%nat 2%nat eq_refl).
Defined.

(** X3.  Out-of-range probabilities give degenerate graphs: with draws
    that are never negative and [p <= 0] no pair is linked, and with draws
    below 1 and [p >= 1] every pair is. *)
Theorem createRandom_degenerate (rnd : draws) (N : nat) (p : Q) (c : nat) :
  ((forall n, (0 <= rnd n)%Q) -> (p <= 0)%Q ->
   edges (createRandom rnd N p c).1 = []) /\
  ((forall n, (rnd n < 1)%Q) -> (1 <= p)%Q ->
   edges (createRandom rnd N p c).1 = pairsAbove N).
Proof.
  assert (Hcell : forall idx i j, pairsAbove N !! idx = Some (i, j) ->
            aget (adjacency (createRandom rnd N p c).1) i j
            = if Qltb (rnd (c + idx)%nat) p then 1%nat else 0%nat).
  { intros idx i j He. unfold createRandom.
    destruct (randomFold_spec rnd p N (pairsAbove N) (zeros N) c)
      as (_ & _ & _ & Hidx).
    - apply square_zeros.
    - apply NoDup_pairsAbove.
    - intros [x y] Hin. by apply elem_of_pairsAbove in Hin.
    - cbn zeta in *. destruct (foldl _ _ _) as [a c'].
      cbn [fst snd adjacency network] in *.
      destruct (Hidx idx (i, j) He) as [H1 _]. cbn [fst snd] in *.
      by rewrite H1, aget_zeros. }
  assert (Hedges : edges (createRandom rnd N p c).1
                   = getAllEdges (adjacency (createRandom rnd N p c).1) N).
  { unfold createRandom. by destruct (foldl _ _ _). }
  split; intros Hrnd Hp; rewrite Hedges; unfold getAllEdges.
  - apply filter_none. intros [i j] Hin.
    apply list_elem_of_lookup_1 in Hin as [idx Hidx]. cbn [fst snd].
    rewrite (Hcell idx i j Hidx).
    assert (Hq : Qltb (rnd (c + idx)%nat) p = false).
    { unfold Qltb. apply negb_false_iff, Qle_bool_iff.
      eapply Qle_trans; [exact Hp|apply Hrnd]. }
    rewrite Hq. done.
  - apply filter_all. intros [i j] Hin.
    apply list_elem_of_lookup_1 in Hin as [idx Hidx]. cbn [fst snd].
    rewrite (Hcell idx i j Hidx).
    assert (Hq : Qltb (rnd (c + idx)%nat) p = true).
    { unfold Qltb. apply negb_true_iff.
      destruct (Qle_bool p (rnd (c + idx)%nat)) eqn:Hle; [|done].
      apply Qle_bool_iff in Hle. exfalso.
      apply (Qlt_irrefl 1). eapply Qle_lt_trans; [exact Hp|].
      eapply Qle_lt_trans; [exact Hle|apply Hrnd]. }
    rewrite Hq. done.
Qed.

(** X3, witness: every draw one half, [p = 0] and [p = 1] on three nodes. *)
Lemma createRandom_degenerate_witness :
  edges (createRandom halves 3 0 0).1 = [] /\
  edges (createRandom halves 3 1 0).1 = [(0, 1); (0, 2); (1, 2)]%nat.
Proof.
  split.
  - apply (proj1 (createRandom_degenerate halves 3 0 0)).
    + intros n. vm_compute. discriminate.
    + vm_compute. discriminate.
  - apply (proj2 (createRandom_degenerate halves 3 1 0)).
    + intros n. vm_compute. reflexivity.
    + vm_compute. discriminate.
Defined.

(** X4.  [createRing(N, k)] links [x] and [y] exactly when one of them is
    [j] steps clockwise of the other for some [1 <= j <= k]; the matrix is
    symmetric with 0/1 entries, and has a zero diagonal when [k < N]. *)
Theorem createRing_neighbours (N k x y : nat) :
  (x < N)%nat -> (y < N)%nat ->
  let a := adjacency (createRing N k) in
  undirected N a /\ ((k < N)%nat -> zeroDiagonal N a) /\
  (aget a x y = 1%nat <->
   exists j, (1 <= j <= k)%nat /\ (y = ((x + j) mod N)%nat \/ x = ((y + j) mod N)%nat)).
Proof.
  intros Hx Hy a. split; [apply createRing_undirected|].
  split; [apply createRing_zeroDiagonal|].
  unfold a, createRing. cbn [adjacency network].
  rewrite (foldl_nested (fun i a j => link a i ((i + j) mod N)%nat) (fun _ => seq 1 k)).
  set (cells := i ← seq 0 N; (fun j => (i, j)) <$> seq 1 k).
  set (f := fun p : nat * nat => (p.1, ((p.1 + p.2) mod N)%nat)).
  assert (Heq : foldl (fun a (p : nat * nat) => link a p.1 ((p.1 + p.2) mod N)%nat)
                      (zeros N) cells
                = foldl (fun a (e : nat * nat) => link a e.1 e.2) (zeros N) (f <$> cells)).
  { by rewrite foldl_fmap. }
  rewrite Heq.
  assert (Hmem : forall u v, (u, v) ∈ f <$> cells <->
            (u < N)%nat /\ exists j, (1 <= j <= k)%nat /\ v = ((u + j) mod N)%nat).
  { intros u v. rewrite list_elem_of_fmap. split.
    - intros ([i j] & Heq' & Hin). unfold f in Heq'. cbn [fst snd] in Heq'.
      inversion Heq'; subst. unfold cells in Hin.
      apply list_elem_of_bind in Hin as (i' & Hin & Hi').
      apply list_elem_of_fmap in Hin as (j' & Hp & Hj'). inversion Hp; subst.
      apply elem_of_seq in Hi', Hj'. split; [lia|]. exists j'. split; [lia|done].
    - intros (Hu & j & Hj & ->). exists (u, j). split; [done|].
      unfold cells. apply list_elem_of_bind. exists u.
      split; [|apply elem_of_seq; lia].
      apply list_elem_of_fmap. exists j. split; [done|apply elem_of_seq; lia]. }
  destruct (linkAll_spec N (f <$> cells) (zeros N) x y) as [_ Hget].
  - apply square_zeros.
  - intros [u v] He. apply Hmem in He as (Hu & j & Hj & ->). cbn [fst snd].
    split; [done|]. apply Nat.mod_upper_bound. lia.
  - cbn zeta in Hget. rewrite Hget, aget_zeros.
    destruct (decide ((x, y) ∈ f <$> cells \/ (y, x) ∈ f <$> cells)) as [Hd|Hd].
    + split; [intros _|done]. destruct Hd as [Hd|Hd]; apply Hmem in Hd as (_ & j & Hj & He);
        exists j; auto.
    + split; [done|]. intros (j & Hj & [He|He]); exfalso; apply Hd.
      * left. apply Hmem. eauto.
      * right. apply Hmem. eauto.
Qed.

(** X4, witness: on a ring of five nodes with [k = 1], nodes 4 and 0 are
    linked. *)
Lemma createRing_neighbours_witness :
  aget (adjacency (createRing 5 1)) 4 0 = 1%nat /\
  zeroDiagonal 5 (adjacency (createRing 5 1)).
Proof.
  destruct (createRing_neighbours 5 1 4 0) as (_ & Hz & Hiff); [lia..|].
  split; [|apply Hz; lia].
  apply Hiff. exists 1%nat. split; [lia|]. left. reflexivity.
Defined.

Lemma lattice_inner_None N i (js : list nat) : foldl (latticeBody N i) None js = None.
Proof. induction js as [|j js IH]; [done|]. exact IH. Qed.

Lemma lattice_outer_None N (cols rows : list nat) :
  foldl (fun acc i => foldl (latticeBody N i) acc cols) None rows = None.
Proof.
  induction rows as [|i rows IH]; [done|]. cbn [foldl].
  by rewrite lattice_inner_None.
Qed.

(** X5.  [createSmallWorld(N, k, p)] throws exactly when [N >= 2] and
    [k / 2 > N]: then, for node 0 and offset [N + 1], the counter-clockwise
    neighbour is the negative index -1. *)
Theorem createSmallWorld_returns_iff (rnd : draws) (N k : nat) (p : Q) (c : nat) :
  is_Some (createSmallWorld rnd N k p c) <-> (N <= 1)%nat \/ (k / 2 <= N)%nat.
Proof.
  assert (Hiff : is_Some (createSmallWorld rnd N k p c) <-> is_Some (ringLattice N k)).
  { unfold createSmallWorld. destruct (ringLattice N k); simpl; split; intros [? ?];
      try done; eauto. }
  rewrite Hiff. split.
  - intros Hs. destruct (decide (N <= 1)%nat) as [|HN]; [by left|right].
    destruct (decide (k / 2 <= N)%nat) as [|Hk]; [done|exfalso].
    unfold ringLattice in Hs.
    replace (seq 0 N) with (0%nat :: seq 1 (N - 1)) in Hs
      by (destruct N; [lia|]; simpl; by rewrite Nat.sub_0_r).
    replace (seq 1 (k / 2)) with (seq 1 N ++ (N + 1)%nat :: seq (N + 2) (k / 2 - N - 1)) in Hs.
    2:{ replace (k / 2)%nat with (N + S (k / 2 - N - 1))%nat at 2 by lia.
        rewrite seq_app. f_equal. cbn [seq]. f_equal; [lia|]. f_equal. lia. }
    cbn [foldl] in Hs. rewrite foldl_app in Hs. cbn [foldl] in Hs.
    assert (Hpre : is_Some (foldl (latticeBody N 0) (Some (zeros N)) (seq 1 N))).
    { apply (foldl_invariant (fun acc => is_Some acc)); [done|].
      intros acc j Hj [a ->]. apply elem_of_seq in Hj.
      apply latticeBody_returns; lia. }
    destruct Hpre as [a Ha]. rewrite Ha in Hs.
    assert (Hthrow : latticeBody N 0 (Some a) (N + 1) = None).
    { unfold latticeBody. cbn [mbind option_bind].
      replace (Z.of_nat 0 - Z.of_nat (N + 1) + Z.of_nat N)%Z with (- (1))%Z by lia.
      rewrite Z.rem_opp_l by lia. rewrite Z.rem_small by lia.
      destruct (decide _) as [_|Hn]; [done|]. lia. }
    rewrite Hthrow, lattice_inner_None, lattice_outer_None in Hs.
    by destruct Hs.
  - intros [HN|Hk]; [|by apply ringLattice_returns].
    unfold ringLattice.
    apply (foldl_invariant (fun acc => is_Some acc)); [done|].
    intros acc i Hi Hacc. apply elem_of_seq in Hi.
    apply (foldl_invariant (fun acc => is_Some acc)); [done|].
    intros acc' j Hj [a ->]. unfold latticeBody. cbn [mbind option_bind].
    assert (N = 1)%nat as -> by lia. rewrite Z.rem_1_r.
    destruct (decide _); done.
Qed.

Lemma rewire_never rnd N p (l : list (nat * nat)) : forall st,
  (forall n, Qltb (rnd n) p = false) ->
  foldl (rewireEdge rnd N p) st l
  = {| rw_adjacency := rw_adjacency st; rw_cursor := (rw_cursor st + length l)%nat;
       rw_dropped := rw_dropped st |}.
Proof.
  intros st Hq. revert st. induction l as [|e l IH]; intros st.
  - cbn [foldl length]. destruct st; simpl. f_equal. lia.
  - cbn [foldl length]. rewrite IH. unfold rewireEdge. rewrite Hq.
    cbn [rw_adjacency rw_cursor rw_dropped]. f_equal. lia.
Qed.

(** X6.  For draws in [0, 1), whenever [createSmallWorld] returns its
    matrix is symmetric with 0/1 entries, and has a zero diagonal when
    [k / 2 < N]; with [rewiringProb <= 0] it returns the ring lattice itself,
    having made one draw per edge. *)
Theorem createSmallWorld_structure (rnd : draws) (N k : nat) (p : Q) (c : nat)
    (net : Network) (c' : nat) :
  (forall n, (0 <= rnd n)%Q /\ (rnd n < 1)%Q) ->
  createSmallWorld rnd N k p c = Some (net, c') ->
  undirected N (adjacency net) /\
  ((k / 2 < N)%nat -> zeroDiagonal N (adjacency net)) /\
  ((p <= 0)%Q ->
   ringLattice N k = Some (adjacency net) /\ c' = (c + length (edges net))%nat).
Proof.
  intros Hrnd Hc.
  destruct (createSmallWorld_sound rnd N k p c net c' Hrnd Hc) as [Hun Hz].
  split; [done|]. split; [done|]. intros Hp.
  unfold createSmallWorld in Hc.
  destruct (ringLattice N k) as [lattice|]; [|done]. simpl in Hc.
  unfold rewire in Hc. rewrite rewire_never in Hc.
  - cbn [rw_adjacency rw_cursor] in Hc. inversion Hc; subst. done.
  - intros n. unfold Qltb. apply negb_false_iff, Qle_bool_iff.
    eapply Qle_trans; [exact Hp|apply Hrnd].
Qed.

(** X6, witness: six nodes, [k = 2], no rewiring. *)
Lemma createSmallWorld_structure_witness :
  exists net c',
    createSmallWorld halves 6 2 0 0 = Some (net, c') /\
    undirected 6 (adjacency net) /\ zeroDiagonal 6 (adjacency net) /\
    ringLattice 6 2 = Some (adjacency net) /\ c' = (0 + length (edges net))%nat.
Proof.
  destruct (createSmallWorld halves 6 2 0 0) as [[net c']|] eqn:Hc;
    [|vm_compute in Hc; discriminate].
  destruct (createSmallWorld_structure halves 6 2 0 0 net c') as (Hun & Hz & Hl).
  - intros n. split; [vm_compute; discriminate|vm_compute; reflexivity].
  - exact Hc.
  - exists net, c'. split; [reflexivity|]. split; [exact Hun|].
    split; [apply Hz; vm_compute; lia|]. apply Hl. vm_compute. discriminate.
Defined.

(** X7.  For draws in [0, 1), whenever [createScaleFree] returns its
    matrix is symmetric with 0/1 entries and a zero diagonal: every target
    chosen for a new node, by the roulette or by the fallback, is an older
    node. *)
Theorem createScaleFree_structure (fuel : nat) (rnd : draws) (N m c : nat)
    (net : Network) (c' : nat) :
  (forall n, (0 <= rnd n)%Q /\ (rnd n < 1)%Q) ->
  createScaleFree fuel rnd N m c = Some (net, c') ->
  undirected N (adjacency net) /\ zeroDiagonal N (adjacency net) /\
  edges net = getAllEdges (adjacency net) N.
Proof.
  intros Hrnd Hc.
  destruct (createScaleFree_sound fuel rnd N m c net c' Hrnd Hc) as [Hun Hz].
  split; [done|]. split; [done|].
  unfold createScaleFree in Hc.
  destruct (foldl (attachNode fuel rnd m) _ _) as [[a c1]|]; [|done].
  simpl in Hc. by inversion Hc.
Qed.

(** X7, witness: six nodes, [m = 2], every draw one half. *)
Lemma createScaleFree_structure_witness :
  exists net c',
    createScaleFree 10 halves 6 2 0 = Some (net, c') /\
    undirected 6 (adjacency net) /\ zeroDiagonal 6 (adjacency net).
Proof.
  destruct (createScaleFree 10 halves 6 2 0) as [[net c']|] eqn:Hc;
    [|vm_compute in Hc; discriminate].
  destruct (createScaleFree_structure 10 halves 6 2 0 net c') as (Hun & Hz & _).
  - intros n. split; [vm_compute; discriminate|vm_compute; reflexivity].
  - exact Hc.
  - exists net, c'. split; [reflexivity|]. split; [exact Hun|exact Hz].
Defined.

(** X8.  When no node is left to attach ([N <= m + 1]), [createScaleFree]
    returns the complete graph on [N] nodes, whatever the fuel, and draws
    nothing. *)
Theorem createScaleFree_small (fuel : nat) (rnd : draws) (N m c : nat) :
  (N <= m + 1)%nat ->
  exists net,
    createScaleFree fuel rnd N m c = Some (net, c) /\
    edges net = pairsAbove N /\
    (forall x y, (x < N)%nat -> (y < N)%nat ->
       aget (adjacency net) x y = if decide (x <> y) then 1%nat else 0%nat).
Proof.
  intros HN. unfold createScaleFree.
  replace (Nat.min (m + 1) N) with N by lia.
  rewrite Nat.sub_diag. cbn [seq foldl]. simpl. eexists. split; [reflexivity|].
  cbn [adjacency edges network].
  assert (Hcell : forall x y, (x < N)%nat -> (y < N)%nat ->
            aget (foldl (fun a (e : nat * nat) => link a e.1 e.2) (zeros N) (pairsAbove N))
                 x y = if decide (x <> y) then 1%nat else 0%nat).
  { intros x y Hx Hy.
    destruct (linkAll_spec N (pairsAbove N) (zeros N) x y) as [_ Hget].
    - apply square_zeros.
    - intros [i j] He. apply elem_of_pairsAbove in He. cbn [fst snd]. lia.
    - cbn zeta in Hget. rewrite Hget, aget_zeros.
      destruct (decide ((x, y) ∈ pairsAbove N \/ (y, x) ∈ pairsAbove N)) as [Hd|Hd];
        destruct (decide (x <> y)) as [Hne|He]; try done.
      + exfalso. destruct Hd as [Hd|Hd]; apply elem_of_pairsAbove in Hd; lia.
      + exfalso. apply Hd. destruct (decide (x < y)%nat).
        * left. apply elem_of_pairsAbove. lia.
        * right. apply elem_of_pairsAbove. lia. }
  split; [|done].
  unfold getAllEdges. apply filter_all. intros [i j] Hin.
  apply elem_of_pairsAbove in Hin. cbn [fst snd]. rewrite Hcell; [|lia..].
  destruct (decide (i <> j)); [done|lia].
Qed.

(** X8, witness: three nodes with the default [m = 2]. *)
Lemma createScaleFree_small_witness :
  exists net,
    createScaleFree 0 halves 3 scaleFree_m 7 = Some (net, 7%nat) /\
    edges net = [(0, 1); (0, 2); (1, 2)]%nat.
Proof.
  destruct (createScaleFree_small 0 halves 3 scaleFree_m 7) as (net & Hc & He & _).
  - vm_compute. lia.
  - exists net. split; [exact Hc|exact He].
Defined.

End GeneratorTheorems.

(* ================================================================= *)
(** ** Degrees and edges *)

Section Degrees.
Import Topology.

Local Abbreviation sumTo f n := (foldl (fun s i => (s + f i)%nat) 0%nat (seq 0 n)).

Lemma foldl_add_shift (f : nat -> nat) (l : list nat) : forall s,
  foldl (fun s i => (s + f i)%nat) s l = (s + foldl (fun s i => (s + f i)%nat) 0%nat l)%nat.
Proof.
  induction l as [|i l IH]; intros s; cbn [foldl]; [lia|].
  rewrite IH, (IH (0 + f i)%nat). lia.
Qed.

Lemma sumTo_S (f : nat -> nat) n : sumTo f (S n) = (sumTo f n + f n)%nat.
Proof. by rewrite seq_S, foldl_app. Qed.

Lemma sumTo_ext (f g : nat -> nat) n :
  (forall i, (i < n)%nat -> f i = g i) -> sumTo f n = sumTo g n.
Proof.
  induction n as [|n IH]; intros Hfg; [done|].
  rewrite !sumTo_S, IH, Hfg; [done|lia|]. intros i Hi. apply Hfg. lia.
Qed.

Lemma sumTo_plus (f g : nat -> nat) n :
  sumTo (fun i => (f i + g i)%nat) n = (sumTo f n + sumTo g n)%nat.
Proof. induction n as [|n IH]; [done|]. rewrite !sumTo_S, IH. lia. Qed.

(** [for (i = 0; i < n; i++) t[i] = f(i)], on any array. *)
Lemma fill_lookup {A : Type} (f : nat -> A) (n : nat) (t0 : list A) :
  let t := foldl (fun t i => <[i := f i]> t) t0 (seq 0 n) in
  length t = length t0 /\
  forall i, t !! i = if decide ((i < n)%nat /\ (i < length t0)%nat)
                     then Some (f i) else t0 !! i.
Proof.
  induction n as [|n [IHl IHr]]; cbn zeta in *.
  - split; [done|]. intros i. destruct (decide _) as [[? ?]|]; [lia|done].
  - rewrite seq_S, foldl_app. cbn [foldl plus]. split; [by rewrite length_insert|].
    intros i. destruct (decide (n = i)) as [->|Hne].
    + destruct (decide (i < length t0)%nat) as [Hlt|Hge].
      * rewrite list_lookup_insert_eq; [|lia].
        destruct (decide _) as [|Hn]; [done|]. exfalso. apply Hn. lia.
      * rewrite list_insert_ge; [|lia]. rewrite IHr.
        destruct (decide (_ /\ _)) as [[? ?]|]; [lia|].
        destruct (decide (_ /\ _)) as [[? ?]|]; [lia|done].
    + rewrite list_lookup_insert_ne; [|done]. rewrite IHr.
      destruct (decide ((i < n)%nat /\ _)) as [[? ?]|Hn1];
        destruct (decide ((i < S n)%nat /\ _)) as [[? ?]|Hn2]; try done.
      * exfalso. apply Hn2. lia.
      * exfalso. apply Hn1. lia.
Qed.

Lemma fill_map {A : Type} (f : nat -> A) (n : nat) (d : A) :
  foldl (fun t i => <[i := f i]> t) (replicate n d) (seq 0 n) = f <$> seq 0 n.
Proof.
  destruct (fill_lookup f n (replicate n d)) as [Hl Hr]. cbn zeta in *.
  apply list_eq. intros i. rewrite Hr, length_replicate, list_lookup_fmap.
  destruct (decide _) as [[Hi _]|Hn].
  - by rewrite lookup_seq_lt.
  - rewrite lookup_seq_ge; [|lia]. apply lookup_ge_None_2.
    rewrite length_replicate. lia.
Qed.

(** The pairs below [S n] are the pairs below [n] and those that end in [n]. *)
Lemma pairsAbove_S n :
  pairsAbove (S n) ≡ₚ pairsAbove n ++ ((fun i => (i, n)) <$> seq 0 n).
Proof.
  apply NoDup_Permutation.
  - apply NoDup_pairsAbove.
  - apply NoDup_app. split; [apply NoDup_pairsAbove|]. split.
    + intros [i j] Hin Hin'. apply elem_of_pairsAbove in Hin.
      apply list_elem_of_fmap in Hin' as (i' & Heq & _). inversion Heq; lia.
    + apply NoDup_fmap_2; [|apply NoDup_seq]. intros i j Heq. by inversion Heq.
  - intros [i j]. rewrite (elem_of_pairsAbove (S n) i j), elem_of_app,
      (elem_of_pairsAbove n i j), list_elem_of_fmap. split.
    + intros Hij. destruct (decide (j = n)) as [->|Hne].
      * right. exists i. split; [done|]. apply elem_of_seq. lia.
      * left. lia.
    + intros [Hij|(i' & Heq & Hin)]; [lia|].
      inversion Heq; subst. apply elem_of_seq in Hin. lia.
Qed.

Lemma column_count (a : matrix) (n : nat) (l : list nat) :
  (forall i, i ∈ l -> aget a i n = 0%nat \/ aget a i n = 1%nat) ->
  length (filter (fun e : nat * nat => aget a e.1 e.2 = 1%nat) ((fun i => (i, n)) <$> l))
  = foldl (fun s i => (s + aget a i n)%nat) 0%nat l.
Proof.
  induction l as [|i l IH]; intros Hb; [done|].
  rewrite fmap_cons, filter_cons. cbn [foldl fst snd].
  rewrite foldl_add_shift, <- IH; [|intros; apply Hb; by right].
  destruct (Hb i (list_elem_of_here _ _)) as [H0|H1].
  - rewrite H0. destruct (decide _); [done|]. simpl. done.
  - rewrite H1. destruct (decide _); [|done]. simpl. done.
Qed.

(** The handshake: the entries of a symmetric 0/1 matrix without self-loops
    add up to twice its number of edges. *)
Lemma handshake_prefix (a : matrix) (N n : nat) :
  symmetric N a -> binary N a -> zeroDiagonal N a -> (n <= N)%nat ->
  sumTo (fun i => sumTo (aget a i) n) n
  = (2 * length (filter (fun e : nat * nat => aget a e.1 e.2 = 1%nat) (pairsAbove n)))%nat.
Proof.
  intros Hs Hb Hz. induction n as [|n IH]; intros Hn; [done|].
  rewrite sumTo_S.
  rewrite (sumTo_ext (fun i => sumTo (aget a i) (S n))
                     (fun i => (sumTo (aget a i) n + aget a i n)%nat));
    [|intros i _; apply sumTo_S].
  rewrite sumTo_plus, IH by lia. rewrite sumTo_S, Hz by lia.
  rewrite (sumTo_ext (aget a n) (fun i => aget a i n)); [|intros i Hi; apply Hs; lia].
  rewrite (Permutation_length (filter_Permutation _ _ _ (pairsAbove_S n))).
  rewrite filter_app, length_app, column_count; [lia|].
  intros i Hi. apply elem_of_seq in Hi. apply Hb; lia.
Qed.

Lemma degrees_rows (a : matrix) (N : nat) :
  degrees (calculateNetworkStats a N) = rowSum a N <$> seq 0 N.
Proof. unfold calculateNetworkStats. cbn [degrees]. apply fill_map. Qed.

Lemma degrees_total (a : matrix) (N : nat) :
  foldl Nat.add 0%nat (degrees (calculateNetworkStats a N))
  = sumTo (fun i => sumTo (aget a i) N) N.
Proof. by rewrite degrees_rows, foldl_fmap. Qed.

(** X9.  For a symmetric 0/1 matrix without self-loops,
    [calculateNetworkStats] returns one degree per node, the row sums, and these
    add up to twice the number of edges that [getAllEdges] lists; the average
    degree is that total over [N]. *)
Theorem networkStats_handshake (a : matrix) (N : nat) :
  undirected N a -> zeroDiagonal N a ->
  let st := calculateNetworkStats a N in
  degrees st = rowSum a N <$> seq 0 N /\
  length (degrees st) = N /\
  foldl Nat.add 0%nat (degrees st) = (2 * length (getAllEdges a N))%nat /\
  avgDegree st = (inject_Z (Z.of_nat (2 * length (getAllEdges a N)))
                  / inject_Z (Z.of_nat N))%Q.
Proof.
  intros (Hsq & Hs & Hb) Hz st.
  assert (Ht : foldl Nat.add 0%nat (degrees st) = (2 * length (getAllEdges a N))%nat).
  { unfold st. rewrite degrees_total. by apply (handshake_prefix a N N). }
  split; [apply degrees_rows|]. split.
  { unfold st. rewrite degrees_rows, length_fmap. apply length_seq. }
  split; [done|]. unfold st, calculateNetworkStats in *. cbn [avgDegree degrees] in *.
  by rewrite Ht.
Qed.

(** X9, witness: the ring of five nodes has degrees 2 and five edges. *)
Lemma networkStats_handshake_witness :
  degrees (calculateNetworkStats (adjacency (createRing 5 1)) 5) = [2; 2; 2; 2; 2]%nat /\
  foldl Nat.add 0%nat (degrees (calculateNetworkStats (adjacency (createRing 5 1)) 5))
  = (2 * length (getAllEdges (adjacency (createRing 5 1)) 5))%nat.
Proof.
  destruct (networkStats_handshake (adjacency (createRing 5 1)) 5)
    as (Hd & _ & Ht & _).
  - apply createRing_undirected.
  - apply createRing_zeroDiagonal. lia.
  - split; [rewrite Hd; vm_compute; reflexivity|exact Ht].
Defined.

End Degrees.

(* ================================================================= *)
(** ** The degrees of the metrics file *)

Section MetricsDegrees.
Import Topology.

Local Abbreviation offDiagonal a i :=
  (fun j : nat => if Nat.eqb i j then 0%nat else aget a i j).

Local Abbreviation degreeBody a i :=
  (fun acc j =>
     match acc with
     | RunMetrics.Throws => RunMetrics.Throws
     | RunMetrics.Returns ds =>
         match RunMetrics.nonZero a i%nat j with
         | RunMetrics.Throws => RunMetrics.Throws
         | RunMetrics.Returns nz =>
             if nz && negb (Nat.eqb i%nat j)
             then RunMetrics.Returns (<[i%nat := S (nth i%nat ds 0%nat)]> ds)
             else RunMetrics.Returns ds
         end
     end).

Lemma nonZero_square N (a : matrix) i j :
  square N a -> (i < N)%nat -> (j < N)%nat ->
  RunMetrics.nonZero a i j = RunMetrics.Returns (negb (aget a i j =? 0)%nat).
Proof.
  intros [Hl Hr] Hi Hj. unfold RunMetrics.nonZero, aget.
  destruct (lookup_lt_is_Some_2 a i) as [row Hrow]; [lia|]. rewrite Hrow.
  rewrite Forall_lookup in Hr. specialize (Hr _ _ Hrow).
  destruct (lookup_lt_is_Some_2 row j) as [v Hv]; [lia|]. by rewrite Hv.
Qed.

Lemma degree_row N (a : matrix) i :
  square N a -> binary N a -> (i < N)%nat ->
  forall (js : list nat) (ds : list nat),
    length ds = N -> (forall j, j ∈ js -> (j < N)%nat) ->
    foldl (degreeBody a i) (RunMetrics.Returns ds) js
    = RunMetrics.Returns
        (<[i := (nth i ds 0 + foldl (fun s j => s + offDiagonal a i j) 0 js)%nat]> ds).
Proof.
  intros Hsq Hb Hi. induction js as [|j js IH]; intros ds Hl Hjs.
  - cbn [foldl]. f_equal. rewrite Nat.add_0_r. symmetry. apply list_insert_id.
    rewrite nth_lookup. destruct (lookup_lt_is_Some_2 ds i) as [d Hd]; [lia|].
    by rewrite Hd.
  - assert (Hj : (j < N)%nat) by (apply Hjs; by left).
    cbn [foldl]. rewrite (nonZero_square N); [|done..].
    rewrite (foldl_add_shift (offDiagonal a i) js).
    set (F := foldl (fun s j => (s + offDiagonal a i j)%nat) 0%nat js).
    assert (Hg : (if (i =? j)%nat then 0%nat else aget a i j)
                 = if negb (aget a i j =? 0)%nat && negb (i =? j)%nat
                   then 1%nat else 0%nat).
    { destruct (Hb i j Hi Hj) as [Hv|Hv]; rewrite Hv;
        by destruct (i =? j)%nat. }
    rewrite Nat.add_0_l, Hg.
    destruct (negb (aget a i j =? 0)%nat && negb (i =? j)%nat).
    + rewrite IH; [|by rewrite length_insert|intros; apply Hjs; by right]. fold F.
      rewrite list_insert_insert_eq. f_equal. f_equal.
      rewrite nth_lookup, list_lookup_insert_eq; [simpl; lia|lia].
    + rewrite IH; [|done|intros; apply Hjs; by right]. fold F.
      by rewrite Nat.add_0_l.
Qed.

Lemma degree_rows N (a : matrix) (n : nat) :
  square N a -> binary N a -> (n <= N)%nat ->
  exists ds,
    foldl (fun acc i => foldl (degreeBody a i) acc (seq 0 N))
          (RunMetrics.Returns (replicate N 0%nat)) (seq 0 n)
    = RunMetrics.Returns ds /\
    length ds = N /\
    forall i, nth i ds 0%nat
              = if decide (i < n)%nat
                then foldl (fun s j => (s + offDiagonal a i j)%nat) 0%nat (seq 0 N)
                else 0%nat.
Proof.
  intros Hsq Hb. induction n as [|n IH]; intros Hn.
  - exists (replicate N 0%nat). split; [done|]. split; [apply length_replicate|].
    intros i. destruct (decide _); [lia|]. rewrite nth_lookup.
    destruct (replicate N 0%nat !! i) eqn:Hr; [|done].
    by apply lookup_replicate in Hr as [-> _].
  - destruct IH as (ds & Hds & Hl & Hnth); [lia|].
    rewrite seq_S, foldl_app. cbn [foldl plus]. rewrite Hds.
    rewrite (degree_row N); [|done|done|lia|done|].
    2:{ intros j Hj. apply elem_of_seq in Hj. lia. }
    eexists. split; [reflexivity|]. split; [by rewrite length_insert|].
    intros i. rewrite nth_lookup.
    destruct (decide (n = i)) as [->|Hne].
    + rewrite list_lookup_insert_eq; [|lia]. cbn [default from_option].
      rewrite Hnth. destruct (decide (i < i)%nat); [lia|].
      destruct (decide (i < S i)%nat); [done|lia].
    + rewrite list_lookup_insert_ne; [|done]. rewrite <- nth_lookup, Hnth.
      destruct (decide (i < n)%nat); destruct (decide (i < S n)%nat); try done; lia.
Qed.

Lemma offDiagonal_sum (a : matrix) i n :
  foldl (fun s j => (s + aget a i j)%nat) 0%nat (seq 0 n)
  = (foldl (fun s j => (s + offDiagonal a i j)%nat) 0%nat (seq 0 n)
     + if decide (i < n)%nat then aget a i i else 0)%nat.
Proof.
  induction n as [|n IH]; [done|].
  rewrite !seq_S, !foldl_app. cbn [foldl plus]. rewrite IH.
  destruct (Nat.eqb_spec i n) as [->|Hne].
  - destruct (decide (n < n)%nat); [lia|]. destruct (decide (n < S n)%nat); lia.
  - destruct (decide (i < n)%nat); destruct (decide (i < S n)%nat); lia.
Qed.

(** X10.  The [calculateNetworkStats] of the metrics file returns the
    all-zero summary for a missing or empty matrix; on an [N] by [N] 0/1
    matrix it returns one degree per node, and that degree is the row sum
    without the diagonal entry: unlike the generators' own statistics it does
    not count a self-loop. *)
Theorem metrics_networkStats (a : matrix) (N : nat) :
  let zero := {| RunMetrics.avgDegree := 0%R; RunMetrics.maxDegree := Some 0%nat;
                 RunMetrics.minDegree := Some 0%nat; RunMetrics.degrees := [] |} in
  RunMetrics.calculateNetworkStats None N = RunMetrics.Returns zero /\
  RunMetrics.calculateNetworkStats (Some []) N = RunMetrics.Returns zero /\
  (square N a -> binary N a -> (1 <= N)%nat ->
   exists st,
     RunMetrics.calculateNetworkStats (Some a) N = RunMetrics.Returns st /\
     length (RunMetrics.degrees st) = N /\
     forall i, (i < N)%nat ->
       nth i (degrees (calculateNetworkStats a N)) 0%nat
       = (nth i (RunMetrics.degrees st) 0 + aget a i i)%nat).
Proof.
  intros zero. split; [done|]. split; [done|]. intros Hsq Hb HN.
  destruct (degree_rows N a N Hsq Hb (Nat.le_refl N)) as (ds & Hds & Hl & Hnth).
  unfold RunMetrics.calculateNetworkStats.
  destruct a as [|row a']; [destruct Hsq as [Hsq _]; simpl in Hsq; lia|].
  unfold RunMetrics.countDegrees. rewrite Hds.
  eexists. split; [reflexivity|]. cbn [RunMetrics.degrees]. split; [done|].
  intros i Hi. rewrite degrees_rows, nth_lookup, list_lookup_fmap, lookup_seq_lt by done.
  cbn [fmap option_fmap option_map default from_option plus]. unfold rowSum.
  rewrite offDiagonal_sum, Hnth.
  destruct (decide (i < N)%nat); [done|lia].
Qed.

(** X10, witness: on the matrix that [createRing(2)] returns, with its two
    self-loops, the generators' statistics give degree 2 and the metrics give
    degree 1. *)
Lemma metrics_networkStats_witness :
  exists st,
    RunMetrics.calculateNetworkStats (Some (adjacency (createRing 2 ring_k))) 2
    = RunMetrics.Returns st /\
    RunMetrics.degrees st = [1; 1]%nat /\
    degrees (calculateNetworkStats (adjacency (createRing 2 ring_k)) 2) = [2; 2]%nat.
Proof.
  destruct (metrics_networkStats (adjacency (createRing 2 ring_k)) 2) as (_ & _ & H).
  destruct H as (st & Hst & Hl & Hd).
  - apply createRing_undirected.
  - apply createRing_undirected.
  - lia.
  - exists st. split; [exact Hst|].
    split; [|vm_compute; reflexivity].
    vm_compute in Hst. inversion Hst. reflexivity.
Defined.

End MetricsDegrees.

(* ================================================================= *)
(** ** The oscillator ensemble: construction, clock, draws *)

Section KuramotoConstruction.
Import Kuramoto.
Local Open Scope R_scope.

Lemma Q2R_unit (u : Q) : (0 <= u)%Q -> (u < 1)%Q -> 0 <= Q2R u < 1.
Proof.
  intros H0 H1. apply Qle_Rle in H0. apply Qlt_Rlt in H1.
  replace (Q2R 0) with 0 in H0 by (unfold Q2R; simpl; lra).
  replace (Q2R 1) with 1 in H1 by (unfold Q2R; simpl; lra).
  lra.
Qed.

(** The loop of [initialize()]: three draws per oscillator. *)
Lemma initialize_loop (rnd : draws) (n : nat) (th0 om0 : list R) (c : nat) :
  let st :=
    foldl (fun (st : list R * list R * nat) i =>
             let '(th, om, c) := st in
             let th := <[i := (Q2R (rnd c) * 2 - 1) * MathPI]> th in
             let '(z, c) := randomNormal rnd 0 1 (S c) in
             (th, <[i := z]> om, c))
          (th0, om0, c) (seq 0 n) in
  length st.1.1 = length th0 /\ length st.1.2 = length om0 /\
  st.2 = (c + 3 * n)%nat /\
  forall i,
    rd st.1.1 i = (if decide ((i < n)%nat /\ (i < length th0)%nat)
                   then (Q2R (rnd (c + 3 * i)%nat) * 2 - 1) * MathPI else rd th0 i) /\
    rd st.1.2 i = (if decide ((i < n)%nat /\ (i < length om0)%nat)
                   then (randomNormal rnd 0 1 (c + 3 * i + 1)%nat).1 else rd om0 i).
Proof.
  induction n as [|n IH]; cbn zeta in *.
  - cbn [seq foldl fst snd]. split; [done|]. split; [done|]. split; [lia|].
    intros i. split; (destruct (decide _) as [[? ?]|]; [lia|done]).
  - rewrite seq_S, foldl_app. cbn [foldl plus].
    destruct (foldl _ _ (seq 0 n)) as [[th om] c1].
    unfold randomNormal in *. cbn [fst snd] in *.
    destruct IH as (Hlt & Hlo & Hc & Hrd).
    split; [by rewrite length_insert|]. split; [by rewrite length_insert|].
    split; [lia|]. intros i. destruct (Hrd i) as [Ht Ho].
    rewrite !rd_insert, Ht, Ho, Hlt, Hlo, Hc.
    replace (S (c + 3 * n)) with (c + 3 * n + 1)%nat by lia.
    split.
    + destruct (decide (n = i /\ (n < length th0)%nat)) as [[-> ?]|Hn].
      * destruct (decide ((i < S i)%nat /\ _)) as [|Hd]; [done|]. exfalso. apply Hd. lia.
      * destruct (decide ((i < n)%nat /\ (i < length th0)%nat)) as [[Ha Hb]|H1];
          destruct (decide ((i < S n)%nat /\ (i < length th0)%nat)) as [[Ha' Hb']|H2]; try done;
          exfalso; lia.
    + destruct (decide (n = i /\ (n < length om0)%nat)) as [[-> ?]|Hn].
      * destruct (decide ((i < S i)%nat /\ _)) as [|Hd]; [done|]. exfalso. apply Hd. lia.
      * destruct (decide ((i < n)%nat /\ (i < length om0)%nat)) as [[Ha Hb]|H1];
          destruct (decide ((i < S n)%nat /\ (i < length om0)%nat)) as [[Ha' Hb']|H2]; try done;
          exfalso; lia.
Qed.

(** What [initialize()] leaves, before the rounding of the [Float32Array]
    store: phases drawn from [-Math.PI] (included) to [Math.PI] (excluded), a
    clock at 0, an empty history. *)
Lemma initialize_spec (rnd : draws) (m : KuramotoModel) (c : nat) :
  (forall n, (0 <= rnd n)%Q /\ (rnd n < 1)%Q) ->
  length (theta m) = N m -> length (omega m) = N m ->
  let r := initialize rnd m c in
  N r.1 = N m /\ K r.1 = K m /\ dt r.1 = dt m /\ noiseLevel r.1 = noiseLevel m /\
  phaseLag r.1 = phaseLag m /\ adjacency r.1 = adjacency m /\
  length (theta r.1) = N m /\ length (omega r.1) = N m /\
  time r.1 = 0 /\ history r.1 = noHistory /\ r.2 = (c + 3 * N m)%nat /\
  forall i, (i < N m)%nat -> - MathPI <= rd (theta r.1) i < MathPI.
Proof.
  intros Hrnd Hlt Hlo. cbn zeta. unfold initialize.
  pose proof (initialize_loop rnd (N m) (theta m) (omega m) c) as Hloop.
  cbn zeta in Hloop.
  destruct (foldl _ _ _) as [[th om] c']. cbn [fst snd] in *.
  destruct Hloop as (H1 & H2 & H3 & Hrd).
  cbn [fst snd N K dt noiseLevel phaseLag theta omega adjacency time history].
  split_and!; try done; try congruence.
  intros i Hi. destruct (Hrd i) as [Ht _]. rewrite Ht.
  destruct (decide _) as [|Hn]; [|exfalso; apply Hn; lia].
  destruct (Hrnd (c + 3 * i)%nat) as [Hu0 Hu1].
  pose proof (Q2R_unit _ Hu0 Hu1). pose proof MathPI_pos. split; nra.
Qed.

(** X11.  For draws in [0, 1), [new KuramotoModel(config)] has [N] phases
    and [N] frequencies, where [N] is [config.N] or 50; no phase exceeds in
    magnitude [Math.fround(Math.PI)], the single-precision neighbour of
    [Math.PI]: the phase is drawn between [-Math.PI] and [Math.PI] and stored in
    a [Float32Array].  The clock is 0, the history empty, no network is set,
    and three draws were made per oscillator. *)
Theorem kuramoto_create_state (rnd : draws) (config : Config) (c : nat) :
  (forall n, (0 <= rnd n)%Q /\ (rnd n < 1)%Q) ->
  let r := create rnd config c in
  N r.1 = orElseNat (cfg_N config) 50 /\
  length (theta r.1) = N r.1 /\ length (omega r.1) = N r.1 /\
  (forall i, (i < N r.1)%nat -> - Float32PI <= rd (theta r.1) i <= Float32PI) /\
  time r.1 = 0 /\ history r.1 = noHistory /\ adjacency r.1 = None /\
  r.2 = (c + 3 * N r.1)%nat.
Proof.
  intros Hrnd. cbn zeta. unfold create.
  set (n := orElseNat (cfg_N config) 50).
  match goal with |- context [initialize rnd ?m0 c] =>
    destruct (initialize_spec rnd m0 c Hrnd)
      as (HN & _ & _ & _ & _ & Had & Hlt & Hlo & Hti & Hh & Hc & Hr)
  end; [apply length_replicate..|].
  cbn [N theta omega adjacency] in *. rewrite HN.
  split_and!; try done.
  intros i Hi. pose proof MathPI_lt_Float32PI. specialize (Hr i Hi). lra.
Qed.

(** X11, witness: the default configuration on draws that are all one half. *)
Lemma kuramoto_create_state_witness :
  N (create halves emptyConfig 0).1 = 50%nat /\
  length (theta (create halves emptyConfig 0).1) = 50%nat /\
  (create halves emptyConfig 0).2 = 150%nat.
Proof.
  destruct (kuramoto_create_state halves emptyConfig 0) as (HN & Hl & _ & _ & _ & _ & _ & Hc).
  - intros n. split; [vm_compute; discriminate|vm_compute; reflexivity].
  - cbn zeta in *. rewrite Hl, Hc, HN. split; [reflexivity|]. split; reflexivity.
Defined.

(** X12.  [updateParameters] with an [N] that differs from the current one
    is destructive: it allocates [N] fresh phases and frequencies and
    re-initializes, so the phases are redrawn (none exceeds
    [Math.fround(Math.PI)] in magnitude), the clock returns to 0 and the history
    is emptied.  The scalars take
    the given values, and the adjacency matrix is kept as it was, whatever its
    size. *)
Theorem updateParameters_resize (rnd : draws) (params : Config) (m : KuramotoModel)
    (c n : nat) :
  (forall k, (0 <= rnd k)%Q /\ (rnd k < 1)%Q) ->
  cfg_N params = Some n -> n <> N m ->
  let r := updateParameters rnd params m c in
  N r.1 = n /\ length (theta r.1) = n /\ length (omega r.1) = n /\
  (forall i, (i < n)%nat -> - Float32PI <= rd (theta r.1) i <= Float32PI) /\
  time r.1 = 0 /\ history r.1 = noHistory /\
  adjacency r.1 = adjacency m /\
  K r.1 = match cfg_K params with Some v => v | None => K m end /\
  dt r.1 = match cfg_dt params with Some v => v | None => dt m end /\
  r.2 = (c + 3 * n)%nat.
Proof.
  intros Hrnd HN Hne. cbn zeta. unfold updateParameters. rewrite HN.
  destruct (decide (n <> N m)); [|done].
  match goal with |- context [initialize rnd ?m0 c] =>
    destruct (initialize_spec rnd m0 c Hrnd)
      as (HN' & HK & Hdt & _ & _ & Had & Hlt & Hlo & Hti & Hh & Hc & Hr)
  end; [apply length_replicate..|].
  cbn [N K dt theta omega adjacency] in *.
  split_and!; try done.
  intros i Hi. pose proof MathPI_lt_Float32PI. specialize (Hr i Hi). lra.
Qed.

(** X12, witness: the resting oscillator resized to three oscillators. *)
Lemma updateParameters_resize_witness :
  let params := {| cfg_N := Some 3%nat; cfg_K := Some 1; cfg_dt := None;
                   cfg_noiseLevel := None; cfg_phaseLag := None |} in
  let r := updateParameters halves params restingModel 0 in
  N r.1 = 3%nat /\ length (theta r.1) = 3%nat /\ time r.1 = 0 /\
  history r.1 = noHistory /\ K r.1 = 1 /\ r.2 = 9%nat.
Proof.
  intros params r.
  destruct (updateParameters_resize halves params restingModel 0 3)
    as (HN & Hl & _ & _ & Ht & Hh & _ & HK & _ & Hc).
  - intros n. split; [vm_compute; discriminate|vm_compute; reflexivity].
  - reflexivity.
  - simpl. lia.
  - fold r in HN, Hl, Ht, Hh, HK, Hc. repeat split; assumption.
Defined.

End KuramotoConstruction.

(* ================================================================= *)
(** ** The oscillator ensemble: clock, record, draws, synchrony *)

Section KuramotoDynamics.
Import Kuramoto.
Local Open Scope R_scope.

Lemma steps_frame (rnd : draws) n : forall m c,
  let m' := (steps rnd n m c).1 in
  phaseLag m' = phaseLag m /\ adjacency m' = adjacency m.
Proof.
  induction n as [|n IH]; intros m c.
  - cbn [steps fst]. done.
  - rewrite steps_S.
    destruct (step_shape rnd m c)
      as (k1 & k2 & k3 & k4 & _ & _ & _ & _ & _ & Hlag & _ & Had & _).
    destruct (IH (step rnd m c).1 (step rnd m c).2) as (Hlag' & Had').
    cbn zeta in *. by rewrite Hlag', Had', Hlag, Had.
Qed.

(** X13.  [step()] advances the clock by [dt] and appends to the history
    exactly what [getState()] reports afterwards: the new time, the order
    parameter of the new phases, and the new phases.  Any number of steps
    leaves [N], the scalar parameters, the frequencies and the network as they
    were. *)
Theorem kuramoto_step_record (rnd : draws) (n : nat) (m : KuramotoModel) (c : nat) :
  let m1 := (step rnd m c).1 in
  let s := getState m1 in
  let m' := (steps rnd n m c).1 in
  s_time s = time m + dt m /\
  h_time (history m1) = h_time (history m) ++ [s_time s] /\
  h_orderParameter (history m1) = h_orderParameter (history m) ++ [s_orderParameter s] /\
  h_phases (history m1) = h_phases (history m) ++ [s_theta s] /\
  N m' = N m /\ K m' = K m /\ dt m' = dt m /\ noiseLevel m' = noiseLevel m /\
  phaseLag m' = phaseLag m /\ omega m' = omega m /\ adjacency m' = adjacency m.
Proof.
  cbn zeta.
  destruct (step_shape rnd m c)
    as (k1 & k2 & k3 & k4 & _ & _ & _ & _ & _ & _ & _ & _ & Hti & _ & Ht & Hr & Hp).
  destruct (steps_shape rnd n m c) as (HN & HK & Hdt & Hno & Hom & _).
  destruct (steps_frame rnd n m c) as (Hlag & Had).
  cbn zeta in *. cbn [getState s_time s_orderParameter s_theta].
  rewrite Hti. split_and!; done.
Qed.

Lemma computeDerivatives_cursor (rnd : draws) m th c :
  (computeDerivatives rnd m th c).2
  = if Rlt_dec 0 (noiseLevel m) then (c + 2 * N m)%nat else c.
Proof.
  unfold computeDerivatives.
  replace (2 * N m)%nat with (2 * length (seq 0 (N m)))%nat
    by (rewrite length_seq; lia).
  generalize (replicate (N m) 0) (seq 0 (N m)). intros t l.
  destruct (Rlt_dec 0 (noiseLevel m)) as [Hn|Hn].
  - match goal with |- context [foldl ?f _ _] => set (F := f) end.
    assert (HF : forall t c i, (F (t, c) i).2 = S (S c)) by done.
    revert t c.
    induction l as [|i l IH]; intros t c; cbn [foldl length snd]; [lia|].
    rewrite (surjective_pairing (F (t, c) i)), IH, HF. lia.
  - revert t c.
    induction l as [|i l IH]; intros t c; cbn [foldl length snd]; [done|].
    apply IH.
Qed.

Lemma step_cursor (rnd : draws) m c :
  (step rnd m c).2 = if Rlt_dec 0 (noiseLevel m) then (c + 8 * N m)%nat else c.
Proof.
  unfold step.
  destruct (computeDerivatives rnd m (theta m) c) as [k1 c1] eqn:E1.
  destruct (computeDerivatives rnd m _ c1) as [k2 c2] eqn:E2.
  destruct (computeDerivatives rnd m _ c2) as [k3 c3] eqn:E3.
  destruct (computeDerivatives rnd m _ c3) as [k4 c4] eqn:E4.
  cbn [snd].
  apply (f_equal snd) in E1, E2, E3, E4. rewrite computeDerivatives_cursor in *.
  cbn [snd] in *. destruct (Rlt_dec 0 (noiseLevel m)); lia.
Qed.

(** X14.  Without noise ([noiseLevel <= 0]) stepping makes no call of
    [Math.random()]; with noise every step makes eight draws per oscillator: a
    Box-Muller pair for each of the four derivative evaluations. *)
Theorem kuramoto_draws (rnd : draws) (n : nat) (m : KuramotoModel) (c : nat) :
  (noiseLevel m <= 0 -> (steps rnd n m c).2 = c) /\
  (0 < noiseLevel m -> (steps rnd n m c).2 = (c + 8 * N m * n)%nat).
Proof.
  revert m c. induction n as [|n IH]; intros m c.
  - cbn [steps snd]. split; intros _; lia.
  - rewrite steps_S.
    destruct (step_shape rnd m c) as (k1 & k2 & k3 & k4 & _ & HN & _ & _ & Hno & _).
    destruct (IH (step rnd m c).1 (step rnd m c).2) as [IH0 IH1].
    cbn zeta in *. rewrite Hno in IH0, IH1. rewrite HN in IH1.
    split; intros Hn.
    + rewrite IH0, step_cursor; [|done].
      destruct (Rlt_dec 0 (noiseLevel m)); [lra|done].
    + rewrite IH1, step_cursor; [|done].
      destruct (Rlt_dec 0 (noiseLevel m)); [lia|lra].
Qed.

(** X14, witness: three steps of the resting oscillator draw nothing. *)
Lemma kuramoto_draws_witness : (steps halves 3 restingModel 5).2 = 5%nat.
Proof.
  apply (proj1 (kuramoto_draws halves 3 restingModel 5)).
  cbv [restingModel noiseLevel]. lra.
Defined.



Lemma constant_sum (f : nat -> R) (v : R) n :
  (forall i, (i < n)%nat -> f i = v) ->
  foldl (fun s i => s + f i) 0 (seq 0 n) = INR n * v.
Proof.
  induction n as [|n IH]; intros Hf.
  - cbn [seq foldl INR]. lra.
  - rewrite seq_S, foldl_app, IH by (intros; apply Hf; lia).
    cbn [foldl plus]. rewrite Hf by lia. rewrite S_INR. lra.
Qed.






End KuramotoDynamics.

(* ================================================================= *)
(** ** The attention field: features, objects, attention map *)

Section AttentionFeatures.
Import AttentionField.
Local Open Scope R_scope.

Local Abbreviation total g l := (foldl (fun s f => s + g f) 0 l).

Lemma triple_sum (a b : nat -> R) (l : list nat) : forall d m1 m2,
  foldl (fun (acc : R * R * R) f =>
           let '(d, m1, m2) := acc in
           (d + a f * b f, m1 + a f * a f, m2 + b f * b f)) (d, m1, m2) l
  = (foldl (fun s f => s + a f * b f) d l,
     foldl (fun s f => s + a f * a f) m1 l,
     foldl (fun s f => s + b f * b f) m2 l).
Proof. induction l as [|f l IH]; intros d m1 m2; simpl; [done|apply IH]. Qed.

Lemma sum_comm (a b : nat -> R) (l : list nat) : forall d,
  foldl (fun s f => s + a f * b f) d l = foldl (fun s f => s + b f * a f) d l.
Proof.
  induction l as [|f l IH]; intros d; simpl; [done|].
  rewrite IH. by rewrite (Rmult_comm (a f)).
Qed.

Lemma similarity_sums m i j :
  computeFeatureSimilarity m i j
  = let a f := rd (nth i (features m) []) f in
    let b f := rd (nth j (features m) []) f in
    let l := seq 0 (numFeatures m) in
    if Req_dec_T (total (fun f => a f * a f) l) 0 then 0
    else if Req_dec_T (total (fun f => b f * b f) l) 0 then 0
    else total (fun f => a f * b f) l
         / (sqrt (total (fun f => a f * a f) l) * sqrt (total (fun f => b f * b f) l)).
Proof.
  unfold computeFeatureSimilarity.
  rewrite (triple_sum (fun f => rd (nth i (features m) []) f)
                      (fun f => rd (nth j (features m) []) f)). done.
Qed.

Lemma zero_sum (g : nat -> R) n :
  (forall f, (f < n)%nat -> g f = 0) -> total g (seq 0 n) = 0.
Proof.
  intros Hg. rewrite (constant_sum g 0 n Hg). lra.
Qed.

(** X17.  On two positions of the grid, each with its [numFeatures]
    features, [computeFeatureSimilarity] is symmetric, and it is 0 as soon as
    all features of one of the two positions are zero (the guard on a zero
    magnitude), whatever the other position holds. *)
Theorem featureSimilarity_symmetric (m : AttentionFieldModel) (i j : nat) :
  (i < length (features m))%nat -> (j < length (features m))%nat ->
  Forall (fun row => length row = numFeatures m) (features m) ->
  computeFeatureSimilarity m i j = computeFeatureSimilarity m j i /\
  ((forall f, (f < numFeatures m)%nat -> rd (nth i (features m) []) f = 0) ->
   computeFeatureSimilarity m i j = 0 /\ computeFeatureSimilarity m j i = 0).
Proof.
  intros _ _ _. rewrite !similarity_sums. cbn zeta.
  set (a := fun f => rd (nth i (features m) []) f).
  set (b := fun f => rd (nth j (features m) []) f).
  set (l := seq 0 (numFeatures m)).
  rewrite (sum_comm b a l 0).
  set (A := total (fun f => a f * a f) l) in *.
  set (B := total (fun f => b f * b f) l) in *.
  set (D := total (fun f => a f * b f) l) in *.
  split.
  - destruct (Req_dec_T A 0), (Req_dec_T B 0); try done.
    by rewrite (Rmult_comm (sqrt A)).
  - intros Hz.
    assert (HA0 : A = 0).
    { apply zero_sum. intros f Hf. unfold a. rewrite Hz by done. lra. }
    destruct (Req_dec_T A 0); [|done].
    by destruct (Req_dec_T B 0).
Qed.

(** X17, witness: in the 6 by 6 field the second cell has no feature, the
    first has one. *)
Lemma featureSimilarity_symmetric_witness :
  computeFeatureSimilarity smallField 1 0 = 0 /\
  computeFeatureSimilarity smallField 0 1 = 0.
Proof.
  refine (proj2 (featureSimilarity_symmetric smallField 1 0 _ _ _) _).
  - cbv [smallField features]. cbn [length]. rewrite length_replicate. lia.
  - cbv [smallField features]. cbn [length]. rewrite length_replicate. lia.
  - cbv [smallField features numFeatures].
    apply Forall_cons; split; [done|]. apply Forall_cons; split; [done|].
    by apply Forall_replicate.
  - intros f _. cbv [smallField features nth rd]. by destruct f as [|[|[|f]]].
Defined.

End AttentionFeatures.

(* ================================================================= *)
(** ** The attention field: moving objects and the record of a step *)

Section AttentionObjects.
Import AttentionField.
Local Open Scope R_scope.

Lemma bounce_spec (gs : nat) (pos vel : R) :
  (4 <= gs)%nat ->
  2 <= (bounce gs pos vel).1 <= INR gs - 2 /\
  Rabs (bounce gs pos vel).2 <= Rabs vel.
Proof.
  intros Hgs.
  assert (H4 : 4 <= INR gs).
  { replace 4 with (INR 4) by (simpl; lra). by apply le_INR. }
  unfold bounce.
  destruct (Rlt_dec pos 2); [|destruct (Rge_dec pos (INR gs - 2))]; cbn [fst snd];
    unfold Rmax, Rmin; repeat destruct (Rle_dec _ _);
    unfold Rabs; repeat destruct (Rcase_abs _); lra.
Qed.

Lemma moveObject_spec m o :
  (4 <= gridSize m)%nat ->
  sameObject o (moveObject m o) /\ inField (gridSize m) (moveObject m o).
Proof.
  intros Hgs. unfold moveObject.
  pose proof (bounce_spec (gridSize m) (obj_x o + obj_vx o * dt m) (obj_vx o) Hgs) as Hx.
  pose proof (bounce_spec (gridSize m) (obj_y o + obj_vy o * dt m) (obj_vy o) Hgs) as Hy.
  destruct (bounce (gridSize m) (obj_x o + obj_vx o * dt m) (obj_vx o)) as [x vx].
  destruct (bounce (gridSize m) (obj_y o + obj_vy o * dt m) (obj_vy o)) as [y vy].
  cbn [fst snd] in *. unfold sameObject, inField.
  cbn [obj_id obj_x obj_y obj_vx obj_vy obj_radius obj_intensity obj_features].
  split_and!; try done; lra.
Qed.

Lemma updateStimulusField_objects m :
  stimulusObjects (updateStimulusField m) = map (moveObject m) (stimulusObjects m) /\
  gridSize (updateStimulusField m) = gridSize m /\
  dt (updateStimulusField m) = dt m.
Proof.
  unfold updateStimulusField.
  assert (H : forall l l0 f0,
            (foldl (fun (acc : list StimulusObject * (list R * list (list R))) o =>
                      let o' := moveObject m o in
                      (acc.1 ++ [o'], projectObject m o' acc.2)) (l0, f0) l).1
            = l0 ++ map (moveObject m) l).
  { induction l as [|o l IH]; intros l0 f0; cbn [foldl map fst snd].
    - by rewrite app_nil_r.
    - rewrite IH, <- app_assoc. done. }
  specialize (H (stimulusObjects m) []
                (map (fun _ => 0) (stimulus m),
                 foldl (fun fs i => alter (fun row => map (fun _ => 0.5) row) i fs)
                       (features m) (seq 0 (N m)))).
  destruct (foldl _ _ (stimulusObjects m)) as [objs fields].
  cbn [fst] in H. subst objs. done.
Qed.

Lemma recordHistory_objects m :
  stimulusObjects (recordHistory m) = stimulusObjects m /\
  gridSize (recordHistory m) = gridSize m /\ dt (recordHistory m) = dt m /\
  time (recordHistory m) = time m /\
  calculateAttentionMap (recordHistory m) = calculateAttentionMap m /\
  detectTrackedObjects (recordHistory m) = detectTrackedObjects m.
Proof. unfold recordHistory. by destruct (_ <? _)%nat. Qed.

Lemma attention_step_objects rnd m c :
  stimulusObjects (step rnd m c).1 = map (moveObject m) (stimulusObjects m) /\
  gridSize (step rnd m c).1 = gridSize m /\ dt (step rnd m c).1 = dt m /\
  time (step rnd m c).1 = time m + dt m.
Proof.
  unfold step.
  destruct (updateStimulusField_objects m) as (Ho & Hg & Hd).
  destruct (updateStimulusField_frame m) as (_ & _ & _ & Hti & _).
  set (m1 := updateStimulusField m) in *.
  destruct (computeDerivatives rnd m1 (theta m1) c) as [k1 c1].
  destruct (computeDerivatives rnd m1 _ c1) as [k2 c2].
  destruct (computeDerivatives rnd m1 _ c2) as [k3 c3].
  destruct (computeDerivatives rnd m1 _ c3) as [k4 c4].
  cbn [fst].
  match goal with |- context [recordHistory ?x] =>
    destruct (recordHistory_objects x) as (-> & -> & -> & -> & _) end.
  cbn [stimulusObjects gridSize dt time set_time set_theta].
  rewrite Ho, Hg, Hd, Hti. done.
Qed.

#[local] Instance sameObject_trans : Transitive sameObject.
Proof.
  unfold sameObject. intros o1 o2 o3 (? & ? & ? & ? & ? & ?) (? & ? & ? & ? & ? & ?).
  split_and!; try congruence; etrans; done.
Qed.

(** X18.  Objects never leave the field: on a grid of at least 4 by 4 cells,
    after one or more calls of [step()] the objects are the same objects in the
    same order (same ids, radius, intensity and features), none is faster along
    an axis than before, and every centre lies in the padded square
    [[2, gridSize - 2]] on both axes. *)
Theorem objects_stay_in_field (rnd : draws) (n : nat) (m : AttentionFieldModel) (c : nat) :
  (4 <= gridSize m)%nat ->
  let objs := stimulusObjects (steps rnd (S n) m c).1 in
  Forall2 sameObject (stimulusObjects m) objs /\ Forall (inField (gridSize m)) objs.
Proof.
  revert m c. induction n as [|n IH]; intros m c Hgs objs; unfold objs;
    rewrite attention_steps_S;
    destruct (attention_step_objects rnd m c) as (Ho & Hg & _).
  - cbn [steps fst]. rewrite Ho. split.
    + apply Forall2_fmap_r, Forall_Forall2_diag, Forall_forall.
      intros o _. by apply moveObject_spec.
    + apply Forall_fmap, Forall_forall. intros o _. by apply moveObject_spec.
  - destruct (IH (step rnd m c).1 (step rnd m c).2) as [H2 Hin]; [by rewrite Hg|].
    rewrite Hg in Hin. split; [|done].
    etrans; [|exact H2].
    rewrite Ho. apply Forall2_fmap_r, Forall_Forall2_diag, Forall_forall.
    intros o _. by apply moveObject_spec.
Qed.

(** X18, witness: the object of the 6 by 6 field, moving out at speed 100. *)
Lemma objects_stay_in_field_witness :
  Forall (inField 6) (stimulusObjects (steps halves 3 smallField 0).1).
Proof.
  apply (objects_stay_in_field halves 2 smallField 0).
  cbv [smallField gridSize]. lia.
Defined.

(** X19.  [step()] advances the clock by [dt] and, on a history of at most 500
    frames, appends to each sequence exactly what [getState()] reports
    afterwards (time, attention map, tracked objects), dropping the oldest
    frame of each when 500 were held. *)
Theorem attention_step_record (rnd : draws) (m : AttentionFieldModel) (c : nat) :
  histBounded (history m) ->
  let m' := (step rnd m c).1 in
  let s := getState m' in
  let k := if decide (length (h_time (history m)) = 500%nat) then 1%nat else 0%nat in
  s_time s = time m + dt m /\
  h_time (history m') = drop k (h_time (history m)) ++ [s_time s] /\
  h_attentionMap (history m') = drop k (h_attentionMap (history m)) ++ [s_attentionMap s] /\
  h_trackedObjects (history m')
  = drop k (h_trackedObjects (history m)) ++ [s_trackedObjects s].
Proof.
  intros Hb.
  destruct (attention_step_objects rnd m c) as (_ & _ & _ & Hti).
  destruct (attention_step_shape rnd m c) as (mm & k1 & k2 & k3 & k4 & Hs & Hh & _).
  cbn zeta. cbn [getState s_time s_attentionMap s_trackedObjects].
  rewrite Hs in *.
  destruct (recordHistory_objects mm) as (_ & _ & _ & Htm & Ham & Htr).
  rewrite Ham, Htr, Hti. rewrite <- Hh in Hb |- *.
  destruct (recordHistory_sequences mm Hb) as (H1 & H2 & H3). cbn zeta in *.
  rewrite H1, H2, H3. rewrite <- Hti, Htm. done.
Qed.

(** X19, witness: the first step of the field of one cell. *)
Lemma attention_step_record_witness :
  time (step halves tinyField 0).1 = time tinyField + dt tinyField.
Proof.
  apply (attention_step_record halves tinyField 0).
  cbv [histBounded tinyField history noHistory h_time h_attentionMap h_trackedObjects length].
  lia.
Defined.

End AttentionObjects.

(* ================================================================= *)
(** ** The attention field: attention map and tracked objects *)

Section AttentionMap.
Import AttentionField.
Local Open Scope R_scope.

(** The neighbours' phasors add up to at most their number. *)
Lemma neighbour_sum_bound m idx :
  let '(sr, si, n) :=
    foldl (fun (acc : R * R * nat) jdx =>
             let '(sr, si, n) := acc in
             if Rgt_dec (rd (spatialWeights m) (idx * N m + jdx)%nat) 0
             then (sr + cos (rd (theta m) jdx), si + sin (rd (theta m) jdx), S n)
             else (sr, si, n))
          (0, 0, 0%nat) (seq 0 (N m)) in
  sr * sr + si * si <= INR n * INR n.
Proof.
  apply (foldl_invariant
           (fun acc : R * R * nat =>
              let '(sr, si, n) := acc in sr * sr + si * si <= INR n * INR n)).
  - cbn [INR]. lra.
  - intros [[sr si] n] jdx _ Hacc.
    destruct (Rgt_dec _ 0); [|done].
    rewrite S_INR.
    pose proof (projection_le sr si (INR n) (rd (theta m) jdx) (pos_INR n) Hacc).
    pose proof (unit_phasor (rd (theta m) jdx)). nra.
Qed.

Lemma unit_insert (l : list R) (i : nat) (v : R) :
  0 <= v <= 1 -> Forall (fun x => 0 <= x <= 1) l ->
  Forall (fun x => 0 <= x <= 1) (<[i := v]> l).
Proof. intros Hv Hl. by apply Forall_insert. Qed.

Lemma calculateAttentionMap_unit m :
  length (calculateAttentionMap m) = N m /\
  Forall (fun x => 0 <= x <= 1) (calculateAttentionMap m).
Proof.
  unfold calculateAttentionMap.
  apply (foldl_invariant
           (fun a : list R => length a = N m /\ Forall (fun x => 0 <= x <= 1) a)).
  - split; [apply length_replicate|]. apply Forall_replicate. lra.
  - intros a idx _ [Hl Ha].
    pose proof (neighbour_sum_bound m idx) as Hb.
    destruct (foldl _ (0, 0, 0%nat) (seq 0 (N m))) as [[sr si] n].
    destruct (Nat.ltb_spec 0 n) as [Hn|Hn]; [|done].
    split; [by rewrite length_insert|].
    apply unit_insert; [|done].
    assert (Hpos : 0 < INR n) by (apply lt_0_INR; lia).
    split; [apply sqrt_pos|].
    rewrite <- sqrt_1. apply sqrt_le_1_alt.
    assert (Hq : sr / INR n * (sr / INR n) + si / INR n * (si / INR n)
                 = (sr * sr + si * si) / (INR n * INR n)) by (field; lra).
    rewrite Hq. apply (Rmult_le_reg_r (INR n * INR n)); [nra|].
    replace ((sr * sr + si * si) / (INR n * INR n) * (INR n * INR n))
      with (sr * sr + si * si) by (field; lra).
    lra.
Qed.

(** X20.  The attention map is a map of local order parameters: it has one
    entry per cell, and every entry lies in [[0, 1]]. *)
Theorem attentionMap_range (m : AttentionFieldModel) (idx : nat) :
  length (calculateAttentionMap m) = N m /\
  0 <= rd (calculateAttentionMap m) idx <= 1.
Proof.
  destruct (calculateAttentionMap_unit m) as [Hl Ha]. split; [done|].
  unfold rd. rewrite nth_lookup.
  destruct (calculateAttentionMap m !! idx) as [v|] eqn:Hv; cbn [default].
  - by apply (Forall_lookup_1 _ _ _ _ Ha Hv).
  - lra.
Qed.

Lemma sample_unit a idx v :
  Forall (fun x => 0 <= x <= 1) a -> sample a idx = Some v -> 0 <= v <= 1.
Proof.
  intros Ha. unfold sample. destruct (0 <=? idx)%Z; [|done].
  intros Hv. by apply (Forall_lookup_1 _ _ _ _ Ha Hv).
Qed.

(** The total over the neighbourhood is at most the number of cells read. *)
Lemma neighbourhood_bound m a cx cy :
  Forall (fun x => 0 <= x <= 1) a ->
  forall t, (neighbourhood m a cx cy).1 = Some t ->
    0 <= t <= INR (neighbourhood m a cx cy).2.
Proof.
  intros Ha. unfold neighbourhood.
  apply (foldl_invariant
           (fun acc : option R * nat => forall t, acc.1 = Some t -> 0 <= t <= INR acc.2)).
  { intros t [= <-]. cbn [snd INR]. lra. }
  intros acc dx _ Hacc.
  apply (foldl_invariant
           (fun acc : option R * nat => forall t, acc.1 = Some t -> 0 <= t <= INR acc.2));
    [done|].
  intros [tot n] dy _ Hin t. cbn [fst snd]. rewrite S_INR.
  destruct tot as [t0|]; [|done].
  destruct (sample a _) as [v|] eqn:Hs; [|done].
  intros [= <-]. apply (sample_unit a _ v Ha) in Hs.
  specialize (Hin t0 eq_refl). cbn [snd] in Hin. lra.
Qed.

(** X21.  What [detectTrackedObjects()] reports: every entry carries the id
    and the position of one of the stimulus objects and an attention above the
    threshold 0.6 and at most 1; the entries come in the order of the objects,
    at most one per object. *)
Theorem tracked_objects_sound (m : AttentionFieldModel) :
  let tracked := detectTrackedObjects m in
  (forall t, t ∈ tracked ->
     0.6 < tr_attention t <= 1 /\
     exists o, o ∈ stimulusObjects m /\ tr_id t = obj_id o /\
               tr_position t = (obj_x o, obj_y o)) /\
  sublist (map tr_id tracked) (map obj_id (stimulusObjects m)) /\
  (length tracked <= length (stimulusObjects m))%nat.
Proof.
  cbn zeta. unfold detectTrackedObjects.
  destruct (calculateAttentionMap_unit m) as [_ Ha].
  set (a := calculateAttentionMap m) in *.
  generalize (stimulusObjects m). intros objs.
  induction objs as [|o objs IH] using rev_ind.
  - cbn [foldl map length]. split; [|done]. intros t Ht. by apply elem_of_nil in Ht.
  - rewrite foldl_app. cbn [foldl].
    destruct IH as (IH1 & IH2 & IH3).
    set (tracked := foldl _ [] objs) in *.
    pose proof (neighbourhood_bound m a (Int_part (obj_x o)) (Int_part (obj_y o)) Ha) as Hb.
    destruct (neighbourhood m a _ _) as [total count]. cbn [fst snd] in Hb.
    assert (Hkeep :
      (forall t, t ∈ tracked ->
         0.6 < tr_attention t <= 1 /\
         exists o0, o0 ∈ objs ++ [o] /\ tr_id t = obj_id o0 /\
                    tr_position t = (obj_x o0, obj_y o0)) /\
      sublist (map tr_id tracked) (map obj_id (objs ++ [o])) /\
      (length tracked <= length (objs ++ [o]))%nat).
    { split_and!.
      - intros t Ht. destruct (IH1 t Ht) as (Hatt & o0 & Ho0 & Hid).
        split; [done|]. exists o0. split; [|done]. apply elem_of_app. by left.
      - rewrite map_app. by apply sublist_inserts_r.
      - rewrite length_app. lia. }
    destruct total as [tot|]; [|done].
    destruct (Rgt_dec (tot / INR count) 0.6) as [Hgt|]; [|done].
    split_and!.
    + intros t Ht. apply elem_of_app in Ht as [Ht|Ht].
      * by apply Hkeep.
      * apply list_elem_of_singleton in Ht as ->.
        cbn [tr_attention tr_id tr_position]. split.
        -- split; [lra|]. specialize (Hb tot eq_refl).
           destruct (Req_dec_T (INR count) 0) as [H0|H0].
           ++ rewrite H0 in *. assert (tot = 0) as -> by lra.
              unfold Rdiv in Hgt. rewrite Rmult_0_l in Hgt. lra.
           ++ pose proof (pos_INR count).
              apply (Rmult_le_reg_r (INR count)); [lra|].
              replace (tot / INR count * INR count) with tot by (field; done). lra.
        -- exists o. split; [|done]. apply elem_of_app. right. by apply list_elem_of_singleton.
    + rewrite !map_app. by apply sublist_app.
    + rewrite !length_app. cbn [length]. lia.
Qed.

(** X21, witness: the field with one object reports at most one entry. *)
Lemma tracked_objects_sound_witness :
  (length (detectTrackedObjects smallField) <= 1)%nat.
Proof. apply (tracked_objects_sound smallField). Defined.

Lemma exp_nonpos y : y <= 0 -> 0 < exp y <= 1.
Proof.
  intros Hy. split; [apply exp_pos|].
  destruct (Rle_lt_or_eq_dec y 0 Hy) as [Hlt| ->].
  - rewrite <- exp_0. left. by apply exp_increasing.
  - rewrite exp_0. lra.
Qed.

Lemma rd_bounded (l : list R) (lo hi : R) i :
  lo <= 0 <= hi -> Forall (fun x => lo <= x <= hi) l -> lo <= rd l i <= hi.
Proof.
  intros H0 Hl. unfold rd. rewrite nth_lookup.
  destruct (l !! i) as [v|] eqn:Hv; cbn [default]; [|lra].
  by apply (Forall_lookup_1 _ _ _ _ Hl Hv).
Qed.

Lemma projectObject_stimulus m o b fields :
  0 <= b -> obj_intensity o <= b ->
  Forall (fun x => 0 <= x <= b) fields.1 ->
  length (projectObject m o fields).1 = length fields.1 /\
  Forall (fun x => 0 <= x <= b) (projectObject m o fields).1.
Proof.
  intros Hb Hint Hf. unfold projectObject.
  set (P := fun fs : list R * list (list R) =>
              length fs.1 = length fields.1 /\ Forall (fun x => 0 <= x <= b) fs.1).
  apply (foldl_invariant P); [done|].
  intros fs i _ Hfs. apply (foldl_invariant P); [done|].
  clear fs Hfs. intros [stim feats] j _ [Hl Hs]. cbn [fst] in *.
  destruct (Rle_dec _ _); [|done].
  set (act := obj_intensity o * exp _).
  assert (Hact : act <= b).
  { unfold act.
    match goal with |- _ * exp ?y <= _ => destruct (exp_nonpos y) as [He0 He1] end.
    - pose proof (pow2_ge_0 (sqrt ((INR i - obj_x o) * (INR i - obj_x o)
                                   + (INR j - obj_y o) * (INR j - obj_y o))
                             / obj_radius o)). lra.
    - destruct (Rle_dec 0 (obj_intensity o)); nra. }
  assert (P (<[(i * gridSize m + j)%nat := Rmax (rd stim (i * gridSize m + j)) act]> stim,
             feats)) as HP.
  { split; cbn [fst]; [by rewrite length_insert|].
    apply Forall_insert; [done|].
    pose proof (rd_bounded stim 0 b (i * gridSize m + j) ltac:(lra) Hs).
    split; [etrans; [|apply Rmax_l]; lra|apply Rmax_lub; lra]. }
  destruct (Rgt_dec act 0.1); exact HP.
Qed.

Lemma moveObject_intensity m o : obj_intensity (moveObject m o) = obj_intensity o.
Proof. unfold moveObject. by do 2 destruct (bounce _ _ _). Qed.

Lemma updateStimulusField_stimulus m b :
  0 <= b -> Forall (fun o => obj_intensity o <= b) (stimulusObjects m) ->
  length (stimulus (updateStimulusField m)) = length (stimulus m) /\
  Forall (fun x => 0 <= x <= b) (stimulus (updateStimulusField m)).
Proof.
  intros Hb Hint. unfold updateStimulusField.
  set (feats0 := foldl _ (features m) _).
  assert (H : forall l acc,
            Forall (fun o => obj_intensity o <= b) l ->
            length acc.2.1 = length (stimulus m) /\ Forall (fun x => 0 <= x <= b) acc.2.1 ->
            let r := foldl (fun (acc : list StimulusObject * (list R * list (list R))) o =>
                              let o' := moveObject m o in
                              (acc.1 ++ [o'], projectObject m o' acc.2)) acc l in
            length r.2.1 = length (stimulus m) /\ Forall (fun x => 0 <= x <= b) r.2.1).
  { induction l as [|o l IH]; intros acc Hl Hacc; cbn [foldl]; [done|].
    apply Forall_cons in Hl as [Ho Hl]. apply IH; [done|]. cbn [snd].
    destruct Hacc as [Hlen Hacc].
    destruct (projectObject_stimulus m (moveObject m o) b acc.2 Hb) as [H1 H2];
      [by rewrite moveObject_intensity|done|].
    split; [congruence|done]. }
  specialize (H (stimulusObjects m) ([], (map (fun _ => 0) (stimulus m), feats0)) Hint).
  cbn zeta in H. cbn [snd fst] in H.
  destruct (foldl _ _ (stimulusObjects m)) as [objs fields].
  cbn [stimulus set_stimulusObjects set_features set_stimulus snd fst] in *.
  apply H. split; [by rewrite length_map|].
  apply Forall_fmap, Forall_forall. intros x _. cbn. lra.
Qed.

Lemma attention_step_stimulus rnd m c :
  stimulus (step rnd m c).1 = stimulus (updateStimulusField m).
Proof.
  unfold step.
  set (m1 := updateStimulusField m).
  destruct (computeDerivatives rnd m1 (theta m1) c) as [k1 c1].
  destruct (computeDerivatives rnd m1 _ c1) as [k2 c2].
  destruct (computeDerivatives rnd m1 _ c2) as [k3 c3].
  destruct (computeDerivatives rnd m1 _ c3) as [k4 c4].
  cbn [fst]. unfold recordHistory. by destruct (_ <? _)%nat.
Qed.

(** The stimulus after one or more steps, between 0 and a bound on the
    intensities. *)
Lemma stimulus_steps_range (rnd : draws) (n : nat) (b : R) (idx : nat) :
  0 <= b -> forall (m : AttentionFieldModel) (c : nat),
  Forall (fun o => obj_intensity o <= b) (stimulusObjects m) ->
  let m' := (steps rnd (S n) m c).1 in
  length (stimulus m') = length (stimulus m) /\ 0 <= rd (stimulus m') idx <= b.
Proof.
  intros Hb. induction n as [|n IH]; intros m c Hint;
    cbn zeta; rewrite attention_steps_S.
  - cbn [steps fst]. rewrite attention_step_stimulus.
    destruct (updateStimulusField_stimulus m b Hb Hint) as [Hl Hs].
    split; [done|]. apply rd_bounded; [lra|done].
  - destruct (attention_step_objects rnd m c) as (Ho & _).
    destruct (IH (step rnd m c).1 (step rnd m c).2) as [Hl Hr].
    { rewrite Ho. apply Forall_fmap, Forall_forall. intros o Hin. cbn.
      rewrite moveObject_intensity. rewrite Forall_forall in Hint. by apply Hint. }
    split; [|done]. rewrite Hl, attention_step_stimulus.
    by destruct (updateStimulusField_stimulus m b Hb Hint).
Qed.

Lemma intensity_bound (objs : list StimulusObject) :
  exists b, 0 <= b /\ Forall (fun o => obj_intensity o <= b) objs.
Proof.
  induction objs as [|o objs (b & Hb & Hall)].
  - exists 0. split; [lra|by apply Forall_nil].
  - exists (Rmax b (obj_intensity o)). split; [etrans; [exact Hb|apply Rmax_l]|].
    apply Forall_cons. split; [apply Rmax_r|].
    eapply Forall_impl; [exact Hall|]. intros o' Ho'. cbn in Ho'.
    etrans; [exact Ho'|apply Rmax_l].
Qed.

(** X22.  The stimulus field is never negative, and it is made by the
    objects: on a field whose objects have a radius, after one or more calls
    of [step()] the stimulus array has kept its length and every entry is 0 or
    more; when no object has a positive intensity (in particular when there is
    no object) every entry is 0. *)
Theorem stimulus_field_nonnegative (rnd : draws) (n : nat) (m : AttentionFieldModel)
    (c : nat) (idx : nat) :
  Forall (fun o => obj_radius o <> 0) (stimulusObjects m) ->
  let m' := (steps rnd (S n) m c).1 in
  length (stimulus m') = length (stimulus m) /\
  0 <= rd (stimulus m') idx /\
  (Forall (fun o => obj_intensity o <= 0) (stimulusObjects m) ->
   rd (stimulus m') idx = 0).
Proof.
  intros _. cbn zeta.
  destruct (intensity_bound (stimulusObjects m)) as (b & Hb & Hall).
  destruct (stimulus_steps_range rnd n b idx Hb m c Hall) as [Hl Hr].
  cbn zeta in *. split; [done|]. split; [lra|].
  intros Hzero.
  destruct (stimulus_steps_range rnd n 0 idx ltac:(lra) m c Hzero) as [_ H0].
  cbn zeta in H0. lra.
Qed.

(** X22, witness: the 6 by 6 field, whose object has radius 3. *)
Lemma stimulus_field_nonnegative_witness :
  0 <= rd (stimulus (steps halves 2 smallField 0).1) 7.
Proof.
  apply (stimulus_field_nonnegative halves 1 smallField 0 7).
  cbv [smallField stimulusObjects]. apply Forall_cons. split; [|by apply Forall_nil].
  cbn [obj_radius]. lra.
Defined.

End AttentionMap.

(* ================================================================= *)
(** ** The attention field: spatial weights *)

Section AttentionWeights.
Import AttentionField.
Local Open Scope R_scope.

(** X23.  The spatial weights of a field of [gridSize * gridSize] cells with
    a decay that is not negative: one weight per ordered pair of cells, every
    weight in [[0, 1]], and no cell is coupled to itself. *)
Theorem spatialWeights_shape (m : AttentionFieldModel) (idx jdx : nat) :
  N m = (gridSize m * gridSize m)%nat -> 0 <= spatialDecay m ->
  let w := computeSpatialWeights m in
  length w = (N m * N m)%nat /\
  0 <= rd w (idx * N m + jdx) <= 1 /\
  rd w (idx * N m + idx) = 0.
Proof.
  intros HN Hdecay. cbn zeta.
  set (P := fun w : list R =>
              length w = (N m * N m)%nat /\ Forall (fun x => 0 <= x <= 1) w /\
              forall i, rd w (i * N m + i) = 0).
  assert (HP : P (computeSpatialWeights m)).
  { unfold computeSpatialWeights.
    apply (foldl_invariant P).
    { split_and!; [apply length_replicate|apply Forall_replicate; lra|].
      intros i. unfold rd. rewrite nth_lookup.
      destruct (replicate _ _ !! _) as [v|] eqn:Hv; [|done].
      apply lookup_replicate in Hv as [-> _]. done. }
    intros w0 i Hi H0. apply (foldl_invariant P); [done|]. clear w0 H0.
    intros w1 j Hj H1. apply (foldl_invariant P); [done|]. clear w1 H1.
    intros w2 k Hk H2. apply (foldl_invariant P); [done|]. clear w2 H2.
    intros w l Hl (Hlen & Hr & Hd).
    apply elem_of_seq in Hi, Hj, Hk, Hl.
    assert (Hzero : P (<[((i * gridSize m + j) * N m + (k * gridSize m + l))%nat := 0]> w)).
    { split_and!; [by rewrite length_insert|apply Forall_insert; [done|lra]|].
      intros x. rewrite rd_insert. by case_decide. }
    destruct (decide (_ = _)) as [Heq|Hne]; [done|].
    destruct (Rle_dec _ _); [|done].
    split_and!; [by rewrite length_insert| |].
    - apply Forall_insert; [done|].
      match goal with |- _ <= exp ?y <= _ => destruct (exp_nonpos y) as [He0 He1] end; [|lra].
      pose proof (sqrt_pos ((INR i - INR k) * (INR i - INR k)
                            + (INR j - INR l) * (INR j - INR l))). nra.
    - intros x. rewrite rd_insert. case_decide as Hc; [|done].
      exfalso. destruct Hc as [Hc _]. apply Hne.
      assert (Hb : (k * gridSize m + l < N m)%nat) by (rewrite HN; nia).
      assert (Ha : (i * gridSize m + j < N m)%nat) by (rewrite HN; nia).
      revert Hc Ha Hb. generalize (i * gridSize m + j)%nat (k * gridSize m + l)%nat (N m).
      intros a b n Hc Ha Hb.
      destruct (decide (x < n)%nat) as [Hx|Hx]; [|nia].
      destruct (Nat.lt_trichotomy a x) as [Hlt|[->|Hgt]]; [|lia|].
      + assert ((a + 1) * n <= x * n)%nat by (apply Nat.mul_le_mono_r; lia). lia.
      + assert ((x + 1) * n <= a * n)%nat by (apply Nat.mul_le_mono_r; lia). lia. }
  destruct HP as (Hlen & Hr & Hd).
  split; [done|]. split; [apply rd_bounded; [lra|done]|done].
Qed.

(** X23, witness: the 6 by 6 field with decay 0.3. *)
Lemma spatialWeights_shape_witness :
  rd (computeSpatialWeights smallField) (7 * 36 + 7) = 0.
Proof.
  apply (spatialWeights_shape smallField 7 0).
  - reflexivity.
  - cbv [smallField spatialDecay]. lra.
Defined.

End AttentionWeights.

(* ================================================================= *)
(** ** Run metrics: when they are returned, and what they say *)

Section MetricsTheorems.
Import RunMetrics.
Local Open Scope R_scope.

Lemma runMetrics_body h r :
  ha_orderParameter h = Some r -> r <> [] ->
  calculateRunMetrics (Some h)
  = let n := length r in
    let final := rd r (n - 1) in
    let mean := sum r / INR n in
    let std := sqrt (sumSquares mean r / INR n) in
    match calculateSettlingTime (ha_time h) r final with
    | Throws => Throws
    | Returns settling =>
        Returns {| finalR := toFixed 4 final; meanR := toFixed 4 mean;
                   stdR := toFixed 4 std; minR := toFixed 4 (minOf r);
                   maxR := toFixed 4 (maxOf r); settlingTime := settling;
                   converged := checkConvergence r final std;
                   oscillating := detectOscillation r |}
    end.
Proof.
  intros Hr Hne. unfold calculateRunMetrics. rewrite Hr. by destruct r.
Qed.

Lemma settleFrom_returns time r final threshold tolerance sp (idxs : list nat) :
  Forall (fun i => (i < length time)%nat) idxs ->
  exists s, settleFrom time r final threshold tolerance sp idxs = Returns s.
Proof.
  induction idxs as [|i idxs IH]; intros Hi; cbn [settleFrom]; [by eexists|].
  apply Forall_cons in Hi as [Hi Hrest].
  destruct (Rge_dec _ _); [|by apply IH].
  destruct (settled _ _ _ _ _); [|by apply IH].
  destruct (lookup_lt_is_Some_2 time i Hi) as [t ->]. by eexists.
Qed.

Lemma calculateSettlingTime_returns time r final :
  (length r <= length time)%nat ->
  exists s, calculateSettlingTime (Some time) r final = Returns s.
Proof.
  intros Hl. unfold calculateSettlingTime. destruct time as [|t0 time]; [by eexists|].
  apply settleFrom_returns, Forall_forall. intros i Hi%elem_of_seq. lia.
Qed.

Lemma kuramoto_steps_snoc rnd n : forall m c,
  Kuramoto.steps rnd (S n) m c
  = Kuramoto.step rnd (Kuramoto.steps rnd n m c).1 (Kuramoto.steps rnd n m c).2.
Proof.
  induction n as [|n IH]; intros m c.
  - cbn [Kuramoto.steps fst snd]. by destruct (Kuramoto.step rnd m c).
  - rewrite steps_S, IH. by rewrite <- steps_S.
Qed.

(** X24.  The history of a stepped ensemble keeps one time stamp per
    order-parameter sample: starting from sequences of equal length, after any
    number of steps [history.time] and [history.orderParameter] have the same
    length, so [calculateSettlingTime] on them never reads a missing
    [time[i]] and returns.  And whenever [calculateRunMetrics(model.history)]
    returns after at least one step, its [finalR] is the order parameter of the
    current phases, rounded to four decimals. *)
Theorem saved_run_time_stamps (rnd : draws) (n : nat) (m : Kuramoto.KuramotoModel)
    (c : nat) :
  length (Kuramoto.h_time (Kuramoto.history m))
  = length (Kuramoto.h_orderParameter (Kuramoto.history m)) ->
  let m' := (Kuramoto.steps rnd n m c).1 in
  let t := Kuramoto.h_time (Kuramoto.history m') in
  let r := Kuramoto.h_orderParameter (Kuramoto.history m') in
  let m'' := (Kuramoto.steps rnd (S n) m c).1 in
  length t = length r /\
  (forall final, exists s, calculateSettlingTime (Some t) r final = Returns s) /\
  (forall mt, saveRunMetrics m'' = Returns mt ->
     finalR mt = toFixed 4 (Kuramoto.calculateOrderParameter m'')).
Proof.
  intros Hlen. cbn zeta.
  assert (Hsame : forall k, let mk := (Kuramoto.steps rnd k m c).1 in
            length (Kuramoto.h_time (Kuramoto.history mk))
            = length (Kuramoto.h_orderParameter (Kuramoto.history mk))).
  { intros k.
    destruct (steps_shape rnd k m c)
      as (_ & _ & _ & _ & _ & _ & _ & (ts & Ht & Hlt) & (rs & Hr & Hlr) & _).
    cbn zeta in *. rewrite Ht, Hr, !length_app. lia. }
  split; [apply Hsame|]. split.
  - intros final. apply calculateSettlingTime_returns.
    specialize (Hsame n). cbn zeta in Hsame. lia.
  - intros mt. rewrite kuramoto_steps_snoc.
    set (mn := (Kuramoto.steps rnd n m c).1). set (cn := (Kuramoto.steps rnd n m c).2).
    destruct (step_shape rnd mn cn)
      as (k1 & k2 & k3 & k4 & _ & _ & _ & _ & _ & _ & _ & _ & _ & _ & _ & Hr & _).
    cbn zeta in Hr. unfold saveRunMetrics.
    set (h := {| ha_time := _; ha_orderParameter := _ |}).
    rewrite (runMetrics_body h _ eq_refl).
    + cbn zeta. destruct (calculateSettlingTime _ _ _) as [s|]; [|done].
      intros [= <-]. cbn [finalR]. f_equal. rewrite Hr, length_app. cbn [length].
      unfold rd.
      replace (length _ + 1 - 1)%nat
        with (length (Kuramoto.h_orderParameter (Kuramoto.history mn)) + 0)%nat by lia.
      by rewrite app_nth2_plus.
    + rewrite Hr. intros Hnil. by apply app_eq_nil in Hnil as [_ [=]].
Qed.

(** X24, witness: the pair of coupled oscillators, with its empty history,
    stepped four times. *)
Lemma saved_run_time_stamps_witness :
  length (Kuramoto.h_time (Kuramoto.history (Kuramoto.steps halves 4 pairModel 0).1))
  = length (Kuramoto.h_orderParameter
              (Kuramoto.history (Kuramoto.steps halves 4 pairModel 0).1)).
Proof.
  apply (saved_run_time_stamps halves 4 pairModel 0 eq_refl).
Defined.

Lemma Int_part_le x y : x <= y -> (Int_part x <= Int_part y)%Z.
Proof.
  intros Hxy. destruct (base_Int_part x) as [Hx _], (base_Int_part y) as [_ Hy].
  assert (H : IZR (Int_part x) < IZR (Int_part y + 1)) by (rewrite plus_IZR; lra).
  apply lt_IZR in H. lia.
Qed.

Lemma Int_part_nonneg x : 0 <= x -> (0 <= Int_part x)%Z.
Proof.
  intros Hx. destruct (base_Int_part x) as [_ Hy].
  assert (H : IZR (-1) < IZR (Int_part x)) by lra.
  apply lt_IZR in H. lia.
Qed.

Lemma pow10_pos d : 0 < 10 ^ d.
Proof. apply pow_lt. lra. Qed.

(** Rounding keeps the order. *)
Lemma toFixed_mono d x y : x <= y -> toFixed d x <= toFixed d y.
Proof.
  intros Hxy. unfold toFixed. pose proof (pow10_pos d) as Hs.
  set (s := 10 ^ d) in *.
  assert (Hdiv : forall a b : Z, (a <= b)%Z -> IZR a / s <= IZR b / s).
  { intros a b Hab. apply IZR_le in Hab. unfold Rdiv.
    apply Rmult_le_compat_r; [|done]. left. by apply Rinv_0_lt_compat. }
  destruct (Rlt_dec x 0) as [Hx|Hx], (Rlt_dec y 0) as [Hy|Hy].
  - apply Ropp_le_contravar, Hdiv, Int_part_le. nra.
  - assert (0 <= IZR (Int_part (- x * s + / 2)) / s).
    { replace 0 with (IZR 0 / s) by (unfold Rdiv; lra).
      apply Hdiv, Int_part_nonneg. nra. }
    assert (0 <= IZR (Int_part (y * s + / 2)) / s).
    { replace 0 with (IZR 0 / s) by (unfold Rdiv; lra).
      apply Hdiv, Int_part_nonneg. nra. }
    lra.
  - lra.
  - apply Hdiv, Int_part_le. nra.
Qed.

Lemma toFixed_zero d : toFixed d 0 = 0.
Proof.
  unfold toFixed. destruct (Rlt_dec 0 0); [lra|].
  rewrite Rmult_0_l, Rplus_0_l.
  rewrite <- (Int_part_spec (/ 2) 0); [unfold Rdiv; lra|]. lra.
Qed.

Lemma foldl_Rmin_le (l : list R) : forall a,
  foldl Rmin a l <= a /\ forall x, x ∈ l -> foldl Rmin a l <= x.
Proof.
  induction l as [|y l IH]; intros a; cbn [foldl].
  - split; [lra|]. intros x Hx. by apply elem_of_nil in Hx.
  - destruct (IH (Rmin a y)) as [H1 H2].
    pose proof (Rmin_l a y). pose proof (Rmin_r a y).
    split; [lra|]. intros x [->|Hx]%elem_of_cons; [lra|by apply H2].
Qed.

Lemma foldl_Rmax_ge (l : list R) : forall a,
  a <= foldl Rmax a l /\ forall x, x ∈ l -> x <= foldl Rmax a l.
Proof.
  induction l as [|y l IH]; intros a; cbn [foldl].
  - split; [lra|]. intros x Hx. by apply elem_of_nil in Hx.
  - destruct (IH (Rmax a y)) as [H1 H2].
    pose proof (Rmax_l a y). pose proof (Rmax_r a y).
    split; [lra|]. intros x [->|Hx]%elem_of_cons; [lra|by apply H2].
Qed.

Lemma minOf_maxOf (r : list R) x : x ∈ r -> minOf r <= x <= maxOf r.
Proof.
  unfold minOf, maxOf. destruct r as [|a r]; [intros H; by apply elem_of_nil in H|].
  cbn [hd tl]. destruct (foldl_Rmin_le r a) as [H1 H2], (foldl_Rmax_ge r a) as [H3 H4].
  intros [->|Hx]%elem_of_cons; [lra|]. split; [by apply H2|by apply H4].
Qed.

(** X25.  Every summary that [calculateRunMetrics] returns has its extremes
    in order, also after the rounding to four decimals: [minR <= finalR <= maxR]
    (the final sample is one of the samples, and the rounding keeps the
    order), and [stdR >= 0]. *)
Theorem runMetrics_extremes (history : option HistoryArg) (mt : Metrics) :
  calculateRunMetrics history = Returns mt ->
  minR mt <= finalR mt <= maxR mt /\ 0 <= stdR mt.
Proof.
  assert (Hno : minR noMetrics <= finalR noMetrics <= maxR noMetrics /\
                0 <= stdR noMetrics) by (cbn; lra).
  destruct history as [h|]; [|by intros [= <-]].
  destruct (ha_orderParameter h) as [r|] eqn:Hr;
    [|unfold calculateRunMetrics; rewrite Hr; by intros [= <-]].
  destruct (decide (r = [])) as [->|Hne];
    [unfold calculateRunMetrics; rewrite Hr; by intros [= <-]|].
  rewrite (runMetrics_body h r Hr Hne). cbn zeta.
  destruct (calculateSettlingTime _ _ _) as [s|]; [|done].
  intros [= <-]. cbn [minR maxR finalR stdR].
  assert (Hfinal : minOf r <= rd r (length r - 1) <= maxOf r).
  { apply minOf_maxOf. unfold rd. rewrite nth_lookup.
    destruct (lookup_lt_is_Some_2 r (length r - 1)) as [x Hx].
    - destruct r; [done|cbn [length]; lia].
    - rewrite Hx. cbn [default]. by eapply list_elem_of_lookup_2. }
  split; [split; apply toFixed_mono; lra|].
  rewrite <- (toFixed_zero 4). apply toFixed_mono, sqrt_pos.
Qed.

(** X25, witness: the series 0.2, 0.5, 0.4. *)
Lemma runMetrics_extremes_witness :
  exists mt, calculateRunMetrics (Some shortHistory) = Returns mt /\
             minR mt <= finalR mt <= maxR mt.
Proof.
  eexists. split; [reflexivity|].
  refine (proj1 (runMetrics_extremes (Some shortHistory) _ _)). reflexivity.
Defined.

Lemma settled_spec r final tolerance i sp :
  settled r final tolerance i sp = true
  <-> forall j, (i <= j < i + sp)%nat -> Rabs (rd r j - final) <= tolerance.
Proof.
  unfold settled. rewrite forallb_forall. split.
  - intros H j Hj. specialize (H j). rewrite in_seq in H. specialize (H Hj).
    destruct (Rgt_dec _ _); [done|lra].
  - intros H j Hj%in_seq. specialize (H j Hj).
    destruct (Rgt_dec _ _); [lra|done].
Qed.

Lemma settleFrom_spec time r final threshold tolerance sp t n : forall a,
  settleFrom time r final threshold tolerance sp (seq a n) = Returns (Some t) ->
  exists i ti, (a <= i < a + n)%nat /\ time !! i = Some ti /\ t = toFixed 2 ti /\
    rd r i >= threshold /\ settled r final tolerance i sp = true /\
    forall i', (a <= i' < i)%nat ->
      ~ (rd r i' >= threshold /\ settled r final tolerance i' sp = true).
Proof.
  induction n as [|n IH]; intros a; cbn [seq settleFrom]; [done|].
  assert (Hnext : settleFrom time r final threshold tolerance sp (seq (S a) n)
                  = Returns (Some t) ->
                  ~ (rd r a >= threshold /\ settled r final tolerance a sp = true) ->
                  exists i ti, (a <= i < a + S n)%nat /\ time !! i = Some ti /\
                    t = toFixed 2 ti /\ rd r i >= threshold /\
                    settled r final tolerance i sp = true /\
                    forall i', (a <= i' < i)%nat ->
                      ~ (rd r i' >= threshold /\ settled r final tolerance i' sp = true)).
  { intros Hs Hna. destruct (IH (S a) Hs) as (i & ti & Hi & Hti & Ht & Hge & Hse & Hprev).
    exists i, ti. split_and!; try done; try lia.
    intros i' Hi'. destruct (decide (i' = a)) as [->|]; [done|]. apply Hprev. lia. }
  destruct (Rge_dec (rd r a) threshold) as [Hge|Hge].
  - destruct (settled r final tolerance a sp) eqn:Hse.
    + destruct (time !! a) as [ti|] eqn:Hti; [|done].
      intros [= <-]. exists a, ti. split_and!; try done; try lia.
    + intros Hs. apply Hnext; [done|]. intros [_ H]. congruence.
  - intros Hs. apply Hnext; [done|]. intros [H _]. done.
Qed.

(** X26.  A settling time that [calculateSettlingTime] returns is the rounded
    time of the earliest sample that has reached 90% of the final value and
    from which the series stays within 5% of the final value over the sustain
    period, [min(50, floor(length / 10))] samples. *)
Theorem settlingTime_earliest (time r : list R) (final t : R) :
  calculateSettlingTime (Some time) r final = Returns (Some t) ->
  let sp := Nat.min 50 (length r / 10) in
  let holds i :=
    rd r i >= 0.9 * final /\
    forall j, (i <= j < i + sp)%nat -> Rabs (rd r j - final) <= 0.05 * final in
  exists i ti, (i < length r - sp)%nat /\ time !! i = Some ti /\ t = toFixed 2 ti /\
    holds i /\ forall i', (i' < i)%nat -> ~ holds i'.
Proof.
  unfold calculateSettlingTime. destruct time as [|t0 time]; [done|].
  intros Hs. cbn zeta.
  destruct (settleFrom_spec _ _ _ _ _ _ _ _ _ Hs)
    as (i & ti & Hi & Hti & Ht & Hge & Hse & Hprev).
  exists i, ti. split_and!; try done; try lia; [by apply settled_spec|].
  intros i' Hi' [H1 H2]. apply (Hprev i'); [lia|]. split; [done|by apply settled_spec].
Qed.

(** X26, witness: ten samples equal to 1, all stamped with the time 3, settle
    at the first sample. *)
Lemma settlingTime_earliest_witness :
  exists i ti, (i < 9)%nat /\ replicate 10 3 !! i = Some ti /\
    toFixed 2 3 = toFixed 2 ti.
Proof.
  destruct (settlingTime_earliest (replicate 10 3) (replicate 10 1) 1 (toFixed 2 3))
    as (i & ti & Hi & Hti & Ht & _).
  - unfold calculateSettlingTime.
    change (replicate 10 3) with (3 :: replicate 9 3).
    change (seq 0 (length (replicate 10 1) - Nat.min 50 (length (replicate 10 1) / 10)))
      with (0%nat :: seq 1 8).
    change (Nat.min 50 (length (replicate 10 1) / 10)) with 1%nat.
    cbv zeta. unfold settleFrom at 1.
    assert (Hs : settled (replicate 10 1) 1 (0.05 * 1) 0 1 = true).
    { apply settled_spec. intros j Hj. assert (j = 0)%nat as -> by lia.
      change (rd (replicate 10 1) 0) with 1.
      rewrite Rminus_diag, Rabs_R0. lra. }
    rewrite Hs. change (rd (replicate 10 1) 0) with 1.
    destruct (Rge_dec 1 (0.9 * 1)) as [_|Hn]; [reflexivity|lra].
  - exists i, ti. done.
Defined.

Lemma rd_drop (r : list R) n i : rd (drop n r) i = rd r (n + i).
Proof. unfold rd. apply nth_skipn. Qed.





(** X28.  A run that only rises, or only falls, over its second half is never
    reported as oscillating. *)
Theorem monotone_not_oscillating (r : list R) :
  (forall i, (length r / 2 <= i)%nat -> (i + 1 < length r)%nat -> rd r i <= rd r (i + 1)) \/
  (forall i, (length r / 2 <= i)%nat -> (i + 1 < length r)%nat -> rd r (i + 1) <= rd r i) ->
  detectOscillation r = false.
Proof.
  intros Hmono. unfold detectOscillation.
  destruct (length r <? 100)%nat; [done|]. cbv zeta.
  set (cs := (length r / 2)%nat) in *.
  assert (Hzero :
    foldl (fun crossings i =>
             if Rlt_dec ((rd (drop cs r) i - rd (drop cs r) (i - 1))
                         * (rd (drop cs r) (i + 1) - rd (drop cs r) i)) 0
             then S crossings else crossings)
          0%nat (seq 1 (length (drop cs r) - 2)) = 0%nat).
  { apply (foldl_invariant (fun n : nat => n = 0%nat)); [done|].
    intros n i Hi%elem_of_seq ->.
    rewrite length_drop in Hi. rewrite !rd_drop.
    destruct (Rlt_dec _ 0) as [Hneg|]; [|done]. exfalso.
    replace (cs + (i + 1))%nat with (cs + i + 1)%nat in Hneg by lia.
    assert (Hi1 : (cs + i = cs + (i - 1) + 1)%nat) by lia.
    destruct Hmono as [Hm|Hm].
    - pose proof (Hm (cs + (i - 1))%nat ltac:(lia) ltac:(lia)) as Ha.
      pose proof (Hm (cs + i)%nat ltac:(lia) ltac:(lia)) as Hb.
      rewrite <- Hi1 in Ha. nra.
    - pose proof (Hm (cs + (i - 1))%nat ltac:(lia) ltac:(lia)) as Ha.
      pose proof (Hm (cs + i)%nat ltac:(lia) ltac:(lia)) as Hb.
      rewrite <- Hi1 in Ha. nra. }
  rewrite Hzero. cbn [INR]. unfold Rdiv. rewrite Rmult_0_l.
  destruct (Rgt_dec 0 0.05); [lra|done].
Qed.

(** X28, witness: one hundred samples equal to one half. *)
Lemma monotone_not_oscillating_witness :
  detectOscillation (replicate 100 0.5) = false.
Proof.
  apply (monotone_not_oscillating (replicate 100 0.5)). left.
  intros i _ Hi. rewrite length_replicate in Hi. unfold rd. rewrite !nth_lookup.
  rewrite !lookup_replicate_2 by lia. cbn [default]. lra.
Defined.

End MetricsTheorems.

(* ================================================================= *)
(** ** The attention field: construction and the cache of weights *)

Section AttentionConstruction.
Import AttentionField.
Local Open Scope R_scope.

(** The first loop of [initialize()]: three draws per cell. *)
Lemma attention_initialize_loop (rnd : draws) (n : nat) (th0 om0 st0 : list R) (c : nat) :
  (forall k, (0 <= rnd k)%Q /\ (rnd k < 1)%Q) ->
  let r :=
    foldl (fun (acc : list R * list R * list R * nat) i =>
             let '(th, om, st, c) := acc in
             let th := <[i := (Q2R (rnd c) * 2 - 1) * MathPI]> th in
             let '(z, c) := randomNormal rnd 0 0.5 (S c) in
             (th, <[i := z]> om, <[i := 0]> st, c))
          (th0, om0, st0, c) (seq 0 n) in
  length r.1.1.1 = length th0 /\ length r.1.1.2 = length om0 /\
  length r.1.2 = length st0 /\ r.2 = (c + 3 * n)%nat /\
  forall i, (i < n)%nat ->
    ((i < length th0)%nat -> - MathPI <= rd r.1.1.1 i < MathPI) /\
    ((i < length st0)%nat -> rd r.1.2 i = 0).
Proof.
  intros Hrnd. induction n as [|n IH]; cbn zeta in *.
  - cbn [seq foldl fst snd]. split_and!; try done; try lia.
  - rewrite seq_S, foldl_app. cbn [foldl plus].
    destruct (foldl _ _ (seq 0 n)) as [[[th om] st] c1].
    unfold randomNormal in *. cbn [fst snd] in *.
    destruct IH as (Hlt & Hlo & Hls & Hc & Hrd).
    split; [by rewrite length_insert|]. split; [by rewrite length_insert|].
    split; [by rewrite length_insert|]. split; [lia|].
    intros i Hi. rewrite !rd_insert, Hlt, Hls.
    destruct (decide (i = n)) as [->|Hne].
    + split; intros Hl.
      * destruct (decide _) as [_|Hd]; [|exfalso; apply Hd; lia].
        destruct (Hrnd c1) as [Hu0 Hu1].
        pose proof (Q2R_unit _ Hu0 Hu1). pose proof MathPI_pos. split; nra.
      * destruct (decide _) as [_|Hd]; [done|exfalso; apply Hd; lia].
    + destruct (Hrd i ltac:(lia)) as [H1 H2]. split; intros Hl.
      * destruct (decide _) as [[? _]|_]; [lia|by apply H1].
      * destruct (decide _) as [[? _]|_]; [lia|by apply H2].
Qed.

Lemma alter_row_fold (g : nat -> list R -> list R) (i : nat) (l : list nat) :
  forall fs : list (list R),
    foldl (fun fs f => alter (g f) i fs) fs l
    = alter (fun row => foldl (fun row f => g f row) row l) i fs.
Proof.
  induction l as [|f l IH]; intros fs; cbn [foldl].
  - symmetry. by apply list_alter_id.
  - rewrite IH. by rewrite list_alter_alter_eq.
Qed.

Lemma alter_each (h : list R -> list R) (n : nat) (fs : list (list R)) (i : nat) :
  foldl (fun fs i => alter h i fs) fs (seq 0 n) !! i
  = if decide (i < n)%nat then h <$> fs !! i else fs !! i.
Proof.
  induction n as [|n IH].
  - cbn [seq foldl]. by destruct (decide _); [lia|].
  - rewrite seq_S, foldl_app. cbn [foldl plus].
    destruct (decide (i = n)) as [->|Hne].
    + rewrite list_lookup_alter_eq, IH.
      destruct (decide (n < n)%nat); [lia|]. by destruct (decide (n < S n)%nat); [|lia].
    + rewrite list_lookup_alter_ne by done. rewrite IH.
      destruct (decide (i < n)%nat), (decide (i < S n)%nat); try done; lia.
Qed.

(** The second loop of [initialize()]: every feature of every cell is 0.5. *)
Lemma neutral_features (n nf : nat) (fs : list (list R)) (i f : nat) :
  length fs = n -> Forall (fun row => length row = nf) fs ->
  (i < n)%nat -> (f < nf)%nat ->
  rd (nth i (foldl (fun fs i =>
                      foldl (fun fs f => alter (fun row => <[f := 0.5]> row) i fs)
                            fs (seq 0 nf))
                   fs (seq 0 n)) []) f = 0.5.
Proof.
  intros Hlen Hrows Hi Hf.
  assert (Heq : forall l (fs0 : list (list R)),
            foldl (fun fs i =>
                     foldl (fun fs f => alter (fun row => <[f := 0.5]> row) i fs)
                           fs (seq 0 nf)) fs0 l
            = foldl (fun fs i =>
                       alter (fun row => foldl (fun row f => <[f := 0.5]> row) row (seq 0 nf))
                             i fs) fs0 l).
  { induction l as [|j l IH]; intros fs0; cbn [foldl]; [done|].
    rewrite (alter_row_fold (fun f row => <[f := 0.5]> row)). apply IH. }
  rewrite Heq, nth_lookup, alter_each.
  destruct (decide (i < n)%nat); [|lia].
  destruct (lookup_lt_is_Some_2 fs i ltac:(lia)) as [row Hrow]. rewrite Hrow.
  cbn [fmap option_fmap option_map default].
  destruct (fill_spec (fun _ => 0.5) nf row) as [_ Hfill]. rewrite Hfill.
  rewrite (Forall_lookup_1 _ _ _ _ Hrows Hrow).
  destruct (decide _) as [|Hd]; [done|exfalso; apply Hd; lia].
Qed.

(** X29.  For draws in [0, 1), [new AttentionFieldModel(config)] has one
    oscillator per cell of the grid ([gridSize] is [config.gridSize] or 32),
    with phase, frequency and stimulus arrays of that length; no phase exceeds
    in magnitude [Math.fround(Math.PI)] (it is drawn between [-Math.PI] and
    [Math.PI] and stored in a [Float32Array]), the stimulus is 0 everywhere and
    every feature is the neutral 0.5; there is no object, no
    network, the clock is 0, the history is empty, the cached weights are those
    of [computeSpatialWeights()], and three draws were made per cell. *)
Theorem attention_create_state (rnd : draws) (config : Config) (c : nat) :
  (forall n, (0 <= rnd n)%Q /\ (rnd n < 1)%Q) ->
  let r := create rnd config c in
  let m := r.1 in
  gridSize m = orElseNat (cfg_gridSize config) 32 /\
  N m = (gridSize m * gridSize m)%nat /\
  length (theta m) = N m /\ length (omega m) = N m /\ length (stimulus m) = N m /\
  (forall i, (i < N m)%nat ->
     - Float32PI <= rd (theta m) i <= Float32PI /\ rd (stimulus m) i = 0) /\
  (forall i f, (i < N m)%nat -> (f < numFeatures m)%nat ->
     rd (nth i (features m) []) f = 0.5) /\
  stimulusObjects m = [] /\ adjacency m = None /\ time m = 0 /\
  history m = noHistory /\ coherent m /\ r.2 = (c + 3 * N m)%nat.
Proof.
  intros Hrnd. cbn zeta. unfold create, initialize, coherent.
  set (gs := orElseNat (cfg_gridSize config) 32).
  set (nf := orElseNat (cfg_numFeatures config) 3).
  cbn [N theta omega stimulus features numFeatures set_spatialWeights].
  pose proof (attention_initialize_loop rnd (gs * gs) (replicate (gs * gs) 0)
                (replicate (gs * gs) 0) (replicate (gs * gs) 0) c Hrnd) as Hloop.
  cbn zeta in Hloop.
  destruct (foldl _ (replicate (gs * gs) 0, _, _, c) _) as [[[th om] st] c'].
  cbn [fst snd] in Hloop. rewrite !length_replicate in Hloop.
  destruct Hloop as (Hlt & Hlo & Hls & Hc & Hrd).
  cbn [fst snd gridSize N theta omega stimulus features numFeatures stimulusObjects
       adjacency time history spatialWeights set_history set_time set_features
       set_stimulus set_omega set_theta].
  split_and!; try done.
  - intros i Hi. destruct (Hrd i Hi) as [H1 H2]. pose proof MathPI_lt_Float32PI.
    split; [|by apply H2]. assert (Hb : - MathPI <= rd th i < MathPI) by (by apply H1). lra.
  - intros i f Hi Hf. apply neutral_features; try done.
    + apply length_replicate.
    + apply Forall_replicate, length_replicate.
Qed.

(** X29, witness: the default configuration on draws that are all one half. *)
Lemma attention_create_state_witness :
  N (create halves emptyFieldConfig 0).1 = 1024%nat /\
  length (theta (create halves emptyFieldConfig 0).1) = 1024%nat.
Proof.
  destruct (attention_create_state halves emptyFieldConfig 0)
    as (Hg & HN & Hl & _).
  - intros n. split; [vm_compute; discriminate|vm_compute; reflexivity].
  - cbn zeta in *. rewrite Hl, HN, Hg. split; reflexivity.
Defined.

Lemma attention_step_weights rnd m c :
  let m' := (step rnd m c).1 in
  gridSize m' = gridSize m /\ N m' = N m /\ spatialRange m' = spatialRange m /\
  spatialDecay m' = spatialDecay m /\ spatialWeights m' = spatialWeights m.
Proof.
  cbn zeta. unfold step.
  assert (H1 : let m1 := updateStimulusField m in
               gridSize m1 = gridSize m /\ N m1 = N m /\ spatialRange m1 = spatialRange m /\
               spatialDecay m1 = spatialDecay m /\ spatialWeights m1 = spatialWeights m).
  { cbn zeta. unfold updateStimulusField.
    by destruct (foldl _ _ (stimulusObjects m)) as [objs fields]. }
  cbn zeta in H1. set (m1 := updateStimulusField m) in *.
  destruct (computeDerivatives rnd m1 (theta m1) c) as [k1 c1].
  destruct (computeDerivatives rnd m1 _ c1) as [k2 c2].
  destruct (computeDerivatives rnd m1 _ c2) as [k3 c3].
  destruct (computeDerivatives rnd m1 _ c3) as [k4 c4].
  cbn [fst]. unfold recordHistory. by destruct (_ <? _)%nat.
Qed.

Lemma computeSpatialWeights_ext m m' :
  gridSize m' = gridSize m -> N m' = N m -> spatialRange m' = spatialRange m ->
  spatialDecay m' = spatialDecay m ->
  computeSpatialWeights m' = computeSpatialWeights m.
Proof. unfold computeSpatialWeights. by intros -> -> -> ->. Qed.

(** X30.  The cache of spatial weights never goes stale: when
    [spatialWeights] holds what [computeSpatialWeights()] gives for the
    current parameters, it still does after [step()], after
    [updateParameters(params)] whatever the keys (a new [spatialRange]
    recomputes it), after [setNetwork(...)] and after
    [addStimulusObject(obj)]. *)
Theorem spatialWeights_coherent (rnd : draws) (m : AttentionFieldModel) (c : nat)
    (params : Config) (obj : ObjectConfig) (adjacencyMatrix : option (list (list R)))
    (type : option string) (netParams : option (list (string * R))) :
  coherent m ->
  coherent (step rnd m c).1 /\
  coherent (updateParameters params m) /\
  coherent (setNetwork adjacencyMatrix type netParams m) /\
  coherent (addStimulusObject rnd obj m c).1.
Proof.
  unfold coherent. intros Hm. split_and!.
  - destruct (attention_step_weights rnd m c) as (Hg & HN & Hr & Hd & Hw).
    cbn zeta in *. rewrite Hw, Hm. symmetry. by apply computeSpatialWeights_ext.
  - unfold updateParameters.
    destruct (cfg_K params), (cfg_noiseLevel params), (cfg_phaseLag params),
      (cfg_dt params), (cfg_K_stim params), (cfg_K_feat params),
      (cfg_spatialRange params), (cfg_networkType params);
      first [exact Hm | reflexivity].
  - exact Hm.
  - unfold addStimulusObject. destruct (in_id obj) as [[|a s]|]; exact Hm.
Qed.

(** X30, witness: the field of one cell, whose only weight is 0. *)
Lemma spatialWeights_coherent_witness :
  coherent (step halves tinyField 0).1.
Proof.
  refine (proj1 (spatialWeights_coherent halves tinyField 0
                   emptyFieldConfig zeroObject None None None _)).
  reflexivity.
Defined.

End AttentionConstruction.
